(** * Radius: the request execution pipeline

    A shallow embedding of the core of Radius (variable resolver, session,
    script sandbox and request runner) and the properties its specification
    states about it.

    Conventions of the embedding.
    - A JavaScript string is a [string]: a sequence of code units, restricted
      to the range U+0000..U+00FF that [ascii] covers.
    - A JavaScript number is modelled where the code uses it: integers as [Z];
      the result of [Math.random()] as a binary64 value of [0,1) given by its
      mantissa and exponent.
    - [Map]s and plain objects used as maps are association lists in insertion
      order, with the update-in-place behaviour of [Map.prototype.set].
    - [async]/[await] is sequential composition: every [await] of the modelled
      code waits for a promise that the awaited call itself settles.  The one
      [Promise.all], in [resolveObject], is taken element by element.
    - Ambient effects ([Math.random], [Date.now], [process.env], the network,
      [console.warn]) are fields of an explicit host state that is threaded
      through the code. *)

From Stdlib Require Import ZArith List String Ascii Bool Lia Permutation Sorted.
From Stdlib Require Import DecimalString DecimalZ DecimalPos.
From Stdlib Require Import HexadecimalString HexadecimalZ.
Import ListNotations.

Set Warnings "-register-all".

Local Open Scope string_scope.
Local Open Scope list_scope.

(* ================================================================== *)
(** * JavaScript strings *)
(* ================================================================== *)

Module JsString.

Definition code (c : ascii) : nat := nat_of_ascii c.

(** [WhiteSpace] and [LineTerminator] code units below U+0100, as used by
    [String.prototype.trim]. *)
Definition isWhiteSpace (c : ascii) : bool :=
  let n := code c in
  (((9 <=? n) && (n <=? 13)) || (n =? 32) || (n =? 160))%nat.

Fixpoint trimStart (s : string) : string :=
  match s with
  | String c r => if isWhiteSpace c then trimStart r else s
  | EmptyString => EmptyString
  end.

Fixpoint trimEnd (s : string) : string :=
  match s with
  | String c r =>
      match trimEnd r with
      | EmptyString => if isWhiteSpace c then EmptyString else String c EmptyString
      | r' => String c r'
      end
  | EmptyString => EmptyString
  end.

(** [s.trim()] *)
Definition trim (s : string) : string := trimEnd (trimStart s).

Definition lowerChar (c : ascii) : ascii :=
  let n := code c in
  if (((65 <=? n) && (n <=? 90))
      || ((192 <=? n) && (n <=? 222) && negb (n =? 215)))%nat
  then ascii_of_nat (n + 32) else c.

(** [s.toLowerCase()] *)
Fixpoint toLowerCase (s : string) : string :=
  match s with
  | String c r => String (lowerChar c) (toLowerCase r)
  | EmptyString => EmptyString
  end.

(** [s.startsWith(p)] *)
Fixpoint startsWith (s p : string) {struct p} : bool :=
  match p with
  | EmptyString => true
  | String a p' =>
      match s with
      | String b s' => Ascii.eqb a b && startsWith s' p'
      | EmptyString => false
      end
  end.

(** [s.slice(n)] for [0 <= n] *)
Fixpoint slice (s : string) (n : nat) : string :=
  match n, s with
  | S n', String _ r => slice r n'
  | _, _ => s
  end.

(** The first occurrence of [pat] in [s]: the text before it and the text
    after it. *)
Fixpoint splitFirst (s pat : string) : option (string * string) :=
  if startsWith s pat then Some (EmptyString, slice s (String.length pat))
  else
    match s with
    | String c r =>
        match splitFirst r pat with
        | Some (before, after) => Some (String c before, after)
        | None => None
        end
    | EmptyString => None
    end.

(** [s.includes(pat)] *)
Definition includes (s pat : string) : bool :=
  match splitFirst s pat with Some _ => true | None => false end.

(** [GetSubstitution] of ECMA-262 for a match without capture groups: in
    the replacement text [$$] stands for a dollar sign, [$&] for the matched
    text, [$`] for the text before the match and [$'] for the text after
    it; a dollar sign followed by anything else stands for itself. *)
Fixpoint GetSubstitution (matched before after template : string) : string :=
  match template with
  | String c rest =>
      if Ascii.eqb c "$" then
        match rest with
        | String d rest' =>
            if Ascii.eqb d "$" then
              String "$" (GetSubstitution matched before after rest')
            else if Ascii.eqb d "&" then
              matched ++ GetSubstitution matched before after rest'
            else if Ascii.eqb d "`" then
              before ++ GetSubstitution matched before after rest'
            else if Ascii.eqb d "'" then
              after ++ GetSubstitution matched before after rest'
            else String c (GetSubstitution matched before after rest)
        | EmptyString => String c EmptyString
        end
      else String c (GetSubstitution matched before after rest)
  | EmptyString => EmptyString
  end.

(** [s.replace(pat, replacement)] with a string pattern: only the first
    occurrence is replaced, and the replacement text is expanded by
    [GetSubstitution]. *)
Definition replace (s pat replacement : string) : string :=
  match splitFirst s pat with
  | Some (before, after) =>
      before ++ GetSubstitution pat before after replacement ++ after
  | None => s
  end.

(** [l.join(sep)] on an array of strings *)
Fixpoint join (sep : string) (l : list string) : string :=
  match l with
  | [] => EmptyString
  | [x] => x
  | x :: xs => x ++ sep ++ join sep xs
  end.

(** Does the character occur in the string? *)
Fixpoint hasChar (c : ascii) (s : string) : bool :=
  match s with
  | String d r => Ascii.eqb c d || hasChar c r
  | EmptyString => false
  end.

End JsString.

(* ================================================================== *)
(** * JavaScript numbers and the host *)
(* ================================================================== *)

Module JsNumber.

Local Open Scope Z_scope.

(** The integers that are numbers as they stand: up to magnitude [2^53]
    every integer is a binary64 value, and the digits that [Number::toString]
    gives for it, the shortest that read back as the same value, are those
    of its decimal expansion.  Above, not every integer is a value, the
    digits are rounded ([2**64] prints as [18446744073709552000]), and from
    [1e21] on the text has an exponent. *)
Definition exact (n : Z) : bool := Z.abs n <=? 2 ^ 53.

(** [n.toString()], [String(n)] for an [exact] integer: its decimal
    expansion. *)
Definition toString (n : Z) : string :=
  DecimalString.NilZero.string_of_int (Z.to_int n).

(** [n.toString(16)] for an integer-valued number. *)
Definition toString16 (n : Z) : string :=
  HexadecimalString.NilZero.string_of_int (Z.to_hex_int n).

(** The integer a decimal numeral denotes, when the whole string is one. *)
Definition parseDecimal (s : string) : option Z :=
  match DecimalString.NilZero.int_of_string s with
  | Some d => Some (Z.of_int d)
  | None => None
  end.

(** A finite non-negative binary64 value: [mant * 2^(-expo)].  A value of
    [0,1) has [0 <= mant < 2^53] and [53 <= expo] (normal numbers below 1
    have [2^52 <= mant] and [expo = 52 + k] for a [k >= 1]; subnormal ones
    have [expo = 1074]). *)
Record double := { mant : Z; expo : Z }.

Definition unitInterval (x : double) : Prop :=
  0 <= mant x < 2 ^ 53 /\ 53 <= expo x.

Definition unitIntervalb (x : double) : bool :=
  (0 <=? mant x) && (mant x <? 2 ^ 53) && (53 <=? expo x).

(** Round to nearest, ties to even, of the exact value [p * 2^(-e)] to 53
    significant bits. *)
Definition round53 (p e : Z) : double :=
  let s := Z.max 0 (Z.log2 p + 1 - 53) in
  let q := Z.shiftr p s in
  let r := p - Z.shiftl q s in
  let half := Z.shiftl 1 (s - 1) in
  let up := (0 <? s) && ((half <? r) || ((half =? r) && Z.odd q)) in
  {| mant := Z.shiftl (if up then q + 1 else q) s; expo := e |}.

(** [x * k] for a value [x] of [0,1) and an integer constant [k] that
    binary64 represents exactly. *)
Definition mulInt (x : double) (k : Z) : double :=
  round53 (mant x * k) (expo x).

(** [Math.floor(x)] of a non-negative value *)
Definition floor (x : double) : Z := Z.shiftr (mant x) (expo x).

(** [ToInt32]: truncation, then reduction modulo 2^32 into the signed range *)
Definition ToInt32 (x : double) : Z :=
  (floor x + 2 ^ 31) mod 2 ^ 32 - 2 ^ 31.

End JsNumber.

(** The ambient state of the host process. *)
Module Host.

Record t := {
(** successive results of [Math.random()] *)
randoms : nat -> JsNumber.double;
random_calls : nat;
(** successive readings of the clock, in epoch milliseconds *)
clock : nat -> Z;
clock_reads : nat;
(** [process.env] *)
process_env : list (string * string)
}.

Definition Math_random (h : t) : JsNumber.double * t :=
  (randoms h (random_calls h),
   {| randoms := randoms h; random_calls := S (random_calls h);
      clock := clock h; clock_reads := clock_reads h;
      process_env := process_env h |}).

Definition Date_now (h : t) : Z * t :=
  (clock h (clock_reads h),
   {| randoms := randoms h; random_calls := random_calls h;
      clock := clock h; clock_reads := S (clock_reads h);
      process_env := process_env h |}).

(** [Math.random()] returns a value of [0,1). *)
Definition random_ok (h : t) : Prop :=
  forall i, JsNumber.unitInterval (randoms h i).

End Host.

(* ================================================================== *)
(** * JavaScript values *)
(* ================================================================== *)

Module JsValue.

(** The values that cross the boundaries of the pipeline: JSON-like data
    and [undefined].  Numbers are the integers; what is said of their text
    is said of the [JsNumber.exact] ones.  An object is a plain one, with
    [Object.prototype] as its prototype; its fields are its own enumerable
    properties in the order in which [Object.entries] gives them. *)
Inductive jsval : Type :=
| JUndefined
| JNull
| JBool (b : bool)
| JNum (n : Z)
| JStr (s : string)
| JArr (items : list jsval)
| JObj (fields : list (string * jsval)).

(** [String(v)], for a value that [coercible] below admits. *)
Fixpoint String_ (v : jsval) : string :=
  match v with
  | JUndefined => "undefined"
  | JNull => "null"
  | JBool true => "true"
  | JBool false => "false"
  | JNum n => JsNumber.toString n
  | JStr s => s
  | JArr items =>
      JsString.join ","
        (map (fun x => match x with
                       | JUndefined | JNull => EmptyString
                       | _ => String_ x
                       end) items)
  | JObj _ => "[object Object]"
  end.

(** The values that [String(v)] turns into the text that [String_] gives:
    a number is a [JsNumber.exact] one, and an object has no property
    [toString] of its own.  Such a property of a value of the model is data,
    not a function; [String] passes it over and, finding that [valueOf]
    gives no primitive either, throws a [TypeError].  An array is turned
    into text element by element. *)
Fixpoint coercible (v : jsval) : bool :=
  match v with
  | JNum n => JsNumber.exact n
  | JArr items => forallb coercible items
  | JObj fields => negb (existsb (fun kv => (fst kv =? "toString")%string) fields)
  | _ => true
  end.

(** [Boolean(v)] *)
Definition truthy (v : jsval) : bool :=
  match v with
  | JUndefined | JNull => false
  | JBool b => b
  | JNum n => negb (n =? 0)%Z
  | JStr s => negb (s =? "")%string
  | JArr _ | JObj _ => true
  end.

Definition isUndefined (v : jsval) : bool :=
  match v with JUndefined => true | _ => false end.

(** Maps and objects used as maps, in insertion order. *)
Definition Map (V : Type) : Type := list (string * V).

Section Maps.
Context {V : Type}.

(** [m.get(k)], [o[k]] *)
Fixpoint Map_get (m : Map V) (k : string) : option V :=
  match m with
  | (k', v) :: m' => if (k' =? k)%string then Some v else Map_get m' k
  | [] => None
  end.

(** [m.set(k, v)], [o[k] = v]: an existing key keeps its position. *)
Fixpoint Map_set (m : Map V) (k : string) (v : V) : Map V :=
  match m with
  | (k', v') :: m' =>
      if (k' =? k)%string then (k, v) :: m' else (k', v') :: Map_set m' k v
  | [] => [(k, v)]
  end.

(** [for (const [k, v] of entries) m.set(k, v)] *)
Definition Map_setAll (m : Map V) (entries : list (string * V)) : Map V :=
  fold_left (fun acc kv => Map_set acc (fst kv) (snd kv)) entries m.

(** [for (const [k, v] of entries) o[k] = v] into a new object [o = {}],
    for entries with distinct keys, as the entries of a [Map] and of
    [Object.entries] are.  Every entry becomes a property of [o], in turn,
    but one with the key [__proto__]: that name is an accessor of
    [Object.prototype], and the assignment calls it.  It makes an object or
    [null] the prototype of [o], does nothing with another value, and gives
    [o] no property of its own. *)
Fixpoint assignedTo (entries : list (string * V)) : Map V :=
  match entries with
  | [] => []
  | (k, v) :: rest =>
      if (k =? "__proto__")%string then assignedTo rest
      else (k, v) :: assignedTo rest
  end.

End Maps.

(** The names that a plain object inherits from [Object.prototype]. *)
Definition Object_prototype : list string :=
  [ "constructor"; "__defineGetter__"; "__defineSetter__"; "hasOwnProperty";
    "__lookupGetter__"; "__lookupSetter__"; "isPrototypeOf";
    "propertyIsEnumerable"; "toString"; "valueOf"; "__proto__";
    "toLocaleString" ].

Definition inherited (k : string) : bool :=
  existsb (String.eqb k) Object_prototype.

(** What [o[k]] reads from a plain object whose own properties are [o]:
    the own property; for a name that [o] does not have and
    [Object.prototype] has, the member of the prototype, which is a function
    of the host, or [Object.prototype] itself for [__proto__]; [undefined]
    for any other name. *)
Inductive read (V : Type) : Type :=
| Own (v : V)
| Inherited (member : string)
| Missing.
Arguments Own {V} v.
Arguments Inherited {V} member.
Arguments Missing {V}.

Definition Object_get {V : Type} (o : Map V) (k : string) : read V :=
  match Map_get o k with
  | Some v => Own v
  | None => if inherited k then Inherited k else Missing
  end.

(** A read of an object whose properties may hold [undefined]: such a
    property is read as [undefined], whatever the prototype has. *)
Definition defined {V : Type} (x : read (option V)) : read V :=
  match x with
  | Own (Some v) => Own v
  | Own None => Missing
  | Inherited member => Inherited member
  | Missing => Missing
  end.

(** [o[k] = v] on a plain object whose own properties are [o]: the property
    is set or added, but for the key [__proto__] on an object without a
    property of that name of its own, where the assignment calls the
    accessor of [Object.prototype] and adds nothing. *)
Definition Object_set {V : Type} (o : Map V) (k : string) (v : V) : Map V :=
  if (k =? "__proto__")%string
     && match Map_get o k with Some _ => false | None => true end
  then o
  else Map_set o k v.

(** [o.k] for [o] an object; [undefined] when the property is missing. *)
Definition getProp (o : jsval) (k : string) : jsval :=
  match o with
  | JObj fields => match Map_get fields k with Some v => v | None => JUndefined end
  | _ => JUndefined
  end.

End JsValue.

(* ================================================================== *)
(** * Computations of the pipeline *)
(* ================================================================== *)

(** A computation over a state [S] that returns, throws an [Error] with a
    message, or exhausts the recursion budget of the model. *)
Module Comp.

Inductive result (A : Type) : Type :=
| Ok (a : A)
| Throw (message : string)
| OutOfFuel.
Arguments Ok {A} a.
Arguments Throw {A} message.
Arguments OutOfFuel {A}.

Definition M (S A : Type) : Type := S -> result A * S.

Definition ret {S A} (a : A) : M S A := fun s => (Ok a, s).

Definition bind {S A B} (m : M S A) (k : A -> M S B) : M S B :=
  fun s =>
    match m s with
    | (Ok a, s') => k a s'
    | (Throw e, s') => (Throw e, s')
    | (OutOfFuel, s') => (OutOfFuel, s')
    end.

Definition throw {S A} (message : string) : M S A := fun s => (Throw message, s).

Definition outOfFuel {S A} : M S A := fun s => (OutOfFuel, s).

(** A host operation that cannot fail. *)
Definition lift {S A} (f : S -> A * S) : M S A :=
  fun s => let (a, s') := f s in (Ok a, s').

Definition returns {A} (r : result A) : bool :=
  match r with Ok _ => true | _ => false end.

Definition exhausted {A} (r : result A) : bool :=
  match r with OutOfFuel => true | _ => false end.

End Comp.

Import Comp.

Declare Scope comp_scope.
Delimit Scope comp_scope with comp.
Notation "x <- m ;; k" := (bind m (fun x => k))
  (at level 61, m at next level, right associativity) : comp_scope.
Notation "m ;;; k" := (bind m (fun _ => k))
  (at level 61, right associativity) : comp_scope.

(* ================================================================== *)
(** * VariableResolver *)
(* ================================================================== *)

Module Resolver.

Import JsString JsValue.
Local Open Scope comp_scope.

(** [IVariableSource].  The lookup of a source is a function of the key:
    sources are stateless from the resolver's point of view; [None] is
    [undefined]. *)
Record IVariableSource := {
  name : string;
  priority : Z;
  get : string -> option string
}.

(** ** The two patterns *)

(** The longest prefix without a closing brace, and what follows it. *)
Fixpoint spanInner (s : string) : string * string :=
  match s with
  | String c r =>
      if Ascii.eqb c "}" then (EmptyString, s)
      else let (inner, rest) := spanInner r in (String c inner, rest)
  | EmptyString => (EmptyString, EmptyString)
  end.

(** A match of [\{\{([^}]+)\}\}] that starts at the head of [s]: the text of
    the capture group and the text after the match.  The greedy group takes
    every code unit up to the next closing brace; a shorter run is followed
    by a code unit of the group, never by the two closing braces, so there
    is nothing to backtrack to. *)
Definition execAt (s : string) : option (string * string) :=
  match s with
  | String "{" (String "{" r) =>
      match spanInner r with
      | (String c inner, String "}" (String "}" rest)) => Some (String c inner, rest)
      | _ => None
      end
  | _ => None
  end.

(** The text a match with capture group [inner] covers. *)
Definition fullMatchOf (inner : string) : string := "{{" ++ inner ++ "}}".

(** [[...s.matchAll(createVariablePattern())]]: the capture groups of the
    successive matches, left to right.  Each step consumes at least one
    code unit, so [fuel] above the length of [s] is enough. *)
Fixpoint matchAllFrom (fuel : nat) (s : string) : list string :=
  match fuel with
  | O => []
  | S fuel' =>
      match execAt s with
      | Some (inner, rest) => inner :: matchAllFrom fuel' rest
      | None =>
          match s with
          | String _ r => matchAllFrom fuel' r
          | EmptyString => []
          end
      end
  end.

Definition matchAll (s : string) : list string :=
  matchAllFrom (S (String.length s)) s.

(** [hasVariables]: the pattern matches somewhere in [s]. *)
Fixpoint hasVariables (s : string) : bool :=
  match execAt s with
  | Some _ => true
  | None =>
      match s with
      | String _ r => hasVariables r
      | EmptyString => false
      end
  end.

(** [\w] *)
Definition isWordChar (c : ascii) : bool :=
  let n := code c in
  (((48 <=? n) && (n <=? 57)) || ((65 <=? n) && (n <=? 90))
   || ((97 <=? n) && (n <=? 122)) || (n =? 95))%nat.

Fixpoint allWordChars (s : string) : bool :=
  match s with
  | String c r => isWordChar c && allWordChars r
  | EmptyString => true
  end.

(** [varName.match(BUILTIN_PATTERN)]: the capture group of [^\$(\w+)$]. *)
Definition matchBuiltin (varName : string) : option string :=
  match varName with
  | String "$" (String c w) =>
      if allWordChars (String c w) then Some (String c w) else None
  | _ => None
  end.

(** ** Options and construction *)

Record ResolverOptions := {
  strict : option bool;
  maxDepth : option Z
}.

Definition noOptions : ResolverOptions := {| strict := None; maxDepth := None |}.

Record RequiredOptions := {
  strict_ : bool;
  maxDepth_ : Z
}.

Record VariableResolver := {
  sources : list IVariableSource;
  options : RequiredOptions
}.

(** The comparator of the constructor: [(a, b) => b.priority - a.priority] *)
Definition compareSources (a b : IVariableSource) : Z :=
  (priority b - priority a)%Z.

(** [Array.prototype.sort] is stable.  [insertSorted a l] puts [a], which
    preceded every element of [l] in the input, in front of the first
    element it does not have to follow. *)
Fixpoint insertSorted (a : IVariableSource) (l : list IVariableSource)
  : list IVariableSource :=
  match l with
  | b :: l' =>
      if (0 <? compareSources a b)%Z then b :: insertSorted a l' else a :: l
  | [] => [a]
  end.

Definition sortSources (l : list IVariableSource) : list IVariableSource :=
  fold_right insertSorted [] l.

Definition constructor (srcs : list IVariableSource) (opts : ResolverOptions)
  : VariableResolver :=
  {| sources := sortSources srcs;
     options := {| strict_ := match strict opts with Some b => b | None => true end;
                   maxDepth_ := match maxDepth opts with Some d => d | None => 10%Z end |} |}.

(** ** Lookup *)

Definition lookupName (name : string) : string :=
  if startsWith name "env." then slice name (String.length "env.") else name.

Fixpoint firstDefined (l : list IVariableSource) (key : string) : option string :=
  match l with
  | source :: l' =>
      match get source key with
      | Some value => Some value
      | None => firstDefined l' key
      end
  | [] => None
  end.

Definition lookup (r : VariableResolver) (name : string) : option string :=
  firstDefined (sources r) (lookupName name).

(** ** Built-in variables *)

Section Builtins.

(** [new Date(t).toISOString()], which the engine provides. *)
Variable toISOString : Z -> string.

(** The replacer of [generateUuid], called on each [x] and [y] of the
    template from left to right. *)
Definition uuidDigit (c : ascii) (x : JsNumber.double) : string :=
  let r := Z.lor (JsNumber.ToInt32 (JsNumber.mulInt x 16)) 0 in
  let v := if Ascii.eqb c "x" then r else Z.lor (Z.land r 3) 8 in
  JsNumber.toString16 v.

Fixpoint fillUuid (template : string) (h : Host.t) : string * Host.t :=
  match template with
  | String c rest =>
      if Ascii.eqb c "x" || Ascii.eqb c "y" then
        let (x, h1) := Host.Math_random h in
        let (tail, h2) := fillUuid rest h1 in
        ((uuidDigit c x ++ tail)%string, h2)
      else
        let (tail, h1) := fillUuid rest h in
        (String c tail, h1)
  | EmptyString => (EmptyString, h)
  end.

Definition generateUuid : Host.t -> string * Host.t :=
  fillUuid "xxxxxxxx-xxxx-4xxx-yxxx-xxxxxxxxxxxx".

Definition randomInt (h : Host.t) : Z * Host.t :=
  let (x, h1) := Host.Math_random h in
  (JsNumber.floor (JsNumber.mulInt x 1000000), h1).

Definition resolveBuiltin (name : string) (h : Host.t) : option string * Host.t :=
  let n := toLowerCase name in
  if (n =? "uuid")%string then
    let (u, h1) := generateUuid h in (Some u, h1)
  else if (n =? "timestamp")%string then
    let (t, h1) := Host.Date_now h in (Some (JsNumber.toString t), h1)
  else if (n =? "isodate")%string then
    let (t, h1) := Host.Date_now h in (Some (toISOString t), h1)
  else if (n =? "randomint")%string then
    let (i, h1) := randomInt h in (Some (JsNumber.toString i), h1)
  else (None, h).

(** ** Resolution *)

Record ResolveResult := {
  value : string;
  unresolved : list string
}.

Definition depthMessage (r : VariableResolver) : string :=
  "Variable resolution exceeded max depth ("
  ++ JsNumber.toString (maxDepth_ (options r)) ++ "). "
  ++ "Check for circular references.".

(** The loop of [resolveWithInfo] over the matches of the template, with
    the recursive call for a value that has placeholders as [nested]. *)
Fixpoint resolveMatches (nested : string -> M Host.t ResolveResult)
         (r : VariableResolver) (matches : list string) (result : string)
         (unres : list string) : M Host.t ResolveResult :=
  match matches with
  | [] => ret {| value := result; unresolved := unres |}
  | inner :: matches' =>
      let fullMatch := fullMatchOf inner in
      let varName := trim inner in
      (* built-in variables first *)
      builtinValue <-
        match matchBuiltin varName with
        | Some b => lift (resolveBuiltin b)
        | None => ret None
        end ;;
      match builtinValue with
      | Some v => resolveMatches nested r matches' (replace result fullMatch v) unres
      | None =>
          (* look up in sources *)
          match lookup r varName with
          | Some v =>
              if hasVariables v then
                nestedResult <- nested v ;;
                resolveMatches nested r matches'
                               (replace result fullMatch (value nestedResult))
                               (unres ++ unresolved nestedResult)
              else resolveMatches nested r matches' (replace result fullMatch v) unres
          | None => resolveMatches nested r matches' result (unres ++ [varName])
          end
      end
  end.

(** [resolveWithInfo].  The recursion of the code is on [depth]; [fuel]
    bounds the nesting of calls in the model. *)
Fixpoint resolveWithInfo (fuel : nat) (r : VariableResolver)
         (template : string) (depth : Z) : M Host.t ResolveResult :=
  match fuel with
  | O => outOfFuel
  | S fuel' =>
      if (maxDepth_ (options r) <? depth)%Z then throw (depthMessage r)
      else
        resolveMatches (fun v => resolveWithInfo fuel' r v (depth + 1)%Z)
                       r (matchAll template) template []
  end.

(** The calls at depths [depth .. maxDepth] run their loop and the call at
    depth [maxDepth + 1] throws: this many nested calls at most. *)
Definition fuelFor (r : VariableResolver) (depth : Z) : nat :=
  S (Z.to_nat (maxDepth_ (options r) + 1 - depth)).

(** [resolveWithInfo(template)] as callers use it, with [depth = 0]. *)
Definition resolveWithInfo0 (r : VariableResolver) (template : string)
  : M Host.t ResolveResult :=
  resolveWithInfo (fuelFor r 0) r template 0%Z.

Definition unresolvedMessage (names : list string) : string :=
  "Unresolved variables: " ++ join ", " names.

(** [resolve] *)
Definition resolve (r : VariableResolver) (template : string) : M Host.t string :=
  result <- resolveWithInfo0 r template ;;
  if strict_ (options r) && negb (Nat.eqb (List.length (unresolved result)) 0)
  then throw (unresolvedMessage (unresolved result))
  else ret (value result).

(** The loops of [resolveObject]: [obj.map(item => this.resolveObject(item))]
    over the elements of an array, and the loop over [Object.entries(obj)],
    for the resolution [f] of one value. *)
Definition eachItem (f : jsval -> M Host.t jsval)
  : list jsval -> M Host.t (list jsval) :=
  fix each (l : list jsval) : M Host.t (list jsval) :=
    match l with
    | [] => ret []
    | item :: l' =>
        item' <- f item ;;
        rest <- each l' ;;
        ret (item' :: rest)
    end.

Definition eachEntry (f : jsval -> M Host.t jsval)
  : list (string * jsval) -> M Host.t (list (string * jsval)) :=
  fix each (l : list (string * jsval)) : M Host.t (list (string * jsval)) :=
    match l with
    | [] => ret []
    | (key, v) :: l' =>
        v' <- f v ;;
        rest <- each l' ;;
        ret ((key, v') :: rest)
    end.

(** [resolveObject]: every string leaf is resolved, arrays and objects are
    rebuilt in the order of their elements and entries, other values pass
    through.  The elements of an array are taken left to right, one after
    the other; [Promise.all] starts them all before it awaits any, which
    gives the same resolved array unless two elements draw on the clock or
    on [Math.random()] around a lookup, where the draws interleave.  The
    entries of an object are resolved and assigned by [resolved[key] = ...]
    in turn, as [assignedTo] has it: the value of an entry with the key
    [__proto__] is resolved like the others, and the copy gets no such
    property. *)
Fixpoint resolveObject (r : VariableResolver) (obj : jsval) : M Host.t jsval :=
  match obj with
  | JNull | JUndefined => ret obj
  | JStr s => s' <- resolve r s ;; ret (JStr s')
  | JArr items =>
      resolved <- eachItem (resolveObject r) items ;;
      ret (JArr resolved)
  | JObj fields =>
      resolved <- eachEntry (resolveObject r) fields ;;
      ret (JObj (assignedTo resolved))
  | _ => ret obj
  end.

End Builtins.

End Resolver.

(* ================================================================== *)
(** * SessionManager *)
(* ================================================================== *)

Module Session.

Import JsValue.

Record SessionManagerOptions := {
  initialVariables : option (list (string * jsval));
  priorityOption : option Z
}.

Record SessionManager := {
  variables : Map jsval;
  priority : Z
}.

Definition constructor (opts : SessionManagerOptions) : SessionManager :=
  {| variables := match initialVariables opts with
                  | Some entries => Map_setAll [] entries
                  | None => []
                  end;
     priority := match priorityOption opts with Some p => p | None => 500%Z end |}.

(** [get]: [Map.prototype.get] answers [undefined] for a missing key. *)
Definition get (s : SessionManager) (key : string) : jsval :=
  match Map_get (variables s) key with
  | Some v => v
  | None => JUndefined
  end.

Definition set (s : SessionManager) (key : string) (v : jsval) : SessionManager :=
  {| variables := Map_set (variables s) key v; priority := priority s |}.

Definition has (s : SessionManager) (key : string) : bool :=
  match Map_get (variables s) key with Some _ => true | None => false end.

(** [getAll]: the variables assigned, one after the other, to the
    properties of a new object. *)
Definition getAll (s : SessionManager) : list (string * jsval) :=
  assignedTo (variables s).

Definition merge (s : SessionManager) (vars : list (string * jsval)) : SessionManager :=
  {| variables := Map_setAll (variables s) vars; priority := priority s |}.

(** [SessionVariableSource.get], reading the session as it is now. *)
Definition sourceGet (s : SessionManager) (key : string) : option string :=
  let value := get s key in
  if isUndefined value then None else Some (String_ value).

(** [getVariableSource]: the source reads the session it was created from;
    the embedding instantiates it with the current state of that session
    whenever a resolution starts. *)
Definition getVariableSource (s : SessionManager) : Resolver.IVariableSource :=
  {| Resolver.name := "Session";
     Resolver.priority := priority s;
     Resolver.get := sourceGet s |}.

End Session.

(* ================================================================== *)
(** * Types of the runner *)
(* ================================================================== *)

Module Types.

Import JsValue.

(** [ExpectResult] *)
Record ExpectResult := {
  passed : bool;
  message : string;
  expected : option jsval;
  actual : option jsval
}.

Record RequestTiming := {
  total : Z;
  dns : option Z;
  connect : option Z;
  tls : option Z;
  ttfb : option Z;
  download : option Z
}.

Record RequestInfo := {
  info_method : jsval;
  info_url : jsval;
  info_headers : list (string * string)
}.

(** [RadiusResponse], with the two fields that the runner attaches to it
    outside its declared type. *)
Record RadiusResponse := {
  status : Z;
  statusText : string;
  headers : list (string * string);
  body : string;
  json : jsval;
  timing : RequestTiming;
  request : RequestInfo;
  _scriptLogs : option (list string);
  _assertions : option (list ExpectResult)
}.

(** [response._scriptLogs = logs] *)
Definition setScriptLogs (r : RadiusResponse) (logs : list string) : RadiusResponse :=
  {| status := status r; statusText := statusText r; headers := headers r;
     body := body r; json := json r; timing := timing r; request := request r;
     _scriptLogs := Some logs; _assertions := _assertions r |}.

(** [response._assertions = assertions] *)
Definition setAssertions (r : RadiusResponse) (assertions : list ExpectResult)
  : RadiusResponse :=
  {| status := status r; statusText := statusText r; headers := headers r;
     body := body r; json := json r; timing := timing r; request := request r;
     _scriptLogs := _scriptLogs r; _assertions := Some assertions |}.

(** [response.json] after a change in place of the object it holds *)
Definition setJson (r : RadiusResponse) (v : jsval) : RadiusResponse :=
  {| status := status r; statusText := statusText r; headers := headers r;
     body := body r; json := v; timing := timing r; request := request r;
     _scriptLogs := _scriptLogs r; _assertions := _assertions r |}.

End Types.

(* ================================================================== *)
(** * ScriptSandbox *)
(* ================================================================== *)

Module Sandbox.

Import JsString JsValue Types.

(** The methods that [RadiusContextImpl.expect] wraps. *)
Inductive method : Type :=
| toBe | toEqual | toBeTruthy | toBeFalsy | toBeDefined | toBeNull
| toBeGreaterThan | toBeLessThan | toContain | toMatch.

(** What a script can throw: an instance of the [Error] of the host, which
    the vm context has as [Error], with its message, or another value. *)
Inductive thrown : Type :=
| ErrorObject (message : string)
| OtherValue.

Inductive consoleMethod : Type :=
| console_log | console_info | console_warn | console_error | console_debug.

(** What an identifier of the script is bound to in the vm context. *)
Inductive binding : Type :=
| BoundRadius
| BoundConsole
| BoundResponse
| BoundIntrinsic (what : string)
| BoundUndefined.

(** The [response] view of a post-script as the script reads it. *)
Record ResponseView := {
  view_status : Z;
  view_statusText : string;
  view_headers : list (string * string);
  view_body : string
}.

(** The run of one script, as the interaction it has with what the vm
    context exposes: each node is one use of the sandbox API, and its
    continuation is what the script does with the answer.  A run ends by
    completing, by an uncaught throw, or by being stopped on the timeout.
    [ResponseJson] is a call of [response.json()]; [MutateJson] is a change
    that the script makes in place to the value that call gave it, and
    [MutateOutcome] a change in place to a result that a method of
    [radius.expect(...)] gave it, the results counted from 0 in the order of
    the calls since the context was made.  A result holds the actual and the
    expected value by reference: a change in place to an object that a
    result holds is a [MutateOutcome] of that result, and it is a
    [MutateJson] as well when the object is the one of [response.json()].
    [Identifier] reads a name in the object that the vm context is made
    from; a name that this object does not have is answered by the globals
    of the context itself, or is unbound.
    A script of the model acts through the methods of [radius], [console]
    and [response], on the values that they return, and through the
    identifiers of the vm context; the fields of the context object and the
    constructors of the objects of the host, which the engine also lets a
    script reach, are outside the model. *)
Inductive script : Type :=
| Completes
| Throws (t : thrown)
| TimesOut
| Identifier (identifier : string) (k : option binding -> script)
| GetVariable (name : string) (k : jsval -> script)
| SetVariable (name : string) (v : jsval) (k : script)
| GetEnv (name : string) (k : read string -> script)
| Uuid (k : string -> script)
| Timestamp (k : Z -> script)
| Log (args : list jsval) (k : script)
| Expect (actual : jsval) (m : method) (args : list jsval) (k : ExpectResult -> script)
| Console (m : consoleMethod) (args : list jsval) (k : script)
| ReadResponse (k : option ResponseView -> script)
| ResponseJson (k : option (jsval + string) -> script)
| MutateJson (update : jsval -> jsval) (k : script)
| MutateOutcome (index : nat) (update : ExpectResult -> ExpectResult) (k : script).

(** What the embedding takes as given: intrinsics of the engine, the
    engine's run of a script text, and [ExpectBuilderImpl], whose methods
    compute one [ExpectResult] from the actual value and the arguments. *)
Record Given := {
  toISOString : Z -> string;
  JSON_stringify : jsval -> string;
  JSON_parse : string -> option jsval;
  evaluate : string -> script;
  ExpectBuilderImpl : jsval -> method -> list jsval -> ExpectResult
}.

(** The environment a context reads: the object given at construction, a
    property of which holds a string or [undefined], or [process.env]
    itself, whose properties hold strings. *)
Inductive EnvRef : Type :=
| SuppliedEnv (env : list (string * option string))
| ProcessEnv.

Definition readEnv (e : EnvRef) (h : Host.t) : list (string * option string) :=
  match e with
  | SuppliedEnv env => env
  | ProcessEnv => map (fun kv => (fst kv, Some (snd kv))) (Host.process_env h)
  end.

(** ** RadiusContextImpl *)

Record RadiusContextImpl := {
  variables : Map jsval;
  envVars : EnvRef;
  logs : list string;
  assertions : list ExpectResult
}.

(** [new RadiusContextImpl(envVars)]; the parameter defaults to
    [process.env]. *)
Definition newContext (envVars : option EnvRef) : RadiusContextImpl :=
  {| variables := [];
     envVars := match envVars with Some e => e | None => ProcessEnv end;
     logs := [];
     assertions := [] |}.

Definition getVariable (c : RadiusContextImpl) (name : string) : jsval :=
  match Map_get (variables c) name with Some v => v | None => JUndefined end.

Definition setVariable (c : RadiusContextImpl) (name : string) (v : jsval)
  : RadiusContextImpl :=
  {| variables := Map_set (variables c) name v; envVars := envVars c;
     logs := logs c; assertions := assertions c |}.

(** [getEnv]: [this.envVars[name]], a read of a property of the object. *)
Definition getEnv (c : RadiusContextImpl) (h : Host.t) (name : string) : read string :=
  defined (Object_get (readEnv (envVars c) h) name).

Definition isObjectType (v : jsval) : bool :=
  match v with JNull | JArr _ | JObj _ => true | _ => false end.

Definition log (g : Given) (c : RadiusContextImpl) (args : list jsval)
  : RadiusContextImpl :=
  let line :=
    join " " (map (fun arg => if isObjectType arg then JSON_stringify g arg
                              else String_ arg) args) in
  {| variables := variables c; envVars := envVars c;
     logs := logs c ++ [line]; assertions := assertions c |}.

(** A method of the builder that [expect(actual)] returns: the result of
    the wrapped method is pushed and returned. *)
Definition expect (g : Given) (c : RadiusContextImpl) (actual : jsval)
           (m : method) (args : list jsval) : ExpectResult * RadiusContextImpl :=
  let result := ExpectBuilderImpl g actual m args in
  (result,
   {| variables := variables c; envVars := envVars c;
      logs := logs c; assertions := assertions c ++ [result] |}).

(** [l[n] = f(l[n])] when there is an element at [n] *)
Fixpoint updateAt {A : Type} (n : nat) (f : A -> A) (l : list A) : list A :=
  match l, n with
  | [], _ => []
  | x :: l', O => f x :: l'
  | x :: l', S n' => x :: updateAt n' f l'
  end.

(** A change in place of a result that a method of the builder returned:
    the method pushes the object that it returns, so the change is a change
    of what the context has recorded. *)
Definition rewriteOutcome (c : RadiusContextImpl) (index : nat)
           (update : ExpectResult -> ExpectResult) : RadiusContextImpl :=
  {| variables := variables c; envVars := envVars c;
     logs := logs c; assertions := updateAt index update (assertions c) |}.

Definition getVariables (c : RadiusContextImpl) : list (string * jsval) :=
  variables c.

Definition setVariables (c : RadiusContextImpl) (vars : list (string * jsval))
  : RadiusContextImpl :=
  {| variables := Map_setAll (variables c) vars; envVars := envVars c;
     logs := logs c; assertions := assertions c |}.

(** ** ResponseContextImpl *)

Record ResponseContextImpl := {
  ctx_view : ResponseView;
  ctx_json : jsval;
  ctx_jsonParsed : bool
}.

Definition notJsonMessage : string := "Response body is not valid JSON".

(** [json()]: the value it returns or the message of the error it throws,
    and the view afterwards. *)
Definition json (g : Given) (r : ResponseContextImpl)
  : (jsval + string) * ResponseContextImpl :=
  match ctx_json r with
  | JNull =>
      if ctx_jsonParsed r then (inr notJsonMessage, r)
      else
        let r' := {| ctx_view := ctx_view r; ctx_json := ctx_json r;
                     ctx_jsonParsed := true |} in
        match JSON_parse g (view_body (ctx_view r)) with
        | Some v => (inl v, r')
        | None => (inr notJsonMessage, r')
        end
  | v => (inl v, r)
  end.

(** A change in place of the value that [json()] returned.  The view holds
    [response.json] itself, so an object or an array that it returns is the
    one of the response; a value parsed from the body is a fresh one, and
    the other values cannot be changed. *)
Definition mutateInPlace (update : jsval -> jsval) (r : ResponseContextImpl)
  : ResponseContextImpl :=
  match ctx_json r, update (ctx_json r) with
  | JObj _, JObj fields =>
      {| ctx_view := ctx_view r; ctx_json := JObj fields;
         ctx_jsonParsed := ctx_jsonParsed r |}
  | JArr _, JArr items =>
      {| ctx_view := ctx_view r; ctx_json := JArr items;
         ctx_jsonParsed := ctx_jsonParsed r |}
  | _, _ => r
  end.

(** ** ScriptSandbox *)

Record SandboxOptions := {
  timeoutOption : option Z;
  envOption : option (list (string * option string))
}.

Record ScriptSandbox := {
  timeout : Z;
  env : EnvRef;
  context : RadiusContextImpl
}.

Definition constructor (opts : SandboxOptions) : ScriptSandbox :=
  let e := match envOption opts with
           | Some m => SuppliedEnv m
           | None => ProcessEnv
           end in
  {| timeout := match timeoutOption opts with Some t => t | None => 5000%Z end;
     env := e;
     context := newContext (Some e) |}.

Definition resetContext (s : ScriptSandbox) : ScriptSandbox :=
  {| timeout := timeout s; env := env s; context := newContext (Some (env s)) |}.

Definition withContext (s : ScriptSandbox) (c : RadiusContextImpl) : ScriptSandbox :=
  {| timeout := timeout s; env := env s; context := c |}.

Record ScriptResult := {
  success : bool;
  error : option string;
  result_logs : list string;
  result_variables : list (string * jsval);
  result_assertions : list ExpectResult
}.

(** The object that [executeScript] hands to [vm.createContext]. *)
Definition sandboxObject (hasResponse : bool) : list (string * binding) :=
  [ ("radius", BoundRadius); ("console", BoundConsole) ]
  ++ map (fun n => (n, BoundIntrinsic n))
       [ "JSON"; "Math"; "Date"; "Array"; "Object"; "String"; "Number";
         "Boolean"; "RegExp"; "Error"; "TypeError"; "RangeError"; "parseInt";
         "parseFloat"; "isNaN"; "isFinite"; "encodeURI"; "decodeURI";
         "encodeURIComponent"; "decodeURIComponent" ]
  ++ [ ("undefined", BoundUndefined); ("NaN", BoundIntrinsic "NaN");
       ("Infinity", BoundIntrinsic "Infinity") ]
  ++ map (fun n => (n, BoundUndefined))
       [ "process"; "require"; "module"; "exports"; "__dirname"; "__filename";
         "global"; "globalThis"; "fetch"; "XMLHttpRequest"; "WebSocket";
         "Buffer"; "setTimeout"; "setInterval"; "setImmediate"; "clearTimeout";
         "clearInterval"; "clearImmediate" ]
  ++ (if hasResponse then [ ("response", BoundResponse) ] else []).

(** The state one execution works on. *)
Record Execution := {
  exec_context : RadiusContextImpl;
  exec_consoleLogs : list string;
  exec_response : option ResponseContextImpl;
  exec_host : Host.t
}.

Definition consoleLine (g : Given) (args : list jsval) : string :=
  join " " (map (fun a => if isObjectType a then JSON_stringify g a
                          else String_ a) args).

Definition consoleArgs (m : consoleMethod) (args : list jsval) : list jsval :=
  match m with
  | console_log | console_info => args
  | console_warn => JStr "[WARN]" :: args
  | console_error => JStr "[ERROR]" :: args
  | console_debug => JStr "[DEBUG]" :: args
  end.

(** [vmScript.runInContext(context, { timeout })]: [None] when the script
    completes, the thrown value otherwise.  The error of a run that is
    stopped on the timeout is made in the vm context, as are the errors that
    the engine raises in a script: they are no instances of the [Error] of
    the host, which is what [executeScript] tests for. *)
Fixpoint runInContext (g : Given) (timeout : Z) (s : script) (e : Execution)
  : option thrown * Execution :=
  let continue k c := 
    runInContext g timeout k
      {| exec_context := c; exec_consoleLogs := exec_consoleLogs e;
         exec_response := exec_response e; exec_host := exec_host e |} in
  match s with
  | Completes => (None, e)
  | Throws t => (Some t, e)
  | TimesOut => (Some OtherValue, e)
  | Identifier identifier k =>
      runInContext g timeout
        (k (Map_get (sandboxObject (match exec_response e with
                                    | Some _ => true | None => false end))
                    identifier)) e
  | GetVariable name k =>
      runInContext g timeout (k (getVariable (exec_context e) name)) e
  | SetVariable name v k => continue k (setVariable (exec_context e) name v)
  | GetEnv name k =>
      runInContext g timeout (k (getEnv (exec_context e) (exec_host e) name)) e
  | Uuid k =>
      let (u, h) := Resolver.generateUuid (exec_host e) in
      runInContext g timeout (k u)
        {| exec_context := exec_context e; exec_consoleLogs := exec_consoleLogs e;
           exec_response := exec_response e; exec_host := h |}
  | Timestamp k =>
      let (t, h) := Host.Date_now (exec_host e) in
      runInContext g timeout (k t)
        {| exec_context := exec_context e; exec_consoleLogs := exec_consoleLogs e;
           exec_response := exec_response e; exec_host := h |}
  | Log args k => continue k (log g (exec_context e) args)
  | Expect actual m args k =>
      let (result, c) := expect g (exec_context e) actual m args in
      continue (k result) c
  | Console m args k =>
      runInContext g timeout k
        {| exec_context := exec_context e;
           exec_consoleLogs := exec_consoleLogs e ++ [consoleLine g (consoleArgs m args)];
           exec_response := exec_response e; exec_host := exec_host e |}
  | ReadResponse k =>
      runInContext g timeout
        (k (match exec_response e with
            | Some r => Some (ctx_view r)
            | None => None
            end)) e
  | ResponseJson k =>
      match exec_response e with
      | Some r =>
          let (answer, r') := json g r in
          runInContext g timeout (k (Some answer))
            {| exec_context := exec_context e; exec_consoleLogs := exec_consoleLogs e;
               exec_response := Some r'; exec_host := exec_host e |}
      | None => runInContext g timeout (k None) e
      end
  | MutateJson update k =>
      runInContext g timeout k
        {| exec_context := exec_context e; exec_consoleLogs := exec_consoleLogs e;
           exec_response := match exec_response e with
                            | Some r => Some (mutateInPlace update r)
                            | None => None
                            end;
           exec_host := exec_host e |}
  | MutateOutcome index update k =>
      continue k (rewriteOutcome (exec_context e) index update)
  end.

(** [new ResponseContextImpl(response)] *)
Definition newResponseContext (response : RadiusResponse) : ResponseContextImpl :=
  {| ctx_view := {| view_status := status response;
                    view_statusText := statusText response;
                    view_headers := headers response;
                    view_body := body response |};
     ctx_json := Types.json response;
     ctx_jsonParsed := false |}.

Definition errorMessage (t : thrown) : string :=
  match t with
  | ErrorObject message => message
  | OtherValue => "Unknown error"
  end.

(** What an execution starts from: the context of the sandbox, no console
    output yet, and the view of the response for a post-script. *)
Definition startExecution (s : ScriptSandbox) (response : option RadiusResponse)
           (h : Host.t) : Execution :=
  {| exec_context := context s;
     exec_consoleLogs := [];
     exec_response := match response with
                      | Some r => Some (newResponseContext r)
                      | None => None
                      end;
     exec_host := h |}.

(** [executeScript] *)
Definition executeScript (g : Given) (s : ScriptSandbox) (code : string)
           (response : option RadiusResponse) (h : Host.t)
  : ScriptResult * ScriptSandbox * Host.t :=
  let start := startExecution s response h in
  let (outcome, e) := runInContext g (timeout s) (evaluate g code) start in
  let c := exec_context e in
  ({| success := match outcome with None => true | Some _ => false end;
      error := match outcome with
               | None => None
               | Some t => Some (errorMessage t)
               end;
      result_logs := exec_consoleLogs e ++ logs c;
      result_variables := getVariables c;
      result_assertions := assertions c |},
   withContext s c,
   exec_host e).

Definition runPre (g : Given) (s : ScriptSandbox) (code : string) (h : Host.t)
  : ScriptResult * ScriptSandbox * Host.t :=
  executeScript g s code None h.

Definition runPost (g : Given) (s : ScriptSandbox) (code : string)
           (response : RadiusResponse) (h : Host.t)
  : ScriptResult * ScriptSandbox * Host.t :=
  executeScript g s code (Some response) h.

(** The response is an object that [runPost] shares with the script: what
    its [json] holds once the script has run. *)
Definition jsonAfter (g : Given) (s : ScriptSandbox) (code : string)
           (response : RadiusResponse) (h : Host.t) : jsval :=
  match exec_response (snd (runInContext g (timeout s) (evaluate g code)
                                         (startExecution s (Some response) h))) with
  | Some r => ctx_json r
  | None => Types.json response
  end.

Definition setSandboxVariables (s : ScriptSandbox) (vars : list (string * jsval))
  : ScriptSandbox :=
  withContext s (setVariables (context s) vars).

End Sandbox.

(* ================================================================== *)
(** * RequestRunner *)
(* ================================================================== *)

Module Runner.

Import JsString JsValue Types.
Local Open Scope comp_scope.

(** [RunnerOptions], as far as the pipeline reads them. *)
Record RunnerOptions := {
  envPath : option string;
  scriptTimeout : option Z;
  variableSources : option (list Resolver.IVariableSource)
}.

(** What the runner takes as given besides the givens of the sandbox: the
    variables a [DotEnvSource] finds for a path, and [HttpClient.execute],
    which answers a resolved request after the requests sent before it.
    [dotEnv] is the lookup in files that are read or are not there, which
    module [DotEnv] tells from the files; a file that is there and cannot be
    read makes the source throw, and the resolution that asks it fail with
    the error of the read: that case is not in [dotEnv]. *)
Record Collaborators := {
  given : Sandbox.Given;
  dotEnv : option string -> string -> option string;
  transport : list jsval -> jsval -> RadiusResponse
}.

(** The runner with what it owns and shares: the host, the session that
    [setSession] attached, the sandbox, the requests handed to the transport
    so far and the lines written by [console.warn]. *)
Record Runner := {
  host : Host.t;
  runnerOptions : RunnerOptions;
  session : option Session.SessionManager;
  sandbox : Sandbox.ScriptSandbox;
  sent : list jsval;
  warnings : list string
}.

Definition DotEnvSource (c : Collaborators) (path : option string) (priority : Z)
  : Resolver.IVariableSource :=
  {| Resolver.name := "DotEnv"; Resolver.priority := priority;
     Resolver.get := dotEnv c path |}.

(** [SystemEnvSource] reads [process.env] as it is at the lookup: [get] is
    the variable of that name.  [process.env[key]] is a read of a property;
    for a key that names no variable and a member of [Object.prototype]
    ([JsValue.inherited]) it gives that member, which is no string and
    which the resolver hands on to [String.prototype.replace] as it is.
    Such a key is outside what [get] tells. *)
Definition SystemEnvSource (h : Host.t) (priority : Z) : Resolver.IVariableSource :=
  {| Resolver.name := "SystemEnv"; Resolver.priority := priority;
     Resolver.get := Map_get (Host.process_env h) |}.

Definition buildVariableSources (c : Collaborators) (h : Host.t) (options : RunnerOptions)
  : list Resolver.IVariableSource :=
  (match variableSources options with Some l => l | None => [] end)
  ++ [ DotEnvSource c (envPath options) 200%Z ]
  ++ [ SystemEnvSource h 100%Z ].

(** [this.resolver].  The constructor and [setSession] build it over sources
    that read the session and [process.env] where they are; the embedding
    builds it from their current state when a resolution starts.  Priorities
    never change, so the order of the sources is the same. *)
Definition resolver (c : Collaborators) (r : Runner) : Resolver.VariableResolver :=
  let sources := buildVariableSources c (host r) (runnerOptions r) in
  Resolver.constructor
    (match session r with
     | Some s => Session.getVariableSource s :: sources
     | None => sources
     end)
    {| Resolver.strict := Some false; Resolver.maxDepth := None |}.

(** [new RequestRunner(options)] *)
Definition constructor (h : Host.t) (options : RunnerOptions) : Runner :=
  {| host := h;
     runnerOptions := options;
     session := None;
     sandbox := Sandbox.constructor {| Sandbox.timeoutOption := scriptTimeout options;
                                       Sandbox.envOption := None |};
     sent := [];
     warnings := [] |}.

Definition setSession (r : Runner) (s : Session.SessionManager) : Runner :=
  {| host := host r; runnerOptions := runnerOptions r; session := Some s;
     sandbox := sandbox r; sent := sent r; warnings := warnings r |}.

(** [createErrorResponse] *)
Definition createErrorResponse (message : string) (method url : jsval) : RadiusResponse :=
  {| status := 0%Z;
     statusText := "Error";
     headers := [];
     body := message;
     json := JNull;
     timing := {| total := 0%Z; dns := None; connect := None; tls := None;
                  ttfb := None; download := None |};
     request := {| info_method := method; info_url := url; info_headers := [] |};
     _scriptLogs := None;
     _assertions := None |}.

(** [resolved.scripts?.pre], [resolved.scripts?.post] *)
Definition scriptOf (resolved : jsval) (which : string) : jsval :=
  match getProp resolved "scripts" with
  | JUndefined | JNull => JUndefined
  | scripts => getProp scripts which
  end.

(** A template literal [`${text}`] of an optional string *)
Definition interpolate (text : option string) : string :=
  match text with Some s => s | None => "undefined" end.

(** ** The steps of [execute] as computations on the runner *)

Definition update (f : Runner -> Runner) : M Runner unit :=
  fun r => (Ok tt, f r).

(** [this.sandbox.resetContext()] *)
Definition resetContext : M Runner unit :=
  update (fun r =>
    {| host := host r; runnerOptions := runnerOptions r; session := session r;
       sandbox := Sandbox.resetContext (sandbox r);
       sent := sent r; warnings := warnings r |}).

(** [if (this.session) this.sandbox.setVariables(this.session.getAll())] *)
Definition seedSandbox : M Runner unit :=
  update (fun r =>
    match session r with
    | Some s =>
        {| host := host r; runnerOptions := runnerOptions r; session := session r;
           sandbox := Sandbox.setSandboxVariables (sandbox r) (Session.getAll s);
           sent := sent r; warnings := warnings r |}
    | None => r
    end).

(** [this.resolver.resolveObject(request)] *)
Definition resolveRequest (c : Collaborators) (request : jsval) : M Runner jsval :=
  fun r =>
    let (outcome, h) :=
      Resolver.resolveObject (Sandbox.toISOString (given c)) (resolver c r)
                             request (host r) in
    (outcome,
     {| host := h; runnerOptions := runnerOptions r; session := session r;
        sandbox := sandbox r; sent := sent r; warnings := warnings r |}).

(** [this.sandbox.runPre(code)] and [this.sandbox.runPost(code, response)] *)
Definition runScript (c : Collaborators) (code : string)
           (response : option RadiusResponse) : M Runner Sandbox.ScriptResult :=
  fun r =>
    let '(result, sandbox', h) :=
      Sandbox.executeScript (given c) (sandbox r) code response (host r) in
    (Ok result,
     {| host := h; runnerOptions := runnerOptions r; session := session r;
        sandbox := sandbox'; sent := sent r; warnings := warnings r |}).

(** [this.sandbox.runPost(code, response)] hands the response object to
    the script: the result, and the response as the run leaves it. *)
Definition runPostOn (c : Collaborators) (code : string) (response : RadiusResponse)
  : M Runner (Sandbox.ScriptResult * RadiusResponse) :=
  fun r =>
    let '(result, sandbox', h) :=
      Sandbox.runPost (given c) (sandbox r) code response (host r) in
    (Ok (result,
         setJson response
                 (Sandbox.jsonAfter (given c) (sandbox r) code response (host r))),
     {| host := h; runnerOptions := runnerOptions r; session := session r;
        sandbox := sandbox'; sent := sent r; warnings := warnings r |}).

(** [if (this.session && Object.keys(variables).length > 0)
       this.session.merge(variables)] *)
Definition persist (vars : list (string * jsval)) : M Runner unit :=
  update (fun r =>
    match session r with
    | Some s =>
        if (0 <? List.length vars)%nat then
          {| host := host r; runnerOptions := runnerOptions r;
             session := Some (Session.merge s vars);
             sandbox := sandbox r; sent := sent r; warnings := warnings r |}
        else r
    | None => r
    end).

(** [this.client.execute(resolved)] *)
Definition send (c : Collaborators) (resolved : jsval) : M Runner RadiusResponse :=
  fun r =>
    (Ok (transport c (sent r) resolved),
     {| host := host r; runnerOptions := runnerOptions r; session := session r;
        sandbox := sandbox r; sent := sent r ++ [resolved]; warnings := warnings r |}).

(** [console.warn(line)] *)
Definition warn (line : string) : M Runner unit :=
  update (fun r =>
    {| host := host r; runnerOptions := runnerOptions r; session := session r;
       sandbox := sandbox r; sent := sent r; warnings := warnings r ++ [line] |}).

(** The start of [execute]: a fresh context seeded with the session, and
    step 1, the resolution of all variables in the request. *)
Definition begin (c : Collaborators) (request : jsval) : M Runner jsval :=
  resetContext ;;;
  seedSandbox ;;;
  resolveRequest c request.

(** Step 2 of [execute], the pre-request script if present: the error
    response that [execute] returns when the script fails. *)
Definition runPreScript (c : Collaborators) (resolved : jsval)
  : M Runner (option RadiusResponse) :=
  let pre := scriptOf resolved "pre" in
  if truthy pre then
    preResult <- runScript c (String_ pre) None ;;
    if negb (Sandbox.success preResult) then
      ret (Some (createErrorResponse
                   ("Pre-script error: " ++ interpolate (Sandbox.error preResult))
                   (getProp (getProp resolved "request") "method")
                   (getProp (getProp resolved "request") "url")))
    else
      persist (Sandbox.result_variables preResult) ;;;
      ret None
  else ret None.

(** Step 4 of [execute], the post-response script if present. *)
Definition runPostScript (c : Collaborators) (resolved : jsval)
           (response : RadiusResponse) : M Runner RadiusResponse :=
  let post := scriptOf resolved "post" in
  if truthy post then
    ran <- runPostOn c (String_ post) response ;;
    let postResult := fst ran in
    let response := snd ran in
    (if negb (Sandbox.success postResult)
     then warn ("Post-script error: " ++ interpolate (Sandbox.error postResult))
     else ret tt) ;;;
    persist (Sandbox.result_variables postResult) ;;;
    let response1 :=
      if (0 <? List.length (Sandbox.result_logs postResult))%nat
      then setScriptLogs response (Sandbox.result_logs postResult)
      else response in
    let response2 :=
      if (0 <? List.length (Sandbox.result_assertions postResult))%nat
      then setAssertions response1 (Sandbox.result_assertions postResult)
      else response1 in
    ret response2
  else ret response.

(** [execute].  The request is the object the parser produced, so
    [resolved.request] is an object and a script that is present is a
    string. *)
Definition execute (c : Collaborators) (request : jsval) : M Runner RadiusResponse :=
  resolved <- begin c request ;;
  failure <- runPreScript c resolved ;;
  match failure with
  | Some errorResponse => ret errorResponse
  | None =>
      (* 3. execute the HTTP request *)
      response <- send c resolved ;;
      runPostScript c resolved response
  end.

(** [executeWithVariables] *)
Definition executeWithVariables (c : Collaborators) (request : jsval)
           (variables : list (string * jsval)) : M Runner RadiusResponse :=
  update (fun r =>
    {| host := host r; runnerOptions := runnerOptions r; session := session r;
       sandbox := Sandbox.setSandboxVariables (sandbox r) variables;
       sent := sent r; warnings := warnings r |}) ;;;
  execute c request.

(** A run over the requests of a directory, in order: the responses, with
    the message of the failure for a request whose execution throws. *)
Fixpoint executeAll (c : Collaborators) (requests : list jsval) (r : Runner)
  : list (result RadiusResponse) * Runner :=
  match requests with
  | [] => ([], r)
  | request :: rest =>
      let (outcome, r1) := execute c request r in
      let (outcomes, r2) := executeAll c rest r1 in
      (outcome :: outcomes, r2)
  end.

End Runner.

(* ================================================================== *)
(** * Notions of the specification *)
(* ================================================================== *)

Module Notions.

Import JsString JsValue Resolver.
Local Open Scope Z_scope.

(** Sorted by descending priority. *)
Definition descending : list IVariableSource -> Prop :=
  StronglySorted (fun a b => priority b <= priority a).

(** The first source of the list that defines the key. *)
Fixpoint firstSource (l : list IVariableSource) (key : string)
  : option IVariableSource :=
  match l with
  | s :: l' => match get s key with Some _ => Some s | None => firstSource l' key end
  | [] => None
  end.

(** The source that the specification lets win: of the sources defining the
    key, one of the highest priority, and among those the earliest. *)
Definition challenge (key : string) (a : IVariableSource)
           (o : option IVariableSource) : option IVariableSource :=
  match get a key, o with
  | Some _, Some b => if priority a <? priority b then Some b else Some a
  | Some _, None => Some a
  | None, _ => o
  end.

Definition best (l : list IVariableSource) (key : string) : option IVariableSource :=
  fold_right (challenge key) None l.

(** The winner named by its position: no defining source before it reaches
    its priority, no defining source after it exceeds it. *)
Definition wins (key : string) (before : list IVariableSource)
           (winner : IVariableSource) (after : list IVariableSource) : Prop :=
  get winner key <> None /\
  (forall s, In s before -> get s key <> None -> priority s < priority winner) /\
  (forall s, In s after -> get s key <> None -> priority s <= priority winner).

(** The names of the generator table of [resolveBuiltin]. *)
Definition builtinNames : list string :=
  ["uuid"; "timestamp"; "isodate"; "randomint"].

(** A variable name that a generator of the table answers. *)
Definition isBuiltin (varName : string) : bool :=
  match matchBuiltin varName with
  | Some b => existsb (String.eqb (toLowerCase b)) builtinNames
  | None => false
  end.

(** The text between the braces of a placeholder, without a brace of its
    own. *)
Definition simple (inner : string) : bool :=
  negb (inner =? "")%string && negb (hasChar "{" inner) && negb (hasChar "}" inner).

(** A placeholder that is looked up in the sources. *)
Definition sourced (inner : string) : bool :=
  simple inner && negb (isBuiltin (trim inner)).

(** [inner] is a placeholder whose variable has the value [v]. *)
Definition valueOf (r : VariableResolver) (inner v : string) : Prop :=
  sourced inner = true /\ lookup r (trim inner) = Some v.

(** A chain of indirections: the variable of each placeholder has the next
    placeholder as its value, and the variable of the last one has the
    literal. *)
Fixpoint chain (r : VariableResolver) (inners : list string) (literal : string) : Prop :=
  match inners with
  | [] => False
  | [last] => valueOf r last literal
  | inner :: (next :: _) as rest =>
      valueOf r inner (fullMatchOf next) /\ chain r rest literal
  end.

(** A set of placeholders that refer to one another without end: the value
    of each is a placeholder of the set. *)
Definition circular (r : VariableResolver) (C : string -> Prop) : Prop :=
  forall inner, C inner -> exists next, C next /\ valueOf r inner (fullMatchOf next).

(** The failure of the depth check, told from the failure of strict mode by
    its message. *)
Definition isDepthFailure (message : string) : bool :=
  startsWith message "Variable resolution exceeded max depth".

Definition isUnresolvedFailure (message : string) : bool :=
  startsWith message "Unresolved variables: ".

(** What a chain resolves to: the literal, expanded by [GetSubstitution] once
    for every placeholder of the chain it is substituted for. *)
Definition chainValue (inners : list string) (literal : string) : string :=
  fold_right (fun inner v => GetSubstitution (fullMatchOf inner) "" "" v)
             literal inners.

(** ** Templates as sequences of text and placeholders *)

Inductive segment : Type :=
| Text (w : string)
| Placeholder (inner : string).

Fixpoint render (segs : list segment) : string :=
  match segs with
  | [] => EmptyString
  | Text w :: rest => (w ++ render rest)%string
  | Placeholder inner :: rest => (fullMatchOf inner ++ render rest)%string
  end.

(** Text in which no placeholder starts: an opening brace is followed by a
    code unit of the text that is not an opening brace. *)
Fixpoint textOk (w : string) : bool :=
  match w with
  | String c r =>
      (if Ascii.eqb c "{"
       then match r with
            | String d _ => negb (Ascii.eqb d "{")
            | EmptyString => false
            end
       else true) && textOk r
  | EmptyString => true
  end.

(** A value that is spliced in as it is: no opening brace, no dollar sign. *)
Definition plainValue (v : string) : bool :=
  negb (hasChar "{" v) && negb (hasChar "$" v).

Definition wellFormed (segs : list segment) : bool :=
  forallb (fun s => match s with
                    | Text w => textOk w
                    | Placeholder inner => simple inner
                    end) segs.

(** The captures of the placeholders, in order. *)
Fixpoint inners (segs : list segment) : list string :=
  match segs with
  | [] => []
  | Text _ :: rest => inners rest
  | Placeholder inner :: rest => inner :: inners rest
  end.

(** The generator of a variable name, if it has one. *)
Definition generate (iso : Z -> string) (varName : string) (h : Host.t)
  : option string * Host.t :=
  match matchBuiltin varName with
  | Some b => resolveBuiltin iso b h
  | None => (None, h)
  end.

(** A template read from left to right as the specification describes it:
    text stays; a placeholder becomes the text its generator makes, or the
    text the first source of the resolver that defines its name answers; it
    stays the placeholder it is when neither exists. *)
Fixpoint expand (iso : Z -> string) (r : VariableResolver) (segs : list segment)
         (h : Host.t) : list segment * Host.t :=
  match segs with
  | [] => ([], h)
  | Text w :: rest =>
      let (segs', h') := expand iso r rest h in (Text w :: segs', h')
  | Placeholder inner :: rest =>
      match generate iso (trim inner) h with
      | (Some g, h1) =>
          let (segs', h') := expand iso r rest h1 in (Text g :: segs', h')
      | (None, h1) =>
          match lookup r (trim inner) with
          | Some x =>
              let (segs', h') := expand iso r rest h1 in (Text x :: segs', h')
          | None =>
              let (segs', h') := expand iso r rest h1 in
              (Placeholder inner :: segs', h')
          end
      end
  end.

(** The names of the placeholders of a template. *)
Definition names (segs : list segment) : list string := map trim (inners segs).

(** Every value that a source gives for a placeholder of the template which
    is looked up in the sources is plain. *)
Definition plainlySourced (r : VariableResolver) (segs : list segment) : bool :=
  forallb (fun inner => isBuiltin (trim inner)
                        || match lookup r (trim inner) with
                           | Some x => plainValue x
                           | None => true
                           end) (inners segs).

(** The text the loop has produced so far: text without placeholder start,
    and placeholders left in place because nothing resolves them. *)
Inductive produced (r : VariableResolver) : string -> Prop :=
| produced_nil : produced r EmptyString
| produced_text (w o : string) :
    textOk w = true -> produced r o -> produced r (w ++ o)
| produced_unresolved (inner o : string) :
    simple inner = true -> isBuiltin (trim inner) = false ->
    lookup r (trim inner) = None ->
    produced r o -> produced r (fullMatchOf inner ++ o).

(** ** Numerals *)

(** The code units of a numeral in base ten or sixteen: digits, the letters
    [a] to [f] and the sign. *)
Definition numeral (c : ascii) : bool :=
  let n := code c in
  (((48 <=? n) && (n <=? 57)) || ((97 <=? n) && (n <=? 102)) || (n =? 45))%nat.

Fixpoint allNumeral (s : string) : bool :=
  match s with
  | String c r => numeral c && allNumeral r
  | EmptyString => true
  end.

Definition hexDigit (c : ascii) : bool :=
  let n := code c in
  (((48 <=? n) && (n <=? 57)) || ((97 <=? n) && (n <=? 102)))%nat.

(** The classes of the canonical pattern of a version 4 identifier,
    [[0-9a-f]{8}-[0-9a-f]{4}-4[0-9a-f]{3}-[89ab][0-9a-f]{3}-[0-9a-f]{12}]. *)
Inductive uuidClass : Type := Hex | Dash | Four | Variant.

Definition inClass (k : uuidClass) (c : ascii) : bool :=
  match k with
  | Hex => hexDigit c
  | Dash => Ascii.eqb c "-"
  | Four => Ascii.eqb c "4"
  | Variant => Ascii.eqb c "8" || Ascii.eqb c "9" || Ascii.eqb c "a" || Ascii.eqb c "b"
  end.

Definition uuidPattern : list uuidClass :=
  repeat Hex 8 ++ [Dash] ++ repeat Hex 4 ++ [Dash] ++ [Four] ++ repeat Hex 3
  ++ [Dash] ++ [Variant] ++ repeat Hex 3 ++ [Dash] ++ repeat Hex 12.

(** The whole string matches the classes, one code unit each. *)
Fixpoint matchesClasses (classes : list uuidClass) (s : string) : bool :=
  match classes, s with
  | [], EmptyString => true
  | k :: classes', String c r => inClass k c && matchesClasses classes' r
  | _, _ => false
  end.

Definition isUuidV4 (s : string) : bool := matchesClasses uuidPattern s.

(** The class that the replacer of [generateUuid] fills a code unit of its
    template with. *)
Definition classOfTemplate (c : ascii) : uuidClass :=
  if Ascii.eqb c "x" then Hex
  else if Ascii.eqb c "y" then Variant
  else if Ascii.eqb c "4" then Four
  else Dash.

Fixpoint classesOf (template : string) : list uuidClass :=
  match template with
  | String c r => classOfTemplate c :: classesOf r
  | EmptyString => []
  end.

(** A template of [generateUuid]: code units to replace, fours and dashes. *)
Fixpoint uuidTemplate (template : string) : bool :=
  match template with
  | String c r =>
      (Ascii.eqb c "x" || Ascii.eqb c "y" || Ascii.eqb c "4" || Ascii.eqb c "-")
      && uuidTemplate r
  | EmptyString => true
  end.

(** A placeholder that something resolves. *)
Definition resolvable (r : VariableResolver) (inner : string) : Prop :=
  isBuiltin (trim inner) = true \/ lookup r (trim inner) <> None.





End Notions.

(* ================================================================== *)
(** * Notions of the specification: scripts and the runner *)
(* ================================================================== *)

Module PipelineNotions.

Import JsString JsValue Types.

(** The results of the expectation methods that a run calls, in the order of
    the calls. *)
Fixpoint expectCalls (g : Sandbox.Given) (timeout : Z) (s : Sandbox.script)
         (e : Sandbox.Execution) : list ExpectResult :=
  let continue k c :=
    expectCalls g timeout k
      {| Sandbox.exec_context := c;
         Sandbox.exec_consoleLogs := Sandbox.exec_consoleLogs e;
         Sandbox.exec_response := Sandbox.exec_response e;
         Sandbox.exec_host := Sandbox.exec_host e |} in
  match s with
  | Sandbox.Completes | Sandbox.Throws _ | Sandbox.TimesOut => []
  | Sandbox.Identifier identifier k =>
      expectCalls g timeout
        (k (Map_get (Sandbox.sandboxObject
                       (match Sandbox.exec_response e with
                        | Some _ => true | None => false end)) identifier)) e
  | Sandbox.GetVariable name k =>
      expectCalls g timeout (k (Sandbox.getVariable (Sandbox.exec_context e) name)) e
  | Sandbox.SetVariable name v k =>
      continue k (Sandbox.setVariable (Sandbox.exec_context e) name v)
  | Sandbox.GetEnv name k =>
      expectCalls g timeout
        (k (Sandbox.getEnv (Sandbox.exec_context e) (Sandbox.exec_host e) name)) e
  | Sandbox.Uuid k =>
      let (u, h) := Resolver.generateUuid (Sandbox.exec_host e) in
      expectCalls g timeout (k u)
        {| Sandbox.exec_context := Sandbox.exec_context e;
           Sandbox.exec_consoleLogs := Sandbox.exec_consoleLogs e;
           Sandbox.exec_response := Sandbox.exec_response e;
           Sandbox.exec_host := h |}
  | Sandbox.Timestamp k =>
      let (t, h) := Host.Date_now (Sandbox.exec_host e) in
      expectCalls g timeout (k t)
        {| Sandbox.exec_context := Sandbox.exec_context e;
           Sandbox.exec_consoleLogs := Sandbox.exec_consoleLogs e;
           Sandbox.exec_response := Sandbox.exec_response e;
           Sandbox.exec_host := h |}
  | Sandbox.Log args k => continue k (Sandbox.log g (Sandbox.exec_context e) args)
  | Sandbox.Expect actual m args k =>
      let (result, c) := Sandbox.expect g (Sandbox.exec_context e) actual m args in
      result :: continue (k result) c
  | Sandbox.Console m args k =>
      expectCalls g timeout k
        {| Sandbox.exec_context := Sandbox.exec_context e;
           Sandbox.exec_consoleLogs :=
             Sandbox.exec_consoleLogs e
             ++ [Sandbox.consoleLine g (Sandbox.consoleArgs m args)];
           Sandbox.exec_response := Sandbox.exec_response e;
           Sandbox.exec_host := Sandbox.exec_host e |}
  | Sandbox.ReadResponse k =>
      expectCalls g timeout
        (k (match Sandbox.exec_response e with
            | Some r => Some (Sandbox.ctx_view r)
            | None => None
            end)) e
  | Sandbox.ResponseJson k =>
      match Sandbox.exec_response e with
      | Some r =>
          let (answer, r') := Sandbox.json g r in
          expectCalls g timeout (k (Some answer))
            {| Sandbox.exec_context := Sandbox.exec_context e;
               Sandbox.exec_consoleLogs := Sandbox.exec_consoleLogs e;
               Sandbox.exec_response := Some r';
               Sandbox.exec_host := Sandbox.exec_host e |}
      | None => expectCalls g timeout (k None) e
      end
  | Sandbox.MutateJson update k =>
      expectCalls g timeout k
        {| Sandbox.exec_context := Sandbox.exec_context e;
           Sandbox.exec_consoleLogs := Sandbox.exec_consoleLogs e;
           Sandbox.exec_response := match Sandbox.exec_response e with
                                    | Some r => Some (Sandbox.mutateInPlace update r)
                                    | None => None
                                    end;
           Sandbox.exec_host := Sandbox.exec_host e |}
  | Sandbox.MutateOutcome index update k =>
      continue k (Sandbox.rewriteOutcome (Sandbox.exec_context e) index update)
  end.



Definition scriptLogsOf (r : RadiusResponse) : list string :=
  match _scriptLogs r with Some l => l | None => [] end.


(** Two hosts that differ at most in [process.env]. *)
Definition sameButEnv (h h' : Host.t) : Prop :=
  Host.randoms h = Host.randoms h' /\ Host.random_calls h = Host.random_calls h'
  /\ Host.clock h = Host.clock h' /\ Host.clock_reads h = Host.clock_reads h'.

(** The fields of a response that its declared type has: all but the two
    that the runner attaches. *)
Definition sameResponse (a b : RadiusResponse) : Prop :=
  status a = status b /\ statusText a = statusText b /\ headers a = headers b
  /\ body a = body b /\ json a = json b /\ timing a = timing b
  /\ request a = request b.

(** The fields of a response that a script has no reference to. *)
Definition sameButJson (a b : RadiusResponse) : Prop :=
  status a = status b /\ statusText a = statusText b /\ headers a = headers b
  /\ body a = body b /\ timing a = timing b /\ request a = request b.

(** The values that are handed over by reference: objects and arrays. *)
Definition heldByReference (v : jsval) : bool :=
  match v with JObj _ | JArr _ => true | _ => false end.


(** The sandbox at the start of a request: a fresh context that holds the
    variables of the session. *)
Definition seeded (r : Runner.Runner) : Sandbox.ScriptSandbox :=
  match Runner.session r with
  | Some s =>
      Sandbox.setSandboxVariables (Sandbox.resetContext (Runner.sandbox r))
                                  (Session.getAll s)
  | None => Sandbox.resetContext (Runner.sandbox r)
  end.

(** The runner once the transport has been handed the resolved request. *)
Definition afterSend (c : Runner.Collaborators) (resolved : jsval)
           (r : Runner.Runner) : Runner.Runner :=
  snd (Runner.send c resolved r).

(** The session after the variables of a script result were persisted. *)
Definition persisted (s : option Session.SessionManager)
           (vars : list (string * jsval)) : option Session.SessionManager :=
  match s with
  | Some m => Some (if (0 <? List.length vars)%nat then Session.merge m vars else m)
  | None => None
  end.

(** The outcomes that the run of a script text records from a given start. *)
Definition outcomes (c : Runner.Collaborators) (sb : Sandbox.ScriptSandbox)
           (code : jsval) (response : option RadiusResponse) (h : Host.t)
  : list ExpectResult :=
  expectCalls (Runner.given c) (Sandbox.timeout sb)
              (Sandbox.evaluate (Runner.given c) (String_ code))
              (Sandbox.startExecution sb response h).




(** The reading of the specification for a failing post-script: the
    response that [execute] returns has the fields of the response that the
    transport gave. *)
Definition postFailureKeepsResponse : Prop :=
  forall (c : Runner.Collaborators) (request resolved : jsval)
         (r r1 r2 r' : Runner.Runner) (response : RadiusResponse),
    Runner.begin c request r = (Comp.Ok resolved, r1) ->
    Runner.runPreScript c resolved r1 = (Comp.Ok None, r2) ->
    truthy (Runner.scriptOf resolved "post") = true ->
    Sandbox.success
      (fst (fst (Sandbox.runPost (Runner.given c) (Runner.sandbox r2)
                                 (String_ (Runner.scriptOf resolved "post"))
                                 (Runner.transport c (Runner.sent r2) resolved)
                                 (Runner.host r2)))) = false ->
    Runner.execute c request r = (Comp.Ok response, r') ->
    sameResponse response (Runner.transport c (Runner.sent r2) resolved).




End PipelineNotions.

(* ================================================================== *)
(** * Sample data *)
(* ================================================================== *)

Module Samples.

Import JsValue Resolver.

(** A source over a table of values, like the mock sources of the tests. *)
Definition tableSource (n : string) (p : Z) (values : list (string * string))
  : IVariableSource :=
  {| name := n; priority := p; get := Map_get values |}.

Definition host0 : Host.t :=
  {| Host.randoms := fun i =>
       {| JsNumber.mant := (Z.of_nat i * 2718281828459045 + 314159265358979) mod 2 ^ 53;
                                 JsNumber.expo := 53 |};
     Host.random_calls := 0;
     Host.clock := fun i => (1706659200000 + Z.of_nat i)%Z;
     Host.clock_reads := 0;
     Host.process_env := [("HOME", "/home/radius")] |}.

Definition iso0 (t : Z) : string := "2024-01-31T00:00:00.000Z".

Definition low : IVariableSource := tableSource "low" 100 [("value", "from-low")].
Definition high : IVariableSource := tableSource "high" 200 [("value", "from-high")].

Definition strictOptions : ResolverOptions :=
  {| strict := Some true; maxDepth := None |}.

Definition lenientOptions : ResolverOptions :=
  {| strict := Some false; maxDepth := None |}.

(** [a -> b -> c -> literal] with a literal of two dollar signs *)
Definition dollarChain : VariableResolver :=
  constructor [tableSource "chain" 100
                 [("a", "{{b}}"); ("b", "{{c}}"); ("c", "$$")]] noOptions.

(** [a -> b -> a] *)
Definition cycle : VariableResolver :=
  constructor [tableSource "cycle" 100 [("a", "{{b}}"); ("b", "{{a}}")]] noOptions.

(** A source that defines the names of the generator table itself. *)
Definition shadow : IVariableSource :=
  tableSource "shadow" 900
    [("$uuid", "from-source"); ("$timestamp", "from-source");
     ("$randomInt", "from-source")].

(** One variable found, one missing and used twice. *)
Definition found : IVariableSource := tableSource "test" 100 [("found", "yes")].



(** ** A runner with scripts *)

(** A builder for the samples, which call [toBeTruthy] and [toBeDefined]
    on numbers and strings. *)
Definition sampleBuilder (actual : jsval) (m : Sandbox.method) (args : list jsval)
  : Types.ExpectResult :=
  match m with
  | Sandbox.toBeDefined =>
      let passed := negb (isUndefined actual) in
      {| Types.passed := passed;
         Types.message := if passed then "Value is defined"
                          else "Expected defined value, got undefined";
         Types.expected := None;
         Types.actual := Some actual |}
  | _ =>
      let passed := truthy actual in
      {| Types.passed := passed;
         Types.message := if passed then "Value is truthy"
                          else ("Expected truthy, got " ++ String_ actual)%string;
         Types.expected := None;
         Types.actual := Some actual |}
  end.

Definition readsHome : string :=
  "radius.setVariable('home', radius.getEnv('HOME'))".

Definition setsRequestId : string :=
  "radius.expect(1).toBeTruthy(); radius.setVariable('requestId', 'r-1')".

Definition checksStatus : string :=
  "radius.expect(response.status).toBeDefined()".

Definition checksThenThrows : string :=
  "radius.expect(response.status).toBeDefined(); throw new Error('boom')".

Definition throwsNoToken : string := "throw new Error('no token')".

Definition overwritesId : string :=
  "response.json().id = 2; throw new Error('boom')".

Definition rewritesResult : string :=
  "var r = radius.expect(0).toBeTruthy(); r.passed = true".

(** [r.passed = true] *)
Definition passes (r : Types.ExpectResult) : Types.ExpectResult :=
  {| Types.passed := true; Types.message := Types.message r;
     Types.expected := Types.expected r; Types.actual := Types.actual r |}.

(** The runs of the sample scripts. *)
Definition sampleEvaluate (code : string) : Sandbox.script :=
  let checkStatus k :=
    Sandbox.ReadResponse (fun view =>
      match view with
      | Some v => Sandbox.Expect (JNum (Sandbox.view_status v)) Sandbox.toBeDefined [] k
      | None => Sandbox.Throws Sandbox.OtherValue
      end) in
  if (code =? readsHome)%string then
    Sandbox.GetEnv "HOME" (fun v =>
      Sandbox.SetVariable "home"
        (match v with Own text => JStr text | _ => JUndefined end)
        Sandbox.Completes)
  else if (code =? setsRequestId)%string then
    Sandbox.Expect (JNum 1) Sandbox.toBeTruthy [] (fun _ =>
      Sandbox.SetVariable "requestId" (JStr "r-1") Sandbox.Completes)
  else if (code =? checksStatus)%string then
    checkStatus (fun _ => Sandbox.Completes)
  else if (code =? checksThenThrows)%string then
    checkStatus (fun _ => Sandbox.Throws (Sandbox.ErrorObject "boom"))
  else if (code =? throwsNoToken)%string then
    Sandbox.Throws (Sandbox.ErrorObject "no token")
  else if (code =? overwritesId)%string then
    Sandbox.ResponseJson (fun _ =>
      Sandbox.MutateJson
        (fun v => match v with
                  | JObj fields => JObj (Map_set fields "id" (JNum 2))
                  | _ => v
                  end)
        (Sandbox.Throws (Sandbox.ErrorObject "boom")))
  else if (code =? rewritesResult)%string then
    Sandbox.Expect (JNum 0) Sandbox.toBeTruthy [] (fun _ =>
      Sandbox.MutateOutcome 0 passes Sandbox.Completes)
  else Sandbox.Completes.

Definition given0 : Sandbox.Given :=
  {| Sandbox.toISOString := iso0;
     Sandbox.JSON_stringify := String_;
     Sandbox.JSON_parse := fun _ => None;
     Sandbox.evaluate := sampleEvaluate;
     Sandbox.ExpectBuilderImpl := sampleBuilder |}.

(** A transport that answers 200 and echoes the URL it was asked for. *)
Definition echo (sent : list jsval) (resolved : jsval) : Types.RadiusResponse :=
  {| Types.status := 200;
     Types.statusText := "OK";
     Types.headers := [("content-type", "text/plain")];
     Types.body := String_ (getProp (getProp resolved "request") "url");
     Types.json := JNull;
     Types.timing := {| Types.total := 150; Types.dns := None; Types.connect := None;
                        Types.tls := None; Types.ttfb := Some 100%Z;
                        Types.download := Some 50%Z |};
     Types.request := {| Types.info_method := getProp (getProp resolved "request") "method";
                         Types.info_url := getProp (getProp resolved "request") "url";
                         Types.info_headers := [] |};
     Types._scriptLogs := None;
     Types._assertions := None |}.

Definition collaborators0 : Runner.Collaborators :=
  {| Runner.given := given0;
     Runner.dotEnv := fun _ _ => None;
     Runner.transport := echo |}.

Definition quote : string := String (ascii_of_nat 34) EmptyString.

(** A transport that answers with a JSON object. *)
Definition answersJson (sent : list jsval) (resolved : jsval) : Types.RadiusResponse :=
  {| Types.status := 200;
     Types.statusText := "OK";
     Types.headers := [("content-type", "application/json")];
     Types.body := ("{" ++ quote ++ "id" ++ quote ++ ":1}")%string;
     Types.json := JObj [("id", JNum 1)];
     Types.timing := {| Types.total := 150; Types.dns := None; Types.connect := None;
                        Types.tls := None; Types.ttfb := Some 100%Z;
                        Types.download := Some 50%Z |};
     Types.request := {| Types.info_method := getProp (getProp resolved "request") "method";
                         Types.info_url := getProp (getProp resolved "request") "url";
                         Types.info_headers := [] |};
     Types._scriptLogs := None;
     Types._assertions := None |}.

Definition collaborators1 : Runner.Collaborators :=
  {| Runner.given := given0;
     Runner.dotEnv := fun _ _ => None;
     Runner.transport := answersJson |}.

Definition requestOf (url : string) (scripts : list (string * jsval)) : jsval :=
  JObj [ ("meta", JObj [("name", JStr "sample"); ("type", JStr "REST");
                        ("version", JNum 1)]);
         ("request", JObj [("method", JStr "GET"); ("url", JStr url)]);
         ("scripts", JObj scripts) ].

Definition noRunnerOptions : Runner.RunnerOptions :=
  {| Runner.envPath := None; Runner.scriptTimeout := None;
     Runner.variableSources := None |}.

Definition emptySession : Session.SessionManager :=
  Session.constructor {| Session.initialVariables := None;
                         Session.priorityOption := None |}.

(** A host whose clock stands still and whose random numbers are all the
    same. *)
Definition stillHost : Host.t :=
  {| Host.randoms := fun _ => {| JsNumber.mant := 314159265358979; JsNumber.expo := 53 |};
     Host.random_calls := 0;
     Host.clock := fun _ => 1706659200000%Z;
     Host.clock_reads := 0;
     Host.process_env := [("HOME", "/home/radius")] |}.

(** A runner as the command line builds it, with a session attached. *)
Definition runner0 : Runner.Runner :=
  Runner.setSession (Runner.constructor stillHost noRunnerOptions) emptySession.




(** A request whose two scripts each record an outcome. *)
Definition bothScripts : jsval :=
  requestOf "https://api.example.com/{{requestId}}"
            [("pre", JStr setsRequestId); ("post", JStr checksStatus)].

Definition failingPre : jsval :=
  requestOf "https://api.example.com/users" [("pre", JStr throwsNoToken)].

Definition failingPost : jsval :=
  requestOf "https://api.example.com/users" [("post", JStr checksThenThrows)].

Definition mutatingPost : jsval :=
  requestOf "https://api.example.com/users" [("post", JStr overwritesId)].

Definition preOnly : jsval :=
  requestOf "https://api.example.com/{{requestId}}" [("pre", JStr setsRequestId)].

(** The runner after the steps of a sample request, and the response. *)
Definition begun (c : Runner.Collaborators) (request : jsval) : Runner.Runner :=
  snd (Runner.begin c request runner0).

Definition prepared (c : Runner.Collaborators) (request : jsval) : Runner.Runner :=
  snd (Runner.runPreScript c request (begun c request)).

Definition finished (c : Runner.Collaborators) (request : jsval) : Runner.Runner :=
  snd (Runner.execute c request runner0).

Definition answered (c : Runner.Collaborators) (request : jsval)
  : Types.RadiusResponse :=
  match fst (Runner.execute c request runner0) with
  | Ok response => response
  | _ => Runner.transport c [] request
  end.

(** The bodies of the responses of a run, which for the sample transport
    are the URLs it was asked for. *)
Definition bodies (outcomes : list (result Types.RadiusResponse)) : list string :=
  map (fun o => match o with Ok response => Types.body response | _ => EmptyString end)
      outcomes.



End Samples.

(* ================================================================== *)
(** * SessionManager: the operations besides the variable source *)
(* ================================================================== *)

Module SessionOps.

Import JsValue Session.

(** [m.delete(k)].  A list that stands for a [Map] has each key once; the
    key is removed wherever it stands. *)
Fixpoint Map_delete {V : Type} (m : Map V) (k : string) : Map V :=
  match m with
  | (k', v) :: m' =>
      if (k' =? k)%string then Map_delete m' k else (k', v) :: Map_delete m' k
  | [] => []
  end.

(** [delete]: whether the key was there, and the session without it. *)
Definition delete (s : SessionManager) (key : string) : bool * SessionManager :=
  (has s key,
   {| variables := Map_delete (variables s) key; priority := priority s |}).

Definition clear (s : SessionManager) : SessionManager :=
  {| variables := []; priority := priority s |}.

(** [size]: the number of entries of the map. *)
Definition size (s : SessionManager) : nat := List.length (variables s).

(** The calls that change a session; [loadFromFile] is [merge] of what
    [JSON.parse] made of the file. *)
Inductive call : Type :=
| CallSet (key : string) (value : jsval)
| CallDelete (key : string)
| CallMerge (variables : list (string * jsval))
| CallClear.

Definition perform (s : SessionManager) (c : call) : SessionManager :=
  match c with
  | CallSet key value => set s key value
  | CallDelete key => snd (delete s key)
  | CallMerge variables => merge s variables
  | CallClear => clear s
  end.

(** A session as a program has it: constructed, then changed by calls. *)
Definition built (opts : SessionManagerOptions) (calls : list call)
  : SessionManager :=
  fold_left perform calls (constructor opts).

(** [new SessionManager({ initialVariables: s.getAll(), priority })]: the
    session exported and read back. *)
Definition reimport (s : SessionManager) : SessionManager :=
  constructor {| initialVariables := Some (getAll s);
                 priorityOption := Some (priority s) |}.

End SessionOps.

(* ================================================================== *)
(** * What a script run writes *)
(* ================================================================== *)

Module LogNotions.

Import JsString JsValue Types.






End LogNotions.

(* ================================================================== *)
(** * The session beside the context; scripts that write lines *)
(* ================================================================== *)

Module RunnerNotions.

Import JsValue.


End RunnerNotions.

Module LogSamples.

Import JsString JsValue Samples.









(** A session with one variable. *)
Definition oneVariable : Session.SessionManagerOptions :=
  {| Session.initialVariables := Some [("user", JStr "ada")];
     Session.priorityOption := None |}.

Definition runner2 : Runner.Runner :=
  Runner.setSession (Runner.constructor stillHost noRunnerOptions)
                    (SessionOps.built oneVariable
                       [SessionOps.CallSet "page" (JNum 2)]).





End LogSamples.

(* ================================================================== *)
(** * Values as [resolveObject] sees them *)
(* ================================================================== *)

Module ObjectNotions.

Import JsValue Resolver.

(** No string of the value has a placeholder.  The keys of objects are not
    looked at: [resolveObject] resolves values only. *)
Fixpoint placeholderFree (v : jsval) : bool :=
  match v with
  | JStr s => negb (hasVariables s)
  | JArr items => forallb placeholderFree items
  | JObj fields => forallb (fun kv => placeholderFree (snd kv)) fields
  | _ => true
  end.

(** Two values differ in the text of their strings at most: the same kind
    at every place, arrays of the same length, objects with the same keys in
    the same order, the same numbers and booleans. *)
Fixpoint sameShape (v v' : jsval) : bool :=
  match v, v' with
  | JUndefined, JUndefined => true
  | JNull, JNull => true
  | JBool b, JBool b' => Bool.eqb b b'
  | JNum n, JNum n' => (n =? n')%Z
  | JStr _, JStr _ => true
  | JArr items, JArr items' =>
      (fix each (l l' : list jsval) : bool :=
         match l, l' with
         | [], [] => true
         | x :: l, x' :: l' => sameShape x x' && each l l'
         | _, _ => false
         end) items items'
  | JObj fields, JObj fields' =>
      (fix each (l l' : list (string * jsval)) : bool :=
         match l, l' with
         | [], [] => true
         | (k, x) :: l, (k', x') :: l' => (k =? k')%string && sameShape x x' && each l l'
         | _, _ => false
         end) fields fields'
  | _, _ => false
  end.

(** The value as [resolveObject] and [maskSecretsInObject] copy it when
    they change no string: every object of it is assigned, entry by entry,
    to a new object, which gets no property [__proto__]. *)
Fixpoint copied (v : jsval) : jsval :=
  match v with
  | JArr items => JArr (map copied items)
  | JObj fields =>
      JObj (assignedTo (map (fun kv => (fst kv, copied (snd kv))) fields))
  | _ => v
  end.

(** No object of the value has a property [__proto__] of its own. *)
Fixpoint protoFree (v : jsval) : bool :=
  match v with
  | JArr items => forallb protoFree items
  | JObj fields =>
      forallb (fun kv => negb (fst kv =? "__proto__")%string && protoFree (snd kv))
              fields
  | _ => true
  end.

(** A request with a placeholder in a key, which stays, and in values. *)
Definition templated : jsval :=
  JObj [ ("{{found}}", JStr "{{found}}/users");
         ("retries", JNum 3);
         ("tags", JArr [JStr "{{missing}}"; JBool true; JNull]) ].

Definition untemplated : jsval :=
  JObj [ ("{{found}}", JStr "users");
         ("retries", JNum 3);
         ("tags", JArr [JStr "a } b"; JBool true; JNull]) ].

(** What [JSON.parse] makes of a text with the key [__proto__]: an object
    with a property of that name. *)
Definition inheriting : jsval :=
  JObj [ ("url", JStr "users"); ("__proto__", JObj [("admin", JBool true)]) ].

End ObjectNotions.

(* ================================================================== *)
(** * EnvironmentManager *)
(* ================================================================== *)

Module Environment.

Import JsString JsValue.

(** ** [String.prototype.split] with a string separator *)

(** The pieces of [s] between the occurrences of a separator that is not
    empty, found from left to right; each step drops at least one code
    unit, so [fuel] above the length of [s] is enough. *)
Fixpoint splitFrom (fuel : nat) (s sep : string) : list string :=
  match fuel with
  | O => [s]
  | S fuel' =>
      match splitFirst s sep with
      | Some (before, after) => before :: splitFrom fuel' after sep
      | None => [s]
      end
  end.

(** [s.split(sep)]: with the empty separator, the code units of [s]. *)
Definition split (s sep : string) : list string :=
  match sep with
  | EmptyString => map (fun c => String c EmptyString) (list_ascii_of_string s)
  | _ => splitFrom (S (String.length s)) s sep
  end.

(** ** Profiles *)

(** A scalar of a YAML file as [yaml.load] gives it: a string, a number, a
    boolean or [null].  The variables of a profile are declared as strings;
    the file decides what they are.  Their values are scalars here: a
    sequence or a mapping as the value of a variable is outside the
    model. *)
Inductive scalar : Type :=
| YStr (s : string)
| YNum (n : Z)
| YBool (b : bool)
| YNull.

(** [Boolean(v)] *)
Definition truthyScalar (v : scalar) : bool :=
  match v with
  | YStr s => negb (s =? "")%string
  | YNum n => negb (n =? 0)%Z
  | YBool b => b
  | YNull => false
  end.

Record EnvironmentProfile := {
  profile_name : scalar;
  baseUrl : option scalar;
  variables : Map scalar;
  secrets : list string
}.

(** What [yaml.load] gives for the file of a profile; the names of the
    secrets are the property keys that the entries of the list are read
    with. *)
Record ProfileData := {
  data_name : option scalar;
  data_baseUrl : option scalar;
  data_variables : option (Map scalar);
  data_secrets : option (list string)
}.

Record EnvironmentManagerOptions := {
  projectRoot : string;
  environmentsDirOption : option string
}.

(** What the set of secret values holds: the value of a variable, or the
    member of [Object.prototype] that the read [variables[secretKey]] gives
    for a name that the variables do not have. *)
Inductive secret : Type :=
| Value (v : scalar)
| Member (member : string).

(** The equality of the members of a [Set]. *)
Definition sameSecret (a b : secret) : bool :=
  match a, b with
  | Value (YStr s), Value (YStr s') => (s =? s')%string
  | Value (YNum n), Value (YNum n') => (n =? n')%Z
  | Value (YBool b), Value (YBool b') => Bool.eqb b b'
  | Value YNull, Value YNull => true
  | Member m, Member m' => (m =? m')%string
  | _, _ => false
  end.

(** [set.add(v)]: a [Set] keeps the order of insertion and each value
    once. *)
Definition Set_add (set : list secret) (v : secret) : list secret :=
  if existsb (sameSecret v) set then set else set ++ [v].

Record EnvironmentManager := {
  root : string;
  environmentsDir : string;
  profile : option EnvironmentProfile;
  secretValues : list secret
}.

Definition constructor (options : EnvironmentManagerOptions) : EnvironmentManager :=
  {| root := projectRoot options;
     environmentsDir := match environmentsDirOption options with
                        | Some d => d
                        | None => "environments"
                        end;
     profile := None;
     secretValues := [] |}.

(** The loop of [load] that caches the values of the secrets:
    [variables[secretKey]] is a read of a property, and what it gives is
    added when it is truthy, which a function and an object are. *)
Definition cacheSecrets (p : EnvironmentProfile) : list secret :=
  fold_left (fun set secretKey =>
               match Object_get (variables p) secretKey with
               | Own value => if truthyScalar value then Set_add set (Value value)
                              else set
               | Inherited member => Set_add set (Member member)
               | Missing => set
               end)
            (secrets p) [].

(** [load(name)] once the file was read and parsed: the profile it returns
    and the manager afterwards. *)
Definition load (m : EnvironmentManager) (name : string) (data : ProfileData)
  : EnvironmentProfile * EnvironmentManager :=
  let p := {| profile_name := match data_name data with
                              | Some YNull | None => YStr name
                              | Some n => n
                              end;
              baseUrl := data_baseUrl data;
              variables := match data_variables data with Some v => v | None => [] end;
              secrets := match data_secrets data with Some l => l | None => [] end |} in
  (p, {| root := root m; environmentsDir := environmentsDir m;
         profile := Some p; secretValues := cacheSecrets p |}).

Definition getProfile (m : EnvironmentManager) : option EnvironmentProfile :=
  profile m.

(** [isSecret] *)
Definition isSecret (m : EnvironmentManager) (name : string) : bool :=
  match profile m with
  | Some p => existsb (String.eqb name) (secrets p)
  | None => false
  end.

Definition mask : string := "********".

(** The [length] of a member of [Object.prototype]: the number of
    parameters of the function.  [__proto__] is the prototype, an object
    without a [length]. *)
Definition memberLength (member : string) : option nat :=
  if (member =? "__proto__")%string then None
  else if (member =? "__defineGetter__")%string
          || (member =? "__defineSetter__")%string then Some 2%nat
  else if (member =? "toString")%string || (member =? "valueOf")%string
          || (member =? "toLocaleString")%string then Some 0%nat
  else Some 1%nat.

(** [String(f)] for a function of the engine. *)
Definition memberText (member : string) : string :=
  "function " ++ (if (member =? "constructor")%string then "Object" else member)
  ++ "() { [native code] }".

(** The text that [maskSecrets] splits on for a member of the set, if it
    passes [secret && secret.length > 0]: a string that is not empty passes
    as it is; a number or a boolean has no [length]; a function with
    parameters passes, and [split] takes its text. *)
Definition separator (x : secret) : option string :=
  match x with
  | Value (YStr s) => if (0 <? String.length s)%nat then Some s else None
  | Value _ => None
  | Member member =>
      match memberLength member with
      | Some n => if (0 <? n)%nat then Some (memberText member) else None
      | None => None
      end
  end.

(** [masked.split(secret).join('********')] *)
Definition replaceAll (masked sep : string) : string :=
  join mask (split masked sep).

(** One turn of the loop of [maskSecrets]. *)
Definition maskOne (masked : string) (x : secret) : string :=
  match separator x with
  | Some sep => replaceAll masked sep
  | None => masked
  end.

(** [maskSecrets] *)
Definition maskSecrets (m : EnvironmentManager) (text : string) : string :=
  fold_left maskOne (secretValues m) text.

(** [maskSecretsInObject]: the entries of an object are masked and assigned
    by [result[key] = ...] in turn, as [assignedTo] has it. *)
Fixpoint maskSecretsInObject (m : EnvironmentManager) (obj : jsval) : jsval :=
  match obj with
  | JNull | JUndefined => obj
  | JStr s => JStr (maskSecrets m s)
  | JArr items => JArr (map (maskSecretsInObject m) items)
  | JObj fields =>
      JObj (assignedTo
              (map (fun entry => (fst entry, maskSecretsInObject m (snd entry))) fields))
  | _ => obj
  end.

End Environment.

Module EnvironmentNotions.

Import JsString JsValue Environment.

(** Is the text free of every secret that the manager masks? *)
Definition leakFree (m : EnvironmentManager) (text : string) : bool :=
  forallb (fun x => match separator x with
                    | Some sep => negb (includes text sep)
                    | None => true
                    end) (secretValues m).

(** Is every string of the value free of the secrets? *)
Fixpoint leakFreeValue (m : EnvironmentManager) (v : jsval) : bool :=
  match v with
  | JStr s => leakFree m s
  | JArr items => forallb (leakFreeValue m) items
  | JObj fields => forallb (fun entry => leakFreeValue m (snd entry)) fields
  | _ => true
  end.

(** No secret that the manager masks has an asterisk, the character of the
    mask. *)
Definition starFree (m : EnvironmentManager) : bool :=
  forallb (fun x => match separator x with
                    | Some sep => negb (hasChar "*" sep)
                    | None => true
                    end) (secretValues m).

(** A profile with two secrets, one of them shared by two names, a secret
    that is a number, and secret names without a variable, one of which
    [Object.prototype] has. *)
Definition staging : ProfileData :=
  {| data_name := None;
     data_baseUrl := Some (YStr "https://staging.example.com");
     data_variables := Some [ ("apiKey", YStr "k-123"); ("password", YStr "hunter2");
                              ("alias", YStr "k-123"); ("region", YStr "eu");
                              ("blank", YStr ""); ("pin", YNum 1234) ];
     data_secrets := Some ["apiKey"; "password"; "alias"; "blank"; "pin"; "absent";
                           "hasOwnProperty"] |}.

Definition manager0 : EnvironmentManager :=
  snd (load (constructor {| projectRoot := "/project"; environmentsDirOption := None |})
            "staging" staging).

(** A manager whose secret is an asterisk. *)
Definition starred : EnvironmentManager :=
  snd (load (constructor {| projectRoot := "/project"; environmentsDirOption := None |})
            "odd"
            {| data_name := None; data_baseUrl := None;
               data_variables := Some [("pin", YStr "*")];
               data_secrets := Some ["pin"] |}).

End EnvironmentNotions.

(* ================================================================== *)
(** * HttpClient: the headers of a request *)
(* ================================================================== *)

Module HttpClient.

Import JsString JsValue.

(** [v === s] for a string [s] *)
Definition isString (v : jsval) (s : string) : bool :=
  match v with JStr t => (t =? s)%string | _ => false end.

(** [o[k]] for an object used as a record of headers *)
Definition header (headers : Map jsval) (k : string) : jsval :=
  match Map_get headers k with Some v => v | None => JUndefined end.

Record BodyInfo := {
  content : option string;
  contentType : string
}.

Section Given.

(** What the client takes from the platform: [JSON.stringify], which has no
    text for [undefined]; [new URLSearchParams(o).toString()];
    [Buffer.from(s).toString('base64')]. *)
Variable JSON_stringify : jsval -> option string.
Variable URLSearchParams_toString : jsval -> string.
Variable base64 : string -> string.

(** [serializeBody] *)
Definition serializeBody (body : jsval) : option BodyInfo :=
  if negb (truthy body) then None
  else
    let format := getProp body "format" in
    if isString format "json" then
      Some {| content := JSON_stringify (getProp body "content");
              contentType := "application/json" |}
    else if isString format "form" then
      Some {| content := Some (URLSearchParams_toString (getProp body "content"));
              contentType := "application/x-www-form-urlencoded" |}
    else if isString format "graphql" then
      Some {| content := JSON_stringify (JObj [ ("query", getProp body "query");
                                                ("variables", getProp body "variables") ]);
              contentType := "application/json" |}
    else if isString format "raw" then
      Some {| content := Some (String_ (getProp body "content"));
              contentType := "text/plain" |}
    else if isString format "multipart" then
      Some {| content := JSON_stringify (getProp body "content");
              contentType := "multipart/form-data" |}
    else None.

(** [applyAuth], which changes the headers it is given. *)
Definition applyAuth (headers : Map jsval) (auth : jsval) : Map jsval :=
  let type := getProp auth "type" in
  if isString type "bearer" then
    if truthy (getProp auth "token")
    then Map_set headers "Authorization"
                 (JStr ("Bearer " ++ String_ (getProp auth "token")))
    else headers
  else if isString type "basic" then
    if truthy (getProp auth "username") && truthy (getProp auth "password")
    then
      let credentials :=
        base64 (String_ (getProp auth "username") ++ ":"
                ++ String_ (getProp auth "password")) in
      Map_set headers "Authorization" (JStr ("Basic " ++ credentials))
    else headers
  else if isString type "api-key" then
    if truthy (getProp auth "key") && truthy (getProp auth "value")
       && isString (getProp auth "in") "header"
    then Object_set headers (String_ (getProp auth "key")) (getProp auth "value")
    else headers
  else headers.

(** [{ ...req.request.headers }]: the headers of the request, which the
    schema has as an object when they are there. *)
Definition requestHeaders (req : jsval) : Map jsval :=
  match getProp (getProp req "request") "headers" with
  | JObj fields => fields
  | _ => []
  end.

(** The step of [buildHeaders] that adds the content type of the body. *)
Definition withContentType (req : jsval) : Map jsval :=
  let headers := requestHeaders req in
  let body := getProp (getProp req "request") "body" in
  if truthy body && negb (truthy (header headers "Content-Type"))
     && negb (truthy (header headers "content-type"))
  then
    match serializeBody body with
    | Some bodyInfo =>
        if negb (contentType bodyInfo =? "")%string
        then Map_set headers "Content-Type" (JStr (contentType bodyInfo))
        else headers
    | None => headers
    end
  else headers.

(** [buildHeaders] *)
Definition buildHeaders (req : jsval) : Map jsval :=
  let headers := withContentType req in
  if truthy (getProp req "auth") then applyAuth headers (getProp req "auth")
  else headers.

End Given.

End HttpClient.

Module HttpSamples.

Import JsString JsValue HttpClient.

Definition stringify0 (v : jsval) : option string :=
  match v with JUndefined => None | _ => Some (String_ v) end.

(** A stand-in for the encoder of [Buffer], enough to tell credentials
    apart. *)
Definition base64' (s : string) : string := ("b64(" ++ s ++ ")")%string.

(** A request with a body, headers in lower case and a bearer token. *)
Definition posting : jsval :=
  JObj [ ("request",
          JObj [ ("method", JStr "POST");
                 ("url", JStr "https://api.example.com/users");
                 ("headers", JObj [ ("Accept", JStr "*/*");
                                    ("authorization", JStr "Basic old");
                                    ("X-Trace", JStr "1") ]);
                 ("body", JObj [ ("format", JStr "json");
                                 ("content", JObj [("name", JStr "ada")]) ]) ]);
         ("auth", JObj [("type", JStr "bearer"); ("token", JStr "t-1")]) ].

(** A request whose API key is meant for the query. *)
Definition keyed : jsval :=
  JObj [ ("request",
          JObj [ ("method", JStr "GET");
                 ("url", JStr "https://api.example.com/users");
                 ("headers", JObj [("Accept", JStr "*/*")]) ]);
         ("auth", JObj [ ("type", JStr "api-key"); ("key", JStr "api_key");
                         ("value", JStr "k-123"); ("in", JStr "query") ]) ].

(** A request with a user name and no password. *)
Definition halfBasic : jsval :=
  JObj [ ("request",
          JObj [ ("method", JStr "GET");
                 ("url", JStr "https://api.example.com/users");
                 ("headers", JObj [("Accept", JStr "*/*")]) ]);
         ("auth", JObj [("type", JStr "basic"); ("username", JStr "ada")]) ].

End HttpSamples.

(* ================================================================== *)
(** * DotEnvSource *)
(* ================================================================== *)

Module DotEnv.

Import JsValue.
Local Open Scope comp_scope.

(** What reading and parsing a file gives: the entries of the object that
    [parse] returns, no such file ([ENOENT]), or another failure. *)
Inductive reading : Type :=
| Parsed (entries : list (string * string))
| NoSuchFile
| Failed (message : string).

(** The files as the source finds them, by the path it asks for. *)
Definition Files : Type := string -> reading.

Record DotEnvSourceOptions := {
  path : option string;
  loadLocal : option bool;
  priority : option Z
}.

Record DotEnvSource := {
  source_priority : Z;
  envPath : string;
  loadLocal_ : bool;
  cache : option (Map string);
  loaded : bool
}.

Definition constructor (options : DotEnvSourceOptions) : DotEnvSource :=
  {| source_priority := match priority options with Some p => p | None => 200%Z end;
     envPath := match path options with Some p => p | None => ".env" end;
     loadLocal_ := match loadLocal options with Some b => b | None => true end;
     cache := None;
     loaded := false |}.

Definition setCache (c : option (Map string)) : M DotEnvSource unit :=
  fun s => (Ok tt, {| source_priority := source_priority s; envPath := envPath s;
                      loadLocal_ := loadLocal_ s; cache := c; loaded := loaded s |}).

Definition setLoaded (b : bool) : M DotEnvSource unit :=
  fun s => (Ok tt, {| source_priority := source_priority s; envPath := envPath s;
                      loadLocal_ := loadLocal_ s; cache := cache s; loaded := b |}).

(** [loadFile]: the entries are set in the cache in their order; a file
    that is not there is skipped, another failure is thrown on. *)
Definition loadFile (files : Files) (filePath : string) : M DotEnvSource unit :=
  fun s =>
    match files filePath with
    | Parsed entries =>
        setCache (Some (Map_setAll (match cache s with Some m => m | None => [] end)
                                   entries)) s
    | NoSuchFile => (Ok tt, s)
    | Failed message => (Throw message, s)
    end.

(** [ensureLoaded] *)
Definition ensureLoaded (files : Files) : M DotEnvSource unit :=
  fun s =>
    if loaded s then (Ok tt, s)
    else
      (setCache (Some []) ;;;
       loadFile files (envPath s) ;;;
       (if loadLocal_ s then loadFile files (envPath s ++ ".local") else ret tt) ;;;
       setLoaded true) s.

(** [get] *)
Definition get (files : Files) (key : string) : M DotEnvSource (option string) :=
  ensureLoaded files ;;;
  fun s => (Ok (match cache s with Some m => Map_get m key | None => None end), s).

(** [reload] *)
Definition reload (files : Files) : M DotEnvSource unit :=
  setLoaded false ;;;
  setCache None ;;;
  ensureLoaded files.

End DotEnv.

Module DotEnvSamples.

Import JsValue DotEnv.

Definition files0 : Files :=
  fun p =>
    if (p =? ".env")%string then
      Parsed [("API_URL", "https://api.example.com"); ("TOKEN", "base")]
    else if (p =? ".env.local")%string then Parsed [("TOKEN", "local")]
    else NoSuchFile.

(** The same files after [.env.local] was changed. *)
Definition files1 : Files :=
  fun p =>
    if (p =? ".env.local")%string then Parsed [("TOKEN", "changed")] else files0 p.

(** Files of which [.env.local] cannot be read. *)
Definition files2 : Files :=
  fun p =>
    if (p =? ".env.local")%string then Failed "EACCES: permission denied"
    else files0 p.

Definition source0 : DotEnvSource :=
  constructor {| path := None; loadLocal := None; priority := None |}.

End DotEnvSamples.

(* ================================================================== *)
(** * Calls of [response.json()] one after the other *)
(* ================================================================== *)

Module JsonNotions.

Import JsString JsValue Types Samples.

(** What [n] calls of [json()] on a view answer, in order: the value
    returned or the message of the error thrown. *)
Fixpoint jsonCalls (g : Sandbox.Given) (n : nat) (r : Sandbox.ResponseContextImpl)
  : list (jsval + string) :=
  match n with
  | O => []
  | S n' => let (answer, r') := Sandbox.json g r in answer :: jsonCalls g n' r'
  end.

(** A parser that knows one text. *)
Definition given3 : Sandbox.Given :=
  {| Sandbox.toISOString := iso0;
     Sandbox.JSON_stringify := String_;
     Sandbox.JSON_parse := fun text => if (text =? "[1]")%string
                                       then Some (JArr [JNum 1]) else None;
     Sandbox.evaluate := sampleEvaluate;
     Sandbox.ExpectBuilderImpl := sampleBuilder |}.

(** A response whose body is JSON text sent as plain text, so that the
    client did not parse it. *)
Definition unparsed : RadiusResponse :=
  {| status := 200; statusText := "OK";
     headers := [("content-type", "text/plain")];
     body := "[1]"; json := JNull;
     timing := {| total := 1; dns := None; connect := None; tls := None;
                  ttfb := None; download := None |};
     request := {| info_method := JStr "GET"; info_url := JStr "https://api.example.com";
                   info_headers := [] |};
     _scriptLogs := None; _assertions := None |}.

End JsonNotions.

(* ================================================================== *)
(** * The failures of a resolution *)
(* ================================================================== *)

Module FailureNotions.

Import Resolver.




End FailureNotions.

(* ================================================================== *)
(** * Properties of strings *)
(* ================================================================== *)

Module StringFacts.

Import JsString.

Lemma append_nil_r (s : string) : (s ++ "")%string = s.
Proof. induction s as [|c s IH]; simpl; [reflexivity | now rewrite IH]. Qed.

Lemma append_assoc (a b c : string) : ((a ++ b) ++ c = a ++ (b ++ c))%string.
Proof. induction a as [|x a IH]; simpl; [reflexivity | now rewrite IH]. Qed.

Lemma length_append (a b : string) :
  String.length (a ++ b) = String.length a + String.length b.
Proof. induction a as [|x a IH]; simpl; [reflexivity | now rewrite IH]. Qed.

Lemma startsWith_append (p s : string) : startsWith (p ++ s) p = true.
Proof.
  induction p as [|c p IH]; simpl; [reflexivity |].
  now rewrite Ascii.eqb_refl, IH.
Qed.

Lemma startsWith_spec (s p : string) :
  startsWith s p = true <-> exists t, s = (p ++ t)%string.
Proof.
  revert s; induction p as [|a p IH]; intros s; simpl.
  - split; [intros _; now exists s | reflexivity].
  - destruct s as [|b s].
    + split; [discriminate | intros [t Ht]; discriminate].
    + rewrite andb_true_iff, Ascii.eqb_eq, IH. split.
      * intros [-> [t ->]]. now exists t.
      * intros [t Ht]. injection Ht as -> ->. split; [reflexivity | now exists t].
Qed.

Lemma slice_append (p s : string) : slice (p ++ s) (String.length p) = s.
Proof. induction p as [|c p IH]; simpl; [now destruct s | exact IH]. Qed.

(** A string whose head differs from the head of the pattern does not start
    with the pattern. *)
Lemma startsWith_head_neq (c a : ascii) (s p : string) :
  a <> c -> startsWith (String c s) (String a p) = false.
Proof.
  intros H. simpl. destruct (Ascii.eqb_spec a c); [contradiction | reflexivity].
Qed.

Lemma hasChar_false_append (c : ascii) (a b : string) :
  hasChar c (a ++ b) = false <-> hasChar c a = false /\ hasChar c b = false.
Proof.
  induction a as [|x a IH]; cbn [hasChar String.append].
  - tauto.
  - rewrite !orb_false_iff, IH. tauto.
Qed.

(** Without a dollar sign the replacement text is inserted as it is. *)
Lemma GetSubstitution_plain (matched before after template : string) :
  hasChar "$" template = false ->
  GetSubstitution matched before after template = template.
Proof.
  induction template as [|c t IH]; cbn [hasChar GetSubstitution]; [reflexivity |].
  rewrite orb_false_iff. intros [Hc Ht].
  rewrite Ascii.eqb_sym in Hc. rewrite Hc. now rewrite IH.
Qed.

Lemma splitFirst_here (p s : string) :
  splitFirst (p ++ s) p = Some (EmptyString, s).
Proof.
  destruct p as [|a p].
  - destruct s; reflexivity.
  - change (splitFirst (String a p ++ s) (String a p))
      with (if startsWith (String a p ++ s) (String a p)
            then Some (EmptyString, slice (String a p ++ s) (String.length (String a p)))
            else match splitFirst (p ++ s) (String a p) with
                 | Some (before, after) => Some (String a before, after)
                 | None => None
                 end).
    now rewrite startsWith_append, slice_append.
Qed.

(** Replacing a string that is its own first occurrence. *)
Lemma replace_whole (p v : string) :
  replace p p v = GetSubstitution p "" "" v.
Proof.
  unfold replace. pose proof (splitFirst_here p "") as H.
  rewrite append_nil_r in H. rewrite H. simpl. now rewrite append_nil_r.
Qed.

End StringFacts.

(* ================================================================== *)
(** * The order of the sources *)
(* ================================================================== *)

Module SourceOrder.

Import Resolver Notions.
Local Open Scope Z_scope.

Lemma firstDefined_firstSource (l : list IVariableSource) (key : string) :
  firstDefined l key =
  match firstSource l key with Some s => get s key | None => None end.
Proof.
  induction l as [|s l IH]; simpl; [reflexivity |].
  destruct (get s key) eqn:E; [now rewrite E | exact IH].
Qed.

Lemma firstSource_In (l : list IVariableSource) (key : string) (b : IVariableSource) :
  firstSource l key = Some b -> In b l /\ get b key <> None.
Proof.
  induction l as [|s l IH]; simpl; [discriminate |].
  destruct (get s key) eqn:E.
  - intros [= <-]. split; [now left | congruence].
  - intros H. destruct (IH H). split; [now right | assumption].
Qed.

Lemma insertSorted_perm (a : IVariableSource) (l : list IVariableSource) :
  Permutation (a :: l) (insertSorted a l).
Proof.
  induction l as [|b l IH]; simpl; [reflexivity |].
  destruct (0 <? compareSources a b); [| reflexivity].
  rewrite perm_swap. now apply perm_skip.
Qed.

Lemma sortSources_perm (l : list IVariableSource) : Permutation l (sortSources l).
Proof.
  induction l as [|a l IH]; simpl; [reflexivity |].
  rewrite <- insertSorted_perm. now apply perm_skip.
Qed.

Lemma insertSorted_descending (a : IVariableSource) (l : list IVariableSource) :
  descending l -> descending (insertSorted a l).
Proof.
  unfold descending. induction l as [|b l IH]; intros Hl; simpl.
  - repeat constructor.
  - inversion Hl as [|? ? Hs Hall]; subst.
    unfold compareSources. destruct (0 <? priority b - priority a) eqn:E.
    + constructor; [now apply IH |].
      apply Forall_forall. intros x Hx.
      apply (Permutation_in _ (Permutation_sym (insertSorted_perm a l))) in Hx.
      destruct Hx as [<- | Hx]; [apply Z.ltb_lt in E; lia |].
      rewrite Forall_forall in Hall. now apply Hall.
    + apply Z.ltb_ge in E. constructor; [assumption |].
      constructor; [lia |].
      rewrite Forall_forall in Hall |- *. intros x Hx. specialize (Hall x Hx). lia.
Qed.

Lemma sortSources_descending (l : list IVariableSource) : descending (sortSources l).
Proof.
  induction l as [|a l IH]; simpl; [constructor | now apply insertSorted_descending].
Qed.

(** Inserting a source into a sorted list: it becomes the first source that
    defines the key unless a source of strictly higher priority does. *)
Lemma firstSource_insertSorted (a : IVariableSource) (l : list IVariableSource)
      (key : string) :
  descending l ->
  firstSource (insertSorted a l) key = challenge key a (firstSource l key).
Proof.
  unfold descending, challenge. induction l as [|b l IH]; intros Hl.
  - simpl. now destruct (get a key).
  - inversion Hl as [|? ? Hs Hall]; subst. rewrite Forall_forall in Hall.
    cbn [insertSorted]. unfold compareSources.
    destruct (0 <? priority b - priority a) eqn:E.
    + apply Z.ltb_lt in E. cbn [firstSource].
      destruct (get b key) eqn:Eb.
      * destruct (get a key); [| reflexivity].
        destruct (priority a <? priority b) eqn:E'; [reflexivity |].
        apply Z.ltb_ge in E'. lia.
      * now apply IH.
    + apply Z.ltb_ge in E. cbn [firstSource].
      destruct (get a key) eqn:Ea; [| reflexivity].
      destruct (get b key) eqn:Eb.
      * destruct (priority a <? priority b) eqn:E'; [| reflexivity].
        apply Z.ltb_lt in E'. lia.
      * destruct (firstSource l key) as [w|] eqn:Ew; [| reflexivity].
        destruct (priority a <? priority w) eqn:E'; [| reflexivity].
        apply Z.ltb_lt in E'. apply firstSource_In in Ew as [Hin _].
        specialize (Hall w Hin). lia.
Qed.

Lemma firstSource_sortSources (l : list IVariableSource) (key : string) :
  firstSource (sortSources l) key = best l key.
Proof.
  induction l as [|a l IH]; simpl; [reflexivity |].
  rewrite firstSource_insertSorted by apply sortSources_descending.
  now rewrite IH.
Qed.

Lemma best_In (l : list IVariableSource) (key : string) (b : IVariableSource) :
  best l key = Some b -> In b l /\ get b key <> None.
Proof.
  revert b. induction l as [|a l IH]; intros b; simpl; [discriminate |].
  unfold challenge. destruct (get a key) eqn:Ea.
  - destruct (best l key) as [w|] eqn:Ew.
    + destruct (priority a <? priority w).
      * intros [= <-]. destruct (IH w eq_refl). split; [now right | assumption].
      * intros [= <-]. split; [now left | congruence].
    + intros [= <-]. split; [now left | congruence].
  - intros H. destruct (IH b H). split; [now right | assumption].
Qed.

Lemma best_wins (key : string) (before after : list IVariableSource)
      (winner : IVariableSource) :
  wins key before winner after ->
  best (before ++ winner :: after) key = Some winner.
Proof.
  intros (Hw & Hb & Ha). induction before as [|a before IH]; simpl.
  - unfold challenge. destruct (get winner key) eqn:Ew; [| congruence].
    destruct (best after key) as [b|] eqn:Eb; [| reflexivity].
    apply best_In in Eb as [Hin Hdef]. specialize (Ha b Hin Hdef).
    destruct (priority winner <? priority b) eqn:E; [| reflexivity].
    apply Z.ltb_lt in E. lia.
  - rewrite IH by (intros s Hs; apply Hb; now right).
    unfold challenge. destruct (get a key) eqn:Ea; [| reflexivity].
    assert (priority a < priority winner) as Hlt
        by (apply Hb; [now left | congruence]).
    apply Z.ltb_lt in Hlt. now rewrite Hlt.
Qed.

(** Some source defines the key: the list splits around a winner. *)
Lemma wins_exists (key : string) (l : list IVariableSource) :
  (exists s, In s l /\ get s key <> None) ->
  exists before winner after, l = before ++ winner :: after /\ wins key before winner after.
Proof.
  induction l as [|a l IH]; intros (s & Hin & Hdef); [destruct Hin |].
  destruct (firstSource l key) as [t|] eqn:Et.
  - apply firstSource_In in Et as [Ht1 Ht2].
    destruct IH as (before & w & after & -> & Hw & Hb & Ha); [now exists t |].
    destruct (get a key) eqn:Ea.
    + destruct (priority a <? priority w) eqn:E.
      * apply Z.ltb_lt in E. exists (a :: before), w, after.
        split; [reflexivity |]. split; [assumption |]. split; [| assumption].
        intros x [<- | Hx] Hx'; [assumption | now apply Hb].
      * apply Z.ltb_ge in E. exists [], a, (before ++ w :: after).
        split; [reflexivity |]. split; [congruence |]. split; [intros x [] |].
        intros x Hx Hx'. apply in_app_or in Hx as [Hx | [<- | Hx]].
        -- specialize (Hb x Hx Hx'). lia.
        -- assumption.
        -- specialize (Ha x Hx Hx'). lia.
    + exists (a :: before), w, after.
      split; [reflexivity |]. split; [assumption |]. split; [| assumption].
      intros x [<- | Hx] Hx'; [congruence | now apply Hb].
  - assert (forall x, In x l -> get x key = None) as Hnone.
    { clear -Et. induction l as [|b l IH]; intros x; [intros [] |].
      simpl in Et. destruct (get b key) eqn:Eb; [discriminate |].
      intros [<- | Hx]; [assumption | now apply IH]. }
    destruct Hin as [<- | Hin]; [| now apply Hnone in Hin].
    exists [], a, l. split; [reflexivity |]. split; [assumption |].
    split; [intros x [] |]. intros x Hx Hx'. now apply Hnone in Hx.
Qed.

(** Two lists sorted strictly by the same order with the same elements are
    the same list. *)
Lemma strictly_sorted_unique (l l' : list IVariableSource) :
  StronglySorted (fun a b => priority b < priority a) l ->
  StronglySorted (fun a b => priority b < priority a) l' ->
  Permutation l l' -> l = l'.
Proof.
  revert l'. induction l as [|a l IH]; intros l' Hl Hl' Hp.
  - now apply Permutation_nil in Hp.
  - destruct l' as [|b l'];
      [apply Permutation_sym, Permutation_nil in Hp; discriminate |].
    inversion Hl as [|? ? Hs Hall]; subst.
    inversion Hl' as [|? ? Hs' Hall']; subst.
    rewrite Forall_forall in Hall, Hall'.
    assert (a = b) as ->.
    { assert (In a (b :: l')) as [Hab | Hab]
          by (apply (Permutation_in _ Hp); now left); [now symmetry |].
      assert (In b (a :: l)) as [Hba | Hba]
          by (apply (Permutation_in _ (Permutation_sym Hp)); now left);
        [assumption |].
      specialize (Hall b Hba). specialize (Hall' a Hab). lia. }
    f_equal. apply IH; [assumption | assumption |].
    now apply Permutation_cons_inv in Hp.
Qed.

Lemma descending_strict (l : list IVariableSource) :
  descending l -> NoDup (map priority l) ->
  StronglySorted (fun a b => priority b < priority a) l.
Proof.
  unfold descending. induction l as [|a l IH]; intros Hl Hn; [constructor |].
  inversion Hl as [|? ? Hs Hall]; subst. inversion Hn as [|? ? Hnot Hn']; subst.
  constructor; [now apply IH |].
  rewrite Forall_forall in Hall |- *. intros x Hx. specialize (Hall x Hx).
  assert (priority x <> priority a)
    by (intros E; apply Hnot; rewrite <- E; now apply in_map).
  lia.
Qed.

(** With distinct priorities the sorted list does not depend on the order in
    which the sources were supplied. *)
Lemma sortSources_order_independent (l l' : list IVariableSource) :
  Permutation l l' -> NoDup (map priority l) -> sortSources l = sortSources l'.
Proof.
  intros Hp Hn. apply strictly_sorted_unique.
  - apply descending_strict; [apply sortSources_descending |].
    eapply Permutation_NoDup; [| exact Hn].
    apply Permutation_map, sortSources_perm.
  - apply descending_strict; [apply sortSources_descending |].
    eapply Permutation_NoDup; [| exact Hn].
    apply Permutation_map. rewrite <- sortSources_perm. exact Hp.
  - now rewrite <- !sortSources_perm.
Qed.

(** [lookup] answers with the value of the winner. *)
Lemma lookup_winner (srcs before after : list IVariableSource)
      (winner : IVariableSource) (opts : ResolverOptions) (name : string) :
  srcs = before ++ winner :: after ->
  wins (lookupName name) before winner after ->
  lookup (constructor srcs opts) name = get winner (lookupName name).
Proof.
  intros -> Hw. unfold lookup, constructor. cbn [sources].
  rewrite firstDefined_firstSource, firstSource_sortSources.
  now rewrite (best_wins _ _ _ _ Hw).
Qed.

End SourceOrder.

(* ================================================================== *)
(** * The placeholder pattern *)
(* ================================================================== *)

Module PatternFacts.

Import JsString Resolver StringFacts.

Lemma spanInner_append (s : string) :
  (fst (spanInner s) ++ snd (spanInner s))%string = s.
Proof.
  induction s as [|c r IH]; cbn [spanInner]; [reflexivity |].
  destruct (Ascii.eqb c "}"); [reflexivity |].
  destruct (spanInner r) as [inner rest]. cbn in *. now rewrite IH.
Qed.

(** A run without closing brace that a closing brace follows is the whole
    capture. *)
Lemma spanInner_plain (inner rest : string) :
  hasChar "}" inner = false ->
  spanInner (inner ++ String "}" rest) = (inner, String "}" rest).
Proof.
  induction inner as [|c inner IH]; cbn [hasChar String.append spanInner].
  - reflexivity.
  - rewrite orb_false_iff. intros [Hc Hi].
    rewrite Ascii.eqb_sym in Hc. rewrite Hc, (IH Hi). reflexivity.
Qed.

Lemma execAt_placeholder (inner rest : string) :
  inner <> EmptyString -> hasChar "}" inner = false ->
  execAt (fullMatchOf inner ++ rest) = Some (inner, rest).
Proof.
  intros Hne Hplain. unfold fullMatchOf.
  change (execAt (("{{" ++ inner ++ "}}") ++ rest))
    with (match spanInner ((inner ++ "}}") ++ rest) with
          | (String c i, String "}" (String "}" t)) => Some (String c i, t)
          | _ => None
          end).
  rewrite append_assoc. cbn [String.append].
  rewrite (spanInner_plain inner _ Hplain).
  destruct inner; [congruence | reflexivity].
Qed.

Lemma execAt_head (c : ascii) (r : string) :
  c <> "{"%char -> execAt (String c r) = None.
Proof.
  intros H. unfold execAt.
  destruct c as [[] [] [] [] [] [] [] []]; try reflexivity. congruence.
Qed.

(** A match covers its capture between the braces. *)
Lemma execAt_sound (s inner rest : string) :
  execAt s = Some (inner, rest) ->
  s = (fullMatchOf inner ++ rest)%string /\ inner <> EmptyString
  /\ hasChar "}" inner = false.
Proof.
  unfold execAt, fullMatchOf.
  destruct s as [|c0 [|c1 r]]; try discriminate;
    try (destruct c0 as [[] [] [] [] [] [] [] []]; discriminate).
  destruct c0 as [[] [] [] [] [] [] [] []]; try discriminate.
  destruct c1 as [[] [] [] [] [] [] [] []]; try discriminate.
  pose proof (spanInner_append r) as Happ.
  assert (hasChar "}" (fst (spanInner r)) = false) as Hplain.
  { clear. induction r as [|c r IH]; cbn [spanInner]; [reflexivity |].
    destruct (Ascii.eqb c "}") eqn:E; [reflexivity |].
    destruct (spanInner r) as [i t]. cbn [fst hasChar] in *.
    now rewrite Ascii.eqb_sym, E, IH. }
  destruct (spanInner r) as [i t]. cbn [fst snd] in *.
  destruct i as [|c i]; [discriminate |].
  destruct t as [|d0 [|d1 t]]; try discriminate;
    try (destruct d0 as [[] [] [] [] [] [] [] []]; discriminate).
  destruct d0 as [[] [] [] [] [] [] [] []]; try discriminate.
  destruct d1 as [[] [] [] [] [] [] [] []]; try discriminate.
  intros [= <- <-]. subst r. split; [| split; [discriminate | assumption]].
  cbn [String.append]. now rewrite append_assoc.
Qed.

Lemma execAt_shorter (s inner rest : string) :
  execAt s = Some (inner, rest) -> String.length rest < String.length s.
Proof.
  intros H. apply execAt_sound in H as (-> & _ & _).
  unfold fullMatchOf. rewrite !length_append. simpl. lia.
Qed.

Lemma matchAllFrom_enough (fuel fuel' : nat) (s : string) :
  String.length s < fuel -> String.length s < fuel' ->
  matchAllFrom fuel s = matchAllFrom fuel' s.
Proof.
  revert fuel' s. induction fuel as [|fuel IH]; intros fuel' s H H'; [lia |].
  destruct fuel' as [|fuel']; [lia |]. cbn [matchAllFrom].
  destruct (execAt s) as [[inner rest]|] eqn:E.
  - apply execAt_shorter in E. f_equal. apply IH; lia.
  - destruct s as [|c r]; [reflexivity |]. cbn [String.length] in *. apply IH; lia.
Qed.

Lemma matchAllFrom_step (fuel : nat) (s : string) :
  matchAllFrom (S fuel) s =
  match execAt s with
  | Some (inner, rest) => inner :: matchAllFrom fuel rest
  | None => match s with
            | String _ r => matchAllFrom fuel r
            | EmptyString => []
            end
  end.
Proof. reflexivity. Qed.

Lemma matchAll_match (s inner rest : string) :
  execAt s = Some (inner, rest) -> matchAll s = inner :: matchAll rest.
Proof.
  intros E. unfold matchAll. rewrite (matchAllFrom_step (String.length s) s), E.
  f_equal. apply execAt_shorter in E. apply matchAllFrom_enough; lia.
Qed.

Lemma matchAll_skip (c : ascii) (r : string) :
  execAt (String c r) = None -> matchAll (String c r) = matchAll r.
Proof.
  intros E. unfold matchAll.
  rewrite (matchAllFrom_step (String.length (String c r)) (String c r)), E.
  apply matchAllFrom_enough; cbn [String.length]; lia.
Qed.

(** Text without an opening brace has no placeholder, whatever follows. *)
Lemma matchAll_text (w s : string) :
  hasChar "{" w = false -> matchAll (w ++ s) = matchAll s.
Proof.
  induction w as [|c w IH]; cbn [hasChar String.append]; [reflexivity |].
  rewrite orb_false_iff. intros [Hc Hw].
  rewrite matchAll_skip; [now apply IH |].
  apply execAt_head. intros ->. discriminate.
Qed.

Lemma matchAll_placeholder (inner rest : string) :
  inner <> EmptyString -> hasChar "}" inner = false ->
  matchAll (fullMatchOf inner ++ rest) = inner :: matchAll rest.
Proof. intros H1 H2. apply matchAll_match. now apply execAt_placeholder. Qed.

Lemma matchAll_empty : matchAll "" = [].
Proof. reflexivity. Qed.

Lemma hasVariables_text (w : string) :
  hasChar "{" w = false -> hasVariables w = false.
Proof.
  induction w as [|c w IH]; cbn [hasChar]; [reflexivity |].
  rewrite orb_false_iff. intros [Hc Hw].
  cbn [hasVariables]. rewrite execAt_head; [now apply IH |].
  intros ->. discriminate.
Qed.

Lemma hasVariables_placeholder (inner rest : string) :
  inner <> EmptyString -> hasChar "}" inner = false ->
  hasVariables (fullMatchOf inner ++ rest) = true.
Proof.
  intros H1 H2. pose proof (execAt_placeholder inner rest H1 H2) as E.
  destruct (fullMatchOf inner ++ rest)%string; cbn [hasVariables]; now rewrite E.
Qed.

End PatternFacts.

(* ================================================================== *)
(** * Resolution: termination, chains and cycles *)
(* ================================================================== *)

Module ResolverFacts.

Import JsString Resolver Notions StringFacts PatternFacts.

Section Resolution.

Variable iso : Z -> string.
Variable r : VariableResolver.

(** A name outside the generator table leaves the host untouched and goes on
    to the sources. *)
Lemma builtin_step_none (varName : string) (h : Host.t) :
  isBuiltin varName = false ->
  match matchBuiltin varName with
  | Some b => lift (resolveBuiltin iso b)
  | None => ret None
  end h = (Ok None, h).
Proof.
  unfold isBuiltin. destruct (matchBuiltin varName) as [b|]; [| reflexivity].
  cbn [existsb builtinNames]. rewrite !orb_false_iff.
  intros (H1 & H2 & H3 & H4 & _). unfold lift, resolveBuiltin.
  now rewrite H1, H2, H3, H4.
Qed.

(** The loop returns or throws when the nested call does. *)
Lemma resolveMatches_total (nested : string -> M Host.t ResolveResult) :
  (forall v h, exhausted (fst (nested v h)) = false) ->
  forall matches result unres h,
    exhausted (fst (resolveMatches iso nested r matches result unres h)) = false.
Proof.
  intros Hn. induction matches as [|inner matches IH]; intros result unres h.
  - reflexivity.
  - cbn [resolveMatches]. unfold bind at 1.
    destruct (matchBuiltin (trim inner)) as [b|].
    + unfold lift. destruct (resolveBuiltin iso b h) as [[v|] h1].
      * apply IH.
      * destruct (lookup r (trim inner)) as [v|]; [| apply IH].
        destruct (hasVariables v); [| apply IH].
        unfold bind. specialize (Hn v h1).
        destruct (nested v h1) as [[nr| |] h2]; [apply IH | reflexivity | discriminate].
    + unfold ret at 1.
      destruct (lookup r (trim inner)) as [v|]; [| apply IH].
      destruct (hasVariables v); [| apply IH].
      unfold bind. specialize (Hn v h).
      destruct (nested v h) as [[nr| |] h2]; [apply IH | reflexivity | discriminate].
Qed.

(** [resolveWithInfo] returns or throws: the fuel of the model is never what
    ends it once it covers the depths up to the maximum. *)
Lemma resolveWithInfo_total (fuel : nat) :
  forall template depth h,
    (Z.to_nat (maxDepth_ (options r) + 1 - depth) < fuel)%nat ->
    exhausted (fst (resolveWithInfo iso fuel r template depth h)) = false.
Proof.
  induction fuel as [|fuel IH]; intros template depth h Hf; [lia |].
  cbn [resolveWithInfo].
  destruct (maxDepth_ (options r) <? depth)%Z eqn:E; [reflexivity |].
  apply Z.ltb_ge in E. apply resolveMatches_total.
  intros v h'. apply IH. lia.
Qed.

Lemma resolveWithInfo0_total (template : string) (h : Host.t) :
  exhausted (fst (resolveWithInfo0 iso r template h)) = false.
Proof. apply resolveWithInfo_total. unfold fuelFor. lia. Qed.

Lemma resolve_total (template : string) (h : Host.t) :
  exhausted (fst (resolve iso r template h)) = false.
Proof.
  unfold resolve, bind. pose proof (resolveWithInfo0_total template h) as H.
  destruct (resolveWithInfo0 iso r template h) as [[res| |] h1];
    [| reflexivity | discriminate].
  destruct (strict_ (options r) && _); reflexivity.
Qed.

(** The template that is one placeholder has one match. *)
Lemma matchAll_single (inner : string) :
  simple inner = true -> matchAll (fullMatchOf inner) = [inner].
Proof.
  unfold simple. rewrite !andb_true_iff, !negb_true_iff.
  intros [[Hne _] Hc]. rewrite <- (append_nil_r (fullMatchOf inner)).
  rewrite matchAll_placeholder; [reflexivity | | assumption].
  intros ->. discriminate.
Qed.

Lemma hasVariables_single (inner : string) :
  simple inner = true -> hasVariables (fullMatchOf inner) = true.
Proof.
  unfold simple. rewrite !andb_true_iff, !negb_true_iff.
  intros [[Hne _] Hc]. rewrite <- (append_nil_r (fullMatchOf inner)).
  apply hasVariables_placeholder; [| assumption].
  intros ->. discriminate.
Qed.

(** One call on a placeholder whose value has no placeholder: the value is
    handed to [replace]. *)
Lemma resolveWithInfo_literal (fuel : nat) (inner v : string) (depth : Z) (h : Host.t) :
  valueOf r inner v -> hasVariables v = false ->
  (depth <= maxDepth_ (options r))%Z ->
  resolveWithInfo iso (S fuel) r (fullMatchOf inner) depth h =
  (Ok {| value := GetSubstitution (fullMatchOf inner) "" "" v; unresolved := [] |}, h).
Proof.
  intros [Hs Hl] Hv Hd. unfold sourced in Hs. apply andb_true_iff in Hs as [Hs Hb].
  apply negb_true_iff in Hb. cbn [resolveWithInfo].
  apply Z.ltb_ge in Hd. rewrite Hd, (matchAll_single _ Hs).
  cbn [resolveMatches]. unfold bind. rewrite (builtin_step_none _ h Hb).
  rewrite Hl, Hv. unfold ret. now rewrite replace_whole.
Qed.

(** One call on a placeholder whose value is a template: the result of the
    nested call is handed to [replace]. *)
Lemma resolveWithInfo_nested (fuel : nat) (inner v : string) (depth : Z) (h : Host.t) :
  valueOf r inner v -> hasVariables v = true ->
  (depth <= maxDepth_ (options r))%Z ->
  resolveWithInfo iso (S fuel) r (fullMatchOf inner) depth h =
  match resolveWithInfo iso fuel r v (depth + 1) h with
  | (Ok nested, h') =>
      (Ok {| value := GetSubstitution (fullMatchOf inner) "" "" (value nested);
             unresolved := unresolved nested |}, h')
  | (Throw e, h') => (Throw e, h')
  | (OutOfFuel, h') => (OutOfFuel, h')
  end.
Proof.
  intros [Hs Hl] Hv Hd. unfold sourced in Hs. apply andb_true_iff in Hs as [Hs Hb].
  apply negb_true_iff in Hb. cbn [resolveWithInfo].
  apply Z.ltb_ge in Hd. rewrite Hd, (matchAll_single _ Hs).
  cbn [resolveMatches]. unfold bind at 1. rewrite (builtin_step_none _ h Hb).
  rewrite Hl, Hv. unfold bind.
  destruct (resolveWithInfo iso fuel r v (depth + 1) h) as [[nested| |] h'];
    try reflexivity.
  unfold ret. now rewrite replace_whole.
Qed.

Lemma valueOf_simple (inner v : string) : valueOf r inner v -> simple inner = true.
Proof. intros [Hs _]. unfold sourced in Hs. now apply andb_true_iff in Hs as [Hs _]. Qed.

(** A circular chain ends in the failure of the depth check. *)
Lemma circular_throws (C : string -> Prop) :
  circular r C ->
  forall fuel inner depth h,
    C inner ->
    (Z.to_nat (maxDepth_ (options r) + 1 - depth) < fuel)%nat ->
    resolveWithInfo iso fuel r (fullMatchOf inner) depth h =
    (Throw (depthMessage r), h).
Proof.
  intros HC. induction fuel as [|fuel IH]; intros inner depth h Hin Hf; [lia |].
  destruct (maxDepth_ (options r) <? depth)%Z eqn:E.
  - cbn [resolveWithInfo]. now rewrite E.
  - apply Z.ltb_ge in E. destruct (HC inner Hin) as (next & Hnext & Hval).
    destruct (HC next Hnext) as (next' & _ & Hval').
    rewrite (resolveWithInfo_nested fuel inner _ depth h Hval
               (hasVariables_single _ (valueOf_simple _ _ Hval')) E).
    rewrite IH; [reflexivity | assumption | lia].
Qed.

(** A chain within the maximum depth resolves to its [chainValue]. *)
Lemma chain_resolves (inners : list string) (literal : string) :
  hasVariables literal = false ->
  forall fuel depth h,
    chain r inners literal ->
    (depth + Z.of_nat (List.length inners) - 1 <= maxDepth_ (options r))%Z ->
    (List.length inners <= fuel)%nat ->
    resolveWithInfo iso fuel r (fullMatchOf (hd EmptyString inners)) depth h =
    (Ok {| value := chainValue inners literal; unresolved := [] |}, h).
Proof.
  intros Hlit. induction inners as [|inner rest IH]; intros fuel depth h Hc Hd Hf;
    [destruct Hc |].
  destruct fuel as [|fuel]; [cbn [List.length] in Hf; lia |].
  destruct rest as [|next rest].
  - cbn [chain hd chainValue fold_right List.length] in *.
    apply (resolveWithInfo_literal fuel inner literal depth h Hc Hlit). lia.
  - destruct Hc as [Hval Hc]. cbn [hd].
    assert (simple next = true) as Hs.
    { destruct rest; [exact (valueOf_simple _ _ Hc) |].
      destruct Hc as [Hc _]. exact (valueOf_simple _ _ Hc). }
    rewrite (resolveWithInfo_nested fuel inner _ depth h Hval
               (hasVariables_single _ Hs)).
    + change (fullMatchOf next) with (fullMatchOf (hd EmptyString (next :: rest))).
      rewrite IH; [reflexivity | assumption | |].
      * cbn [List.length] in *. lia.
      * cbn [List.length] in *. lia.
    + cbn [List.length] in Hd. lia.
Qed.

Lemma chainValue_plain (inners : list string) (literal : string) :
  hasChar "$" literal = false -> chainValue inners literal = literal.
Proof.
  intros H. induction inners as [|inner rest IH]; cbn [chainValue fold_right];
    [reflexivity |].
  fold (chainValue rest literal). rewrite IH. now apply GetSubstitution_plain.
Qed.

End Resolution.

End ResolverFacts.

(* ================================================================== *)
(** * Numbers: rounding and numerals *)
(* ================================================================== *)

Module NumberFacts.

Import JsString JsNumber Notions.
Local Open Scope Z_scope.

(** Rounding to 53 bits moves a value up by half a unit in the last place at
    most. *)
Lemma round53_upper (p e : Z) :
  0 <= p ->
  0 <= mant (round53 p e) <= p + 2 ^ (Z.max 0 (Z.log2 p + 1 - 53) - 1).
Proof.
  intros Hp. unfold round53. cbn [mant].
  set (s := Z.max 0 (Z.log2 p + 1 - 53)).
  assert (0 <= s) as Hs by (unfold s; lia).
  rewrite (Z.shiftr_div_pow2 p s Hs).
  set (q := p / 2 ^ s).
  assert (0 < 2 ^ s) as Hpow by (apply Z.pow_pos_nonneg; lia).
  assert (0 <= q) as Hq by (unfold q; apply Z.div_pos; lia).
  assert (p = 2 ^ s * q + p mod 2 ^ s) as Hdiv by (unfold q; apply Z.div_mod; lia).
  assert (0 <= p mod 2 ^ s < 2 ^ s) as Hmod by (apply Z.mod_pos_bound; lia).
  rewrite (Z.shiftl_mul_pow2 q s Hs).
  destruct (0 <? s) eqn:Es.
  - apply Z.ltb_lt in Es.
    rewrite (Z.shiftl_mul_pow2 1 (s - 1)) by lia. rewrite Z.mul_1_l.
    assert (2 ^ s = 2 * 2 ^ (s - 1)) as Hhalf
        by (rewrite <- Z.pow_succ_r by lia; f_equal; lia).
    assert (0 < 2 ^ (s - 1)) by (apply Z.pow_pos_nonneg; lia).
    cbn [andb].
    destruct ((2 ^ (s - 1) <? p - q * 2 ^ s)
              || ((2 ^ (s - 1) =? p - q * 2 ^ s) && Z.odd q)) eqn:Eup.
    + assert (2 ^ (s - 1) <= p - q * 2 ^ s) as Hr.
      { apply orb_true_iff in Eup as [H1 | H1].
        - apply Z.ltb_lt in H1. lia.
        - apply andb_true_iff in H1 as [H1 _]. apply Z.eqb_eq in H1. lia. }
      rewrite (Z.shiftl_mul_pow2 (q + 1) s Hs). nia.
    + rewrite (Z.shiftl_mul_pow2 q s Hs). nia.
  - apply Z.ltb_ge in Es. assert (s = 0) as -> by lia. cbn [andb].
    rewrite (Z.shiftl_mul_pow2 q 0) by lia.
    change (2 ^ 0) with 1 in *. change (2 ^ (0 - 1)) with 0. lia.
Qed.

(** The product of a value of [0,1) and a positive integer stays below that
    integer after rounding. *)
Lemma floor_mulInt_range (x : double) (k : Z) :
  unitInterval x -> 0 < k ->
  0 <= floor (mulInt x k) < k.
Proof.
  intros [[Hm0 Hm1] He] Hk. unfold floor, mulInt.
  set (p := mant x * k).
  assert (0 <= p) as Hp by (unfold p; nia).
  pose proof (round53_upper p (expo x) Hp) as [Hlo Hhi].
  change (expo (round53 p (expo x))) with (expo x).
  rewrite Z.shiftr_div_pow2 by lia.
  assert (0 < 2 ^ expo x) as Hpow by (apply Z.pow_pos_nonneg; lia).
  assert (2 ^ 53 <= 2 ^ expo x) as Hge by (apply Z.pow_le_mono_r; lia).
  split; [apply Z.div_pos; lia |].
  apply Z.div_lt_upper_bound; [lia |].
  assert (p <= (2 ^ 53 - 1) * k) by (unfold p; nia).
  assert (2 ^ 53 * k <= 2 ^ expo x * k) by nia.
  set (t := Z.max 0 (Z.log2 p + 1 - 53) - 1) in *.
  destruct (Z_lt_le_dec t 0) as [Hneg | Hnn].
  - rewrite Z.pow_neg_r in Hhi by lia. nia.
  - (* the product needs more than 53 bits: it is at least [2^(t+53)], and
       half a unit in the last place is [2^t] *)
    assert (0 < p) as Hpos.
    { destruct (Z.eq_dec p 0) as [E|]; [| lia].
      unfold t in Hnn. rewrite E in Hnn. cbn in Hnn. lia. }
    pose proof (Z.log2_spec p Hpos) as [Hl _].
    assert (Z.log2 p = t + 53) as Hlt by (unfold t in *; lia).
    rewrite Hlt in Hl. rewrite Z.pow_add_r in Hl by lia.
    assert (0 < 2 ^ t) by (apply Z.pow_pos_nonneg; lia).
    nia.
Qed.

(** ** Numerals *)

Lemma decimal_numeral (d : Decimal.uint) :
  allNumeral (DecimalString.NilEmpty.string_of_uint d) = true.
Proof. induction d; cbn [DecimalString.NilEmpty.string_of_uint allNumeral]; auto. Qed.

Lemma toString_numeral (n : Z) : allNumeral (toString n) = true.
Proof.
  unfold toString, DecimalString.NilZero.string_of_int,
    DecimalString.NilZero.string_of_uint.
  destruct (Z.to_int n) as [d|d]; destruct d; try reflexivity;
    try (cbn [allNumeral]; apply decimal_numeral);
    apply (decimal_numeral (_ d)).
Qed.

Lemma hexadecimal_numeral (d : Hexadecimal.uint) :
  allNumeral (HexadecimalString.NilEmpty.string_of_uint d) = true.
Proof. induction d; cbn [HexadecimalString.NilEmpty.string_of_uint allNumeral]; auto. Qed.

Lemma toString16_numeral (n : Z) : allNumeral (toString16 n) = true.
Proof.
  unfold toString16, HexadecimalString.NilZero.string_of_int,
    HexadecimalString.NilZero.string_of_uint.
  destruct (Z.to_hex_int n) as [d|d]; destruct d; try reflexivity;
    try (cbn [allNumeral]; apply hexadecimal_numeral);
    apply (hexadecimal_numeral (_ d)).
Qed.

Lemma allNumeral_append (a b : string) :
  allNumeral (a ++ b) = allNumeral a && allNumeral b.
Proof.
  induction a as [|c a IH]; cbn [allNumeral String.append]; [reflexivity |].
  now rewrite IH, andb_assoc.
Qed.

Lemma allNumeral_hasChar (c : ascii) (s : string) :
  numeral c = false -> allNumeral s = true -> hasChar c s = false.
Proof.
  intros Hc. induction s as [|d s IH]; cbn [allNumeral hasChar]; [reflexivity |].
  rewrite andb_true_iff. intros [Hd Hs]. rewrite (IH Hs), orb_false_r.
  destruct (Ascii.eqb_spec c d) as [-> |]; [congruence | reflexivity].
Qed.

Lemma allNumeral_plain (s : string) : allNumeral s = true -> plainValue s = true.
Proof.
  intros H. unfold plainValue.
  now rewrite !(allNumeral_hasChar _ s) by (reflexivity || assumption).
Qed.

(** A decimal numeral reads back as the integer it was written from. *)
Lemma parseDecimal_toString (n : Z) : parseDecimal (toString n) = Some n.
Proof.
  unfold parseDecimal, toString.
  rewrite DecimalString.NilZero.isi.
  - now rewrite DecimalZ.of_to.
  - destruct n; cbn; try discriminate;
      intros [= H]; now apply DecimalPos.Unsigned.to_uint_nonnil in H.
  - destruct n; cbn; try discriminate;
      intros [= H]; now apply DecimalPos.Unsigned.to_uint_nonnil in H.
Qed.

End NumberFacts.

(* ================================================================== *)
(** * The generators of the built-in variables *)
(* ================================================================== *)

Module GeneratorFacts.

Import JsString JsNumber Resolver Notions StringFacts NumberFacts.

Lemma Math_random_ok (h : Host.t) :
  Host.random_ok h ->
  unitInterval (fst (Host.Math_random h)) /\ Host.random_ok (snd (Host.Math_random h)).
Proof. intros H. split; [apply H | exact H]. Qed.

(** The replacer writes one code unit of the class of the template. *)
Lemma uuidDigit_class (c : ascii) (x : double) :
  unitInterval x -> c = "x"%char \/ c = "y"%char ->
  exists d, uuidDigit c x = String d EmptyString
            /\ inClass (classOfTemplate c) d = true.
Proof.
  intros Hx Hc. unfold uuidDigit.
  pose proof (floor_mulInt_range x 16 Hx ltac:(lia)) as Hr.
  unfold ToInt32. remember (floor (mulInt x 16)) as f eqn:Ef. clear Ef.
  rewrite Z.lor_0_r.
  replace ((f + 2 ^ 31) mod 2 ^ 32 - 2 ^ 31)%Z with f
    by (rewrite Z.mod_small; lia).
  assert (f = 0 \/ f = 1 \/ f = 2 \/ f = 3 \/ f = 4 \/ f = 5 \/ f = 6 \/ f = 7
          \/ f = 8 \/ f = 9 \/ f = 10 \/ f = 11 \/ f = 12 \/ f = 13 \/ f = 14
          \/ f = 15)%Z as Hf by lia.
  destruct Hc as [-> | ->];
    repeat (destruct Hf as [-> | Hf]; [eexists; split; reflexivity |]);
    subst f; eexists; split; reflexivity.
Qed.

Lemma fillUuid_classes (template : string) :
  uuidTemplate template = true ->
  forall h, Host.random_ok h ->
    matchesClasses (classesOf template) (fst (fillUuid template h)) = true
    /\ Host.random_ok (snd (fillUuid template h)).
Proof.
  induction template as [|c t IH]; intros Ht h Hh; [split; [reflexivity | exact Hh] |].
  cbn [uuidTemplate] in Ht. apply andb_true_iff in Ht as [Hc Ht].
  cbn [fillUuid classesOf].
  destruct (Ascii.eqb c "x" || Ascii.eqb c "y") eqn:Exy.
  - destruct (Math_random_ok h Hh) as [Hx Hh1].
    destruct (Host.Math_random h) as [x h1]. cbn [fst snd] in *.
    destruct (IH Ht h1 Hh1) as [Hm Hh2].
    destruct (fillUuid t h1) as [tail h2]. cbn [fst snd] in *.
    assert (c = "x"%char \/ c = "y"%char) as Hxy.
    { apply orb_true_iff in Exy as [E | E]; apply Ascii.eqb_eq in E; auto. }
    destruct (uuidDigit_class c x Hx Hxy) as (d & -> & Hd).
    cbn [String.append matchesClasses]. now rewrite Hd, Hm.
  - destruct (IH Ht h Hh) as [Hm Hh2].
    destruct (fillUuid t h) as [tail h2]. cbn [fst snd matchesClasses] in *.
    split; [| assumption]. rewrite Hm, andb_true_r.
    apply orb_false_iff in Exy as [Ex Ey].
    unfold classOfTemplate. rewrite Ex, Ey. cbn [orb] in Hc.
    destruct (Ascii.eqb c "4") eqn:E4; [exact E4 | exact Hc].
Qed.

(** [generateUuid] writes a version 4 identifier. *)
Lemma generateUuid_v4 (h : Host.t) :
  Host.random_ok h -> isUuidV4 (fst (generateUuid h)) = true.
Proof.
  intros Hh. unfold generateUuid, isUuidV4.
  exact (proj1 (fillUuid_classes "xxxxxxxx-xxxx-4xxx-yxxx-xxxxxxxxxxxx"
                                 eq_refl h Hh)).
Qed.

Lemma fillUuid_numeral (template : string) (h : Host.t) :
  uuidTemplate template = true -> allNumeral (fst (fillUuid template h)) = true.
Proof.
  revert h. induction template as [|c t IH]; intros h Ht; [reflexivity |].
  cbn [uuidTemplate] in Ht. apply andb_true_iff in Ht as [Hc Ht].
  cbn [fillUuid].
  destruct (Ascii.eqb c "x" || Ascii.eqb c "y") eqn:Exy.
  - destruct (Host.Math_random h) as [x h1].
    specialize (IH h1 Ht). destruct (fillUuid t h1) as [tail h2].
    cbn [fst] in *. rewrite allNumeral_append, IH, andb_true_r.
    apply toString16_numeral.
  - specialize (IH h Ht). destruct (fillUuid t h) as [tail h2].
    cbn [fst allNumeral] in *. rewrite IH, andb_true_r.
    cbn [orb] in Hc.
    apply orb_true_iff in Hc as [E | E]; apply Ascii.eqb_eq in E; now subst c.
Qed.

(** [randomInt] draws an integer of [0, 1000000). *)
Lemma randomInt_range (h : Host.t) :
  Host.random_ok h -> (0 <= fst (randomInt h) < 1000000)%Z.
Proof.
  intros Hh. unfold randomInt.
  destruct (Math_random_ok h Hh) as [Hx _].
  destruct (Host.Math_random h) as [x h1]. cbn [fst] in *.
  apply floor_mulInt_range; [assumption | lia].
Qed.

Section Plain.

Variable iso : Z -> string.
Hypothesis iso_plain : forall t, plainValue (iso t) = true.

(** What a generator writes is spliced in as it is. *)
Lemma resolveBuiltin_plain (b : string) (h : Host.t) (v : string) (h' : Host.t) :
  resolveBuiltin iso b h = (Some v, h') -> plainValue v = true.
Proof.
  unfold resolveBuiltin.
  destruct (toLowerCase b =? "uuid")%string.
  { pose proof (fillUuid_numeral "xxxxxxxx-xxxx-4xxx-yxxx-xxxxxxxxxxxx" h eq_refl) as H.
    unfold generateUuid. destruct (fillUuid _ h) as [u h1]. cbn [fst] in H.
    intros [= <- _]. now apply allNumeral_plain. }
  destruct (toLowerCase b =? "timestamp")%string.
  { destruct (Host.Date_now h) as [t h1]. intros [= <- _].
    apply allNumeral_plain, toString_numeral. }
  destruct (toLowerCase b =? "isodate")%string.
  { destruct (Host.Date_now h) as [t h1]. intros [= <- _]. apply iso_plain. }
  destruct (toLowerCase b =? "randomint")%string.
  { destruct (randomInt h) as [i h1]. intros [= <- _].
    apply allNumeral_plain, toString_numeral. }
  discriminate.
Qed.

End Plain.

End GeneratorFacts.

(* ================================================================== *)
(** * Resolution of a template, placeholder by placeholder *)
(* ================================================================== *)

Module TemplateFacts.

Import JsString Resolver Notions StringFacts PatternFacts ResolverFacts GeneratorFacts.

Lemma splitFirst_step (c : ascii) (s pat : string) :
  splitFirst (String c s) pat =
  if startsWith (String c s) pat
  then Some (EmptyString, slice (String c s) (String.length pat))
  else match splitFirst s pat with
       | Some (before, after) => Some (String c before, after)
       | None => None
       end.
Proof. reflexivity. Qed.

Lemma textOk_noOpen (w : string) : hasChar "{" w = false -> textOk w = true.
Proof.
  induction w as [|c w IH]; cbn [hasChar textOk]; [reflexivity |].
  rewrite orb_false_iff. intros [Hc Hw].
  rewrite Ascii.eqb_sym in Hc. now rewrite Hc, (IH Hw).
Qed.

(** An opening brace in front of text without one. *)
Lemma textOk_open (w : string) :
  w <> EmptyString -> hasChar "{" w = false -> textOk (String "{" w) = true.
Proof.
  intros Hne Hw.
  change (textOk (String "{" w))
    with ((match w with
           | String d _ => negb (Ascii.eqb d "{")
           | EmptyString => false
           end) && textOk w).
  rewrite (textOk_noOpen _ Hw), andb_true_r.
  destruct w as [|c w]; [congruence |].
  cbn [hasChar] in Hw. apply orb_false_iff in Hw as [Hc _].
  rewrite Ascii.eqb_sym in Hc. now rewrite Hc.
Qed.

Lemma textOk_append (a b : string) :
  textOk a = true -> textOk b = true -> textOk (a ++ b) = true.
Proof.
  induction a as [|c a IH]; intros Ha Hb; [exact Hb |].
  cbn [textOk String.append] in *. apply andb_true_iff in Ha as [Hc Ha].
  rewrite (IH Ha Hb), andb_true_r.
  destruct (Ascii.eqb c "{"); [| reflexivity].
  destruct a; [discriminate | exact Hc].
Qed.

(** No placeholder starts inside such text, whatever the text is followed
    by. *)
Lemma startsWith_text (c : ascii) (w s inner : string) :
  textOk (String c w) = true ->
  startsWith (String c w ++ s) (fullMatchOf inner) = false.
Proof.
  cbn [textOk]. rewrite andb_true_iff. intros [Hc _].
  unfold fullMatchOf. cbn [String.append startsWith].
  destruct (Ascii.eqb_spec "{" c) as [<- |]; [| reflexivity].
  destruct w as [|d w]; [discriminate |].
  change (Ascii.eqb "{" "{") with true in Hc. cbn iota in Hc.
  cbn [String.append]. apply negb_true_iff in Hc.
  now rewrite Ascii.eqb_sym, Hc.
Qed.

Lemma splitFirst_text (w s inner : string) :
  textOk w = true ->
  splitFirst (w ++ s) (fullMatchOf inner) =
  match splitFirst s (fullMatchOf inner) with
  | Some (before, after) => Some ((w ++ before)%string, after)
  | None => None
  end.
Proof.
  induction w as [|c w IH]; intros Hw.
  - cbn [String.append]. now destruct (splitFirst s (fullMatchOf inner)) as [[? ?]|].
  - change (String c w ++ s)%string with (String c (w ++ s)).
    rewrite splitFirst_step.
    change (String c (w ++ s)) with (String c w ++ s)%string.
    rewrite (startsWith_text c w s inner Hw).
    cbn [textOk] in Hw. apply andb_true_iff in Hw as [_ Hw].
    rewrite (IH Hw).
    now destruct (splitFirst s (fullMatchOf inner)) as [[? ?]|].
Qed.

Lemma execAt_text (c : ascii) (w s : string) :
  textOk (String c w) = true -> execAt (String c w ++ s) = None.
Proof.
  cbn [textOk]. rewrite andb_true_iff. intros [Hc _].
  destruct (Ascii.eqb_spec c "{") as [-> |]; [| now apply execAt_head].
  destruct w as [|d w]; [discriminate |].
  apply negb_true_iff, Ascii.eqb_neq in Hc.
  cbn [String.append]. unfold execAt.
  destruct d as [[] [] [] [] [] [] [] []]; try reflexivity. congruence.
Qed.

Lemma matchAll_textOk (w s : string) :
  textOk w = true -> matchAll (w ++ s) = matchAll s.
Proof.
  induction w as [|c w IH]; intros Hw; [reflexivity |].
  change (String c w ++ s)%string with (String c (w ++ s)).
  rewrite matchAll_skip.
  - apply IH. cbn [textOk] in Hw. now apply andb_true_iff in Hw as [_ Hw].
  - change (String c (w ++ s)) with (String c w ++ s)%string.
    now apply execAt_text.
Qed.

Lemma simple_spec (inner : string) :
  simple inner = true <->
  inner <> EmptyString /\ hasChar "{" inner = false /\ hasChar "}" inner = false.
Proof.
  unfold simple. rewrite !andb_true_iff, !negb_true_iff, String.eqb_neq. tauto.
Qed.

Lemma matchAll_render (segs : list segment) :
  wellFormed segs = true -> matchAll (render segs) = inners segs.
Proof.
  induction segs as [|[w|inner] rest IH]; cbn [wellFormed forallb render inners];
    [reflexivity | |]; rewrite andb_true_iff; intros [H Hr].
  - rewrite (matchAll_textOk _ _ H). now apply IH.
  - apply simple_spec in H as (Hne & _ & Hc).
    rewrite (matchAll_placeholder _ _ Hne Hc). f_equal. now apply IH.
Qed.

(** A capture is determined by the text of its placeholder. *)
Lemma capture_unique (u i x y : string) :
  hasChar "}" u = false -> hasChar "}" i = false ->
  (u ++ String "}" x)%string = (i ++ String "}" y)%string -> u = i.
Proof.
  revert i. induction u as [|c u IH]; intros i Hu Hi E.
  - destruct i as [|d i]; [reflexivity |].
    cbn [String.append hasChar] in *. injection E as <- _.
    now rewrite Ascii.eqb_refl in Hi.
  - destruct i as [|d i].
    + cbn [String.append hasChar] in *. injection E as -> _.
      now rewrite Ascii.eqb_refl in Hu.
    + cbn [String.append hasChar] in *.
      apply orb_false_iff in Hu as [_ Hu]. apply orb_false_iff in Hi as [_ Hi].
      injection E as -> E. f_equal. now apply IH.
Qed.

Lemma startsWith_placeholder (u i s : string) :
  simple u = true -> simple i = true ->
  startsWith (fullMatchOf u ++ s) (fullMatchOf i) = true -> u = i.
Proof.
  intros Hu Hi H. apply simple_spec in Hu as (_ & _ & Hu).
  apply simple_spec in Hi as (_ & _ & Hi).
  apply startsWith_spec in H as [t Ht]. unfold fullMatchOf in Ht.
  cbn [String.append] in Ht. injection Ht as Ht.
  rewrite !append_assoc in Ht. cbn [String.append] in Ht.
  exact (capture_unique _ _ _ _ Hu Hi Ht).
Qed.

Lemma produced_app (r : VariableResolver) (a b : string) :
  produced r a -> produced r b -> produced r (a ++ b).
Proof.
  intros Ha Hb. induction Ha as [|w o Hw Ho IH|inner o Hs Hb' Hl Ho IH].
  - exact Hb.
  - rewrite append_assoc. now constructor.
  - rewrite append_assoc. now constructor.
Qed.

Lemma produced_plain (r : VariableResolver) (v : string) :
  plainValue v = true -> produced r v.
Proof.
  unfold plainValue. rewrite andb_true_iff, !negb_true_iff. intros [Hv _].
  rewrite <- (append_nil_r v). constructor; [now apply textOk_noOpen | constructor].
Qed.

Section Template.

Variable iso : Z -> string.
Hypothesis iso_plain : forall t, plainValue (iso t) = true.
Variable r : VariableResolver.

(** The first occurrence of the text of a resolvable placeholder, after what
    the loop has produced, is the placeholder itself. *)
Lemma splitFirst_produced (out inner tail : string) :
  produced r out -> simple inner = true -> resolvable r inner ->
  splitFirst (out ++ fullMatchOf inner ++ tail) (fullMatchOf inner) = Some (out, tail).
Proof.
  intros Hout Hs Hr. induction Hout as [|w o Hw Ho IH|u o Hu Hb Hl Ho IH].
  - exact (splitFirst_here (fullMatchOf inner) tail).
  - rewrite append_assoc, (splitFirst_text _ _ _ Hw), IH. reflexivity.
  - rewrite append_assoc.
    assert (startsWith (fullMatchOf u ++ o ++ fullMatchOf inner ++ tail)
                       (fullMatchOf inner) = false) as Hno.
    { destruct (startsWith _ _) eqn:E; [| reflexivity].
      apply (startsWith_placeholder _ _ _ Hu Hs) in E. subst u.
      destruct Hr as [Hr | Hr]; congruence. }
    change (fullMatchOf u ++ o ++ fullMatchOf inner ++ tail)%string
      with (String "{" (("{" ++ u ++ "}}") ++ o ++ fullMatchOf inner ++ tail)) in *.
    rewrite splitFirst_step, Hno.
    rewrite splitFirst_text, IH; [reflexivity |].
    apply simple_spec in Hu as (Hne & Ho' & Hc).
    change ("{" ++ u ++ "}}")%string with (String "{" (u ++ "}}")).
    apply textOk_open.
    + destruct u; [congruence | discriminate].
    + now apply hasChar_false_append.
Qed.

Lemma replace_produced (out inner tail v : string) :
  produced r out -> simple inner = true -> resolvable r inner ->
  plainValue v = true ->
  replace (out ++ fullMatchOf inner ++ tail) (fullMatchOf inner) v
  = (out ++ v ++ tail)%string.
Proof.
  intros Hout Hs Hr Hv. unfold replace.
  rewrite (splitFirst_produced _ _ _ Hout Hs Hr).
  unfold plainValue in Hv. apply andb_true_iff in Hv as [_ Hv].
  apply negb_true_iff in Hv. now rewrite (GetSubstitution_plain _ _ _ _ Hv).
Qed.

(** The generator of a name exists exactly for the names of the table. *)
Lemma generate_spec (varName : string) (h : Host.t) :
  (isBuiltin varName = true /\ exists g h1, generate iso varName h = (Some g, h1))
  \/ (isBuiltin varName = false /\ generate iso varName h = (None, h)).
Proof.
  unfold isBuiltin, generate. destruct (matchBuiltin varName) as [b|]; [| now right].
  unfold resolveBuiltin. cbn [builtinNames existsb].
  destruct (toLowerCase b =? "uuid")%string.
  { left. split; [reflexivity |]. destruct (generateUuid h). eauto. }
  destruct (toLowerCase b =? "timestamp")%string.
  { left. split; [reflexivity |]. destruct (Host.Date_now h). eauto. }
  destruct (toLowerCase b =? "isodate")%string.
  { left. split; [reflexivity |]. destruct (Host.Date_now h). eauto. }
  destruct (toLowerCase b =? "randomint")%string.
  { left. split; [reflexivity |]. destruct (randomInt h). eauto. }
  now right.
Qed.

Lemma builtin_step_generate (varName : string) (h : Host.t) :
  match matchBuiltin varName with
  | Some b => lift (resolveBuiltin iso b)
  | None => ret None
  end h = (let (g, h1) := generate iso varName h in (Ok g, h1)).
Proof.
  unfold generate. destruct (matchBuiltin varName) as [b|]; reflexivity.
Qed.

Lemma generate_plain (varName : string) (h : Host.t) (g : string) (h1 : Host.t) :
  generate iso varName h = (Some g, h1) -> plainValue g = true.
Proof.
  unfold generate. destruct (matchBuiltin varName) as [b|]; [| discriminate].
  apply (resolveBuiltin_plain iso iso_plain).
Qed.

(** The loop of [resolveWithInfo] on a well-formed template whose values are
    plain does what reading the template from left to right does. *)
Lemma resolveMatches_segments (nested : string -> M Host.t ResolveResult)
      (segs : list segment) :
  wellFormed segs = true -> plainlySourced r segs = true ->
  forall out unres h,
    produced r out ->
    resolveMatches iso nested r (inners segs) (out ++ render segs) unres h =
    (let (segs', h') := expand iso r segs h in
     (Ok {| value := out ++ render segs'; unresolved := unres ++ names segs' |}, h')).
Proof.
  induction segs as [|[w|inner] rest IH]; intros Hwf Hps out unres h Hout.
  - cbn [inners render expand resolveMatches names map]. unfold ret.
    now rewrite app_nil_r.
  - cbn [wellFormed forallb] in Hwf. apply andb_true_iff in Hwf as [Hw Hwf].
    cbn [inners render expand]. rewrite <- append_assoc.
    rewrite (IH Hwf Hps (out ++ w)%string unres h).
    + destruct (expand iso r rest h) as [segs' h']. cbn [render].
      now rewrite append_assoc.
    + apply produced_app; [assumption |].
      rewrite <- (append_nil_r w). constructor; [assumption | constructor].
  - cbn [wellFormed forallb] in Hwf. apply andb_true_iff in Hwf as [Hs Hwf].
    unfold plainlySourced in Hps. cbn [inners forallb] in Hps.
    apply andb_true_iff in Hps as [Hv Hps]. fold (plainlySourced r rest) in Hps.
    cbn [inners render expand resolveMatches]. unfold bind at 1.
    rewrite builtin_step_generate.
    destruct (generate_spec (trim inner) h) as [(Hb & g & h1 & Hg) | (Hb & Hg)];
      rewrite Hg.
    + pose proof (generate_plain _ _ _ _ Hg) as Hplain.
      rewrite (replace_produced out inner (render rest) g Hout Hs (or_introl Hb) Hplain).
      rewrite <- append_assoc.
      rewrite (IH Hwf Hps (out ++ g)%string unres h1).
      * destruct (expand iso r rest h1) as [segs' h']. cbn [render].
        now rewrite append_assoc.
      * apply produced_app; [assumption | now apply produced_plain].
    + rewrite Hb in Hv. cbn [orb] in Hv.
      destruct (lookup r (trim inner)) as [x|] eqn:El.
      * assert (hasVariables x = false) as Hnv.
        { apply hasVariables_text. unfold plainValue in Hv.
          apply andb_true_iff in Hv as [Hv _]. now apply negb_true_iff in Hv. }
        rewrite Hnv.
        rewrite (replace_produced out inner (render rest) x Hout Hs).
        -- rewrite <- append_assoc.
           rewrite (IH Hwf Hps (out ++ x)%string unres h).
           ++ destruct (expand iso r rest h) as [segs' h']. cbn [render].
              now rewrite append_assoc.
           ++ apply produced_app; [assumption | now apply produced_plain].
        -- right. congruence.
        -- exact Hv.
      * rewrite <- append_assoc.
        rewrite (IH Hwf Hps (out ++ fullMatchOf inner)%string
                    (unres ++ [trim inner]) h).
        -- destruct (expand iso r rest h) as [segs' h'].
           cbn [render names inners map].
           now rewrite append_assoc, <- app_assoc.
        -- apply produced_app; [assumption |].
           rewrite <- (append_nil_r (fullMatchOf inner)).
           constructor; [assumption | assumption | assumption | constructor].
Qed.

(** [resolveWithInfo] on such a template. *)
Lemma resolveWithInfo0_segments (segs : list segment) (h : Host.t) :
  wellFormed segs = true -> plainlySourced r segs = true ->
  (0 <= maxDepth_ (options r))%Z ->
  resolveWithInfo0 iso r (render segs) h =
  (let (segs', h') := expand iso r segs h in
   (Ok {| value := render segs'; unresolved := names segs' |}, h')).
Proof.
  intros Hwf Hps Hd. unfold resolveWithInfo0, fuelFor. cbn [resolveWithInfo].
  apply Z.ltb_ge in Hd. rewrite Hd, (matchAll_render _ Hwf).
  exact (resolveMatches_segments _ segs Hwf Hps EmptyString [] h (produced_nil r)).
Qed.

End Template.

End TemplateFacts.

(* ================================================================== *)
(** * The claims on the resolver *)
(* ================================================================== *)

Module ResolverClaims.

Import JsString JsNumber Resolver Notions Samples.
Import StringFacts PatternFacts SourceOrder ResolverFacts NumberFacts GeneratorFacts.
Import TemplateFacts.

(** C1.  A placeholder that is looked up in the sources and that at least one
    source defines gets the value of the source that wins: among the sources
    that define the name (after the [env.] prefix is stripped) no source
    supplied before the winner reaches its priority, and no source supplied
    after it exceeds it.  That value is what [lookup] answers and what is
    handed to [String.prototype.replace] for the placeholder; and when the
    priorities are distinct, the resolver built from the sources in any other
    order is the same resolver. *)
Theorem C1_highest_priority_source_wins
        (iso : Z -> string) (srcs : list IVariableSource) (opts : ResolverOptions)
        (inner : string) :
  sourced inner = true ->
  (exists s, In s srcs /\ get s (lookupName (trim inner)) <> None) ->
  exists before winner after v,
    srcs = before ++ winner :: after
    /\ wins (lookupName (trim inner)) before winner after
    /\ get winner (lookupName (trim inner)) = Some v
    /\ lookup (constructor srcs opts) (trim inner) = Some v
    /\ (hasVariables v = false ->
        (0 <= maxDepth_ (options (constructor srcs opts)))%Z ->
        forall h,
          resolve iso (constructor srcs opts) (fullMatchOf inner) h
          = (Ok (GetSubstitution (fullMatchOf inner) "" "" v), h))
    /\ (forall srcs',
          Permutation srcs srcs' -> NoDup (map priority srcs) ->
          constructor srcs' opts = constructor srcs opts).
Proof.
  intros Hs Hdef.
  destruct (wins_exists _ _ Hdef) as (before & winner & after & Hsplit & Hwins).
  destruct (get winner (lookupName (trim inner))) as [v|] eqn:Ev;
    [| now destruct Hwins as [Hw _]].
  exists before, winner, after, v.
  assert (lookup (constructor srcs opts) (trim inner) = Some v) as Hl
      by (rewrite (lookup_winner _ _ _ _ _ _ Hsplit Hwins); exact Ev).
  repeat split; try assumption.
  - destruct Hwins as [Hw _]. exact Hw.
  - apply Hwins.
  - apply Hwins.
  - intros Hv Hd h. unfold resolve, bind, resolveWithInfo0, fuelFor.
    rewrite (resolveWithInfo_literal iso _ _ inner v 0 h (conj Hs Hl) Hv Hd).
    cbn [unresolved value List.length Nat.eqb negb]. now rewrite andb_false_r.
  - intros srcs' Hp Hn. unfold constructor. f_equal.
    symmetry. now apply sortSources_order_independent.
Qed.

Lemma C1_witness :
  exists before winner after v,
    [low; high] = before ++ winner :: after
    /\ wins (lookupName (trim "value")) before winner after
    /\ get winner (lookupName (trim "value")) = Some v
    /\ lookup (constructor [low; high] noOptions) (trim "value") = Some v
    /\ (hasVariables v = false ->
        (0 <= maxDepth_ (options (constructor [low; high] noOptions)))%Z ->
        forall h,
          resolve iso0 (constructor [low; high] noOptions) (fullMatchOf "value") h
          = (Ok (GetSubstitution (fullMatchOf "value") "" "" v), h))
    /\ (forall srcs',
          Permutation [low; high] srcs' -> NoDup (map priority [low; high]) ->
          constructor srcs' noOptions = constructor [low; high] noOptions).
Proof.
  apply (C1_highest_priority_source_wins iso0 [low; high] noOptions "value").
  - reflexivity.
  - exists high. split; [right; left; reflexivity | discriminate].
Defined.





(** The same template in both modes. *)
Example C2_lenient_keeps_placeholders :
  fst (resolve iso0 (constructor [found] lenientOptions)
               "{{found}} {{ notFound }} and {{notFound}}" host0)
  = Ok "yes {{ notFound }} and {{notFound}}".
Proof. reflexivity. Qed.

Example C2_strict_lists_each_occurrence :
  fst (resolve iso0 (constructor [found] strictOptions)
               "{{found}} {{ notFound }} and {{notFound}}" host0)
  = Throw "Unresolved variables: notFound, notFound".
Proof. reflexivity. Qed.


(** ** Recursive resolution *)

(** Resolution returns or throws: it never runs out of the fuel of the
    model. *)
Theorem resolution_terminates (iso : Z -> string) (r : VariableResolver)
        (template : string) (h : Host.t) :
  exhausted (fst (resolve iso r template h)) = false
  /\ exhausted (fst (resolveWithInfo0 iso r template h)) = false.
Proof. split; [apply resolve_total | apply resolveWithInfo0_total]. Qed.

(** A chain whose depth is within the maximum resolves to its literal as
    [String.prototype.replace] splices it, level by level; that is the
    literal itself when it has no dollar sign. *)
Theorem chain_resolves_within_depth (iso : Z -> string) (r : VariableResolver)
        (inners : list string) (literal : string) (h : Host.t) :
  chain r inners literal -> hasVariables literal = false ->
  (Z.of_nat (List.length inners) - 1 <= maxDepth_ (options r))%Z ->
  resolve iso r (fullMatchOf (hd EmptyString inners)) h
  = (Ok (chainValue inners literal), h)
  /\ (hasChar "$" literal = false -> chainValue inners literal = literal).
Proof.
  intros Hc Hl Hd. split; [| apply chainValue_plain].
  unfold resolve, bind, resolveWithInfo0.
  rewrite (chain_resolves iso r inners literal Hl (fuelFor r 0) 0 h Hc).
  - cbn [unresolved value List.length Nat.eqb negb]. now rewrite andb_false_r.
  - lia.
  - unfold fuelFor. lia.
Qed.

(** A circular chain ends in the failure of the depth check, in both modes
    and for every maximum depth. *)
Theorem circular_chain_fails (iso : Z -> string) (r : VariableResolver)
        (C : string -> Prop) (inner : string) (h : Host.t) :
  circular r C -> C inner ->
  resolve iso r (fullMatchOf inner) h = (Throw (depthMessage r), h)
  /\ isDepthFailure (depthMessage r) = true
  /\ isUnresolvedFailure (depthMessage r) = false.
Proof.
  intros HC Hin. split; [| split; reflexivity].
  unfold resolve, bind, resolveWithInfo0.
  rewrite (circular_throws iso r C HC (fuelFor r 0) inner 0 h Hin); [reflexivity |].
  unfold fuelFor. lia.
Qed.

Lemma circular_chain_fails_witness :
  resolve iso0 cycle (fullMatchOf "a") host0 = (Throw (depthMessage cycle), host0)
  /\ isDepthFailure (depthMessage cycle) = true
  /\ isUnresolvedFailure (depthMessage cycle) = false.
Proof.
  apply (circular_chain_fails iso0 cycle (fun x => x = "a" \/ x = "b") "a" host0).
  - intros x [-> | ->].
    + exists "b". split; [now right | split; reflexivity].
    + exists "a". split; [now left | split; reflexivity].
  - now left.
Defined.

Lemma chain_resolves_within_depth_witness :
  resolve iso0 (constructor [tableSource "chain" 100
                               [("a", "value"); ("b", "{{a}}"); ("c", "{{b}}");
                                ("d", "{{c}}")]] noOptions)
          (fullMatchOf (hd EmptyString ["d"; "c"; "b"; "a"])) host0
  = (Ok (chainValue ["d"; "c"; "b"; "a"] "value"), host0)
  /\ (hasChar "$" "value" = false -> chainValue ["d"; "c"; "b"; "a"] "value" = "value").
Proof.
  apply (chain_resolves_within_depth iso0 _ ["d"; "c"; "b"; "a"] "value" host0).
  - repeat split.
  - reflexivity.
  - cbn. lia.
Defined.

(** C3, at the input where the code departs from it.  In the chain
    [a -> b -> c -> "$$"], of depth 2 under the default maximum of 10, the
    literal has no placeholder, and [resolve("{{a}}")] returns one dollar
    sign: [String.prototype.replace] reads the two dollar signs of the
    replacement text as the pattern for one. *)
Theorem C3_chain_with_dollar_literal (iso : Z -> string) (h : Host.t) :
  chain dollarChain ["a"; "b"; "c"] "$$"
  /\ hasVariables "$$" = false
  /\ (Z.of_nat (List.length ["a"; "b"; "c"]) - 1 <= maxDepth_ (options dollarChain))%Z
  /\ resolve iso dollarChain "{{a}}" h = (Ok "$", h)
  /\ "$" <> "$$".
Proof.
  split; [repeat split |]. split; [reflexivity |]. split; [cbn; lia |].
  split; [| discriminate].
  exact (proj1 (chain_resolves_within_depth iso dollarChain ["a"; "b"; "c"] "$$" h
                  ltac:(repeat split) eq_refl ltac:(cbn; lia))).
Qed.

(** ** Built-in variables *)

Lemma resolve_segments (iso : Z -> string) (r : VariableResolver)
      (segs : list segment) (h : Host.t) :
  (forall t, plainValue (iso t) = true) ->
  wellFormed segs = true -> plainlySourced r segs = true ->
  (0 <= maxDepth_ (options r))%Z ->
  names (fst (expand iso r segs h)) = [] ->
  resolve iso r (render segs) h
  = (Ok (render (fst (expand iso r segs h))), snd (expand iso r segs h)).
Proof.
  intros Hiso Hwf Hps Hd Hn. unfold resolve, bind.
  rewrite (resolveWithInfo0_segments iso Hiso r segs h Hwf Hps Hd).
  destruct (expand iso r segs h) as [segs' h']. cbn [fst snd] in *.
  cbn [unresolved value]. rewrite Hn. cbn [List.length Nat.eqb negb].
  now rewrite andb_false_r.
Qed.

(** One placeholder of the generator table, and the same placeholder
    twice. *)
Lemma resolve_builtin (iso : Z -> string) (r : VariableResolver) :
  (forall t, plainValue (iso t) = true) ->
  (0 <= maxDepth_ (options r))%Z ->
  forall name (v : Host.t -> string) (k : Host.t -> Host.t),
    (forall h0, generate iso name h0 = (Some (v h0), k h0)) ->
    simple name = true -> isBuiltin (trim name) = true -> trim name = name ->
    forall h0,
      resolve iso r (fullMatchOf name) h0 = (Ok (v h0), k h0).
Proof.
  intros Hiso Hd name v k Hg Hs Hb Ht h0.
  assert (expand iso r [Placeholder name] h0 = ([Text (v h0)], k h0)) as E.
  { cbn [expand]. now rewrite Ht, Hg. }
  rewrite <- (append_nil_r (fullMatchOf name)).
  change (fullMatchOf name ++ "")%string with (render [Placeholder name]).
  rewrite (resolve_segments iso r [Placeholder name] h0 Hiso).
  - rewrite E. cbn [fst snd render]. now rewrite append_nil_r.
  - cbn [wellFormed forallb]. now rewrite Hs.
  - unfold plainlySourced. cbn [inners forallb]. now rewrite Hb.
  - exact Hd.
  - now rewrite E.
Qed.

Lemma resolve_builtin_twice (iso : Z -> string) (r : VariableResolver) :
  (forall t, plainValue (iso t) = true) ->
  (0 <= maxDepth_ (options r))%Z ->
  forall name (v : Host.t -> string) (k : Host.t -> Host.t),
    (forall h0, generate iso name h0 = (Some (v h0), k h0)) ->
    simple name = true -> isBuiltin (trim name) = true -> trim name = name ->
    forall h0,
      resolve iso r (fullMatchOf name ++ fullMatchOf name) h0
      = (Ok (v h0 ++ v (k h0))%string, k (k h0)).
Proof.
  intros Hiso Hd name v k Hg Hs Hb Ht h0.
  assert (expand iso r [Placeholder name; Placeholder name] h0
          = ([Text (v h0); Text (v (k h0))], k (k h0))) as E.
  { cbn [expand]. now rewrite Ht, !Hg. }
  rewrite <- (append_nil_r (fullMatchOf name)) at 2.
  change (fullMatchOf name ++ fullMatchOf name ++ "")%string
    with (render [Placeholder name; Placeholder name]).
  rewrite (resolve_segments iso r [Placeholder name; Placeholder name] h0 Hiso).
  - rewrite E. cbn [fst snd render]. now rewrite append_nil_r.
  - cbn [wellFormed forallb]. now rewrite Hs.
  - unfold plainlySourced. cbn [inners forallb]. now rewrite Hb.
  - exact Hd.
  - now rewrite E.
Qed.

Lemma generate_uuid (iso : Z -> string) (h : Host.t) :
  generate iso "$uuid" h = (Some (fst (generateUuid h)), snd (generateUuid h)).
Proof.
  change (generate iso "$uuid" h)
    with (let (u, h1) := generateUuid h in (Some u, h1)).
  now destruct (generateUuid h).
Qed.

Lemma generate_timestamp (iso : Z -> string) (h : Host.t) :
  generate iso "$timestamp" h
  = (Some (toString (fst (Host.Date_now h))), snd (Host.Date_now h)).
Proof. reflexivity. Qed.

Lemma generate_randomInt (iso : Z -> string) (h : Host.t) :
  generate iso "$randomInt" h
  = (Some (toString (fst (randomInt h))), snd (randomInt h)).
Proof.
  change (generate iso "$randomInt" h)
    with (let (i, h1) := randomInt h in (Some (toString i), h1)).
  now destruct (randomInt h).
Qed.

(** C9.  A placeholder whose name is in the generator table is resolved by
    its generator whatever the sources define, and every occurrence runs the
    generator again on the host as the occurrence before left it:
    [{{$uuid}}] becomes a string of the canonical version 4 pattern,
    [{{$timestamp}}] the decimal numeral of the reading of the clock,
    [{{$randomInt}}] the decimal numeral of an integer of [0, 1000000). *)
Theorem C9_builtin_placeholders
        (iso : Z -> string) (srcs : list IVariableSource) (opts : ResolverOptions)
        (h : Host.t) :
  (forall t, plainValue (iso t) = true) ->
  Host.random_ok h ->
  (0 <= maxDepth_ (options (constructor srcs opts)))%Z ->
  (forall segs,
      wellFormed segs = true -> plainlySourced (constructor srcs opts) segs = true ->
      resolveWithInfo0 iso (constructor srcs opts) (render segs) h
      = (let (segs', h') := expand iso (constructor srcs opts) segs h in
         (Ok {| value := render segs'; unresolved := names segs' |}, h')))
  /\ (resolve iso (constructor srcs opts) "{{$uuid}}" h
      = (Ok (fst (generateUuid h)), snd (generateUuid h))
      /\ isUuidV4 (fst (generateUuid h)) = true)
  /\ (resolve iso (constructor srcs opts) "{{$timestamp}}" h
      = (Ok (toString (fst (Host.Date_now h))), snd (Host.Date_now h))
      /\ parseDecimal (toString (fst (Host.Date_now h)))
         = Some (Host.clock h (Host.clock_reads h)))
  /\ (resolve iso (constructor srcs opts) "{{$randomInt}}" h
      = (Ok (toString (fst (randomInt h))), snd (randomInt h))
      /\ parseDecimal (toString (fst (randomInt h))) = Some (fst (randomInt h))
      /\ (0 <= fst (randomInt h) < 1000000)%Z)
  /\ resolve iso (constructor srcs opts) "{{$uuid}}{{$uuid}}" h
     = (Ok (fst (generateUuid h) ++ fst (generateUuid (snd (generateUuid h))))%string,
        snd (generateUuid (snd (generateUuid h)))).
Proof.
  intros Hiso Hrand Hd.
  split; [intros segs Hwf Hps; now apply resolveWithInfo0_segments |].
  split.
  { split; [| now apply generateUuid_v4].
    exact (resolve_builtin iso _ Hiso Hd "$uuid"
             (fun h0 => fst (generateUuid h0)) (fun h0 => snd (generateUuid h0))
             (generate_uuid iso) eq_refl eq_refl eq_refl h). }
  split.
  { split; [| apply parseDecimal_toString].
    exact (resolve_builtin iso _ Hiso Hd "$timestamp"
             (fun h0 => toString (fst (Host.Date_now h0)))
             (fun h0 => snd (Host.Date_now h0))
             (generate_timestamp iso) eq_refl eq_refl eq_refl h). }
  split.
  { split; [| split; [apply parseDecimal_toString | now apply randomInt_range]].
    exact (resolve_builtin iso _ Hiso Hd "$randomInt"
             (fun h0 => toString (fst (randomInt h0))) (fun h0 => snd (randomInt h0))
             (generate_randomInt iso) eq_refl eq_refl eq_refl h). }
  exact (resolve_builtin_twice iso _ Hiso Hd "$uuid"
           (fun h0 => fst (generateUuid h0)) (fun h0 => snd (generateUuid h0))
           (generate_uuid iso) eq_refl eq_refl eq_refl h).
Qed.

Lemma host0_random_ok : Host.random_ok host0.
Proof.
  intros i. split; [| cbn; lia].
  cbn [Host.randoms host0 mant]. apply Z.mod_pos_bound. reflexivity.
Qed.

Lemma C9_witness :
  (forall t, plainValue (iso0 t) = true)
  /\ Host.random_ok host0
  /\ (0 <= maxDepth_ (options (constructor [shadow] noOptions)))%Z
  /\ resolve iso0 (constructor [shadow] noOptions) "{{$uuid}}" host0
     = (Ok (fst (generateUuid host0)), snd (generateUuid host0))
  /\ isUuidV4 (fst (generateUuid host0)) = true.
Proof.
  assert (forall t, plainValue (iso0 t) = true) as H1 by (intros t; reflexivity).
  assert (0 <= maxDepth_ (options (constructor [shadow] noOptions)))%Z as H3
      by (cbn; lia).
  split; [exact H1 |]. split; [exact host0_random_ok |]. split; [exact H3 |].
  exact (proj1 (proj2 (C9_builtin_placeholders iso0 [shadow] noOptions host0
                         H1 host0_random_ok H3))).
Defined.

(** The source that defines [$uuid] is not asked. *)
Example C9_generator_before_sources :
  fst (resolve iso0 (constructor [shadow] noOptions)
               "{{$uuid}} {{ $TIMESTAMP }} {{$randomInt}} {{$UUID}}" host0)
  = Ok "05af38d2-7c05-4af4-8d27-c15af49e27c1 1706659200000 390365 bf49e38c-16b0-459e-b8d1-6b05ae38d27b".
Proof. vm_compute. reflexivity. Qed.

End ResolverClaims.

(* ================================================================== *)
(** * Script execution *)
(* ================================================================== *)

Module SandboxFacts.

Import JsString JsValue Types Sandbox PipelineNotions.





Lemma fillUuid_process_env (template : string) :
  forall h, Host.process_env (snd (Resolver.fillUuid template h)) = Host.process_env h.
Proof.
  induction template as [|c t IH]; intros h; cbn [Resolver.fillUuid]; [reflexivity |].
  destruct (Ascii.eqb c "x" || Ascii.eqb c "y").
  - assert (Host.process_env (snd (Host.Math_random h)) = Host.process_env h) as E
        by reflexivity.
    destruct (Host.Math_random h) as [x h1]. cbn [snd] in E. specialize (IH h1).
    destruct (Resolver.fillUuid t h1) as [tail h2]. cbn [snd] in *. congruence.
  - specialize (IH h). destruct (Resolver.fillUuid t h) as [tail h2]. exact IH.
Qed.

(** A run does not write to [process.env]. *)
Lemma runInContext_process_env (g : Given) (timeout : Z) (s : script) :
  forall e,
    Host.process_env (exec_host (snd (runInContext g timeout s e)))
    = Host.process_env (exec_host e).
Proof.
  induction s as [| t | | identifier k IH | name k IH | name v k IH | name k IH
                 | k IH | k IH | args k IH | actual m args k IH | m args k IH
                 | k IH | k IH | update k IH | index update k IH];
    intros e; cbn [runInContext].
  - reflexivity.
  - reflexivity.
  - reflexivity.
  - apply IH.
  - apply IH.
  - now rewrite IH.
  - apply IH.
  - pose proof (fillUuid_process_env "xxxxxxxx-xxxx-4xxx-yxxx-xxxxxxxxxxxx"
                                     (exec_host e)) as H.
    unfold Resolver.generateUuid.
    destruct (Resolver.fillUuid _ (exec_host e)) as [u h]. rewrite IH. exact H.
  - assert (Host.process_env (snd (Host.Date_now (exec_host e)))
            = Host.process_env (exec_host e)) as H by reflexivity.
    destruct (Host.Date_now (exec_host e)) as [t h]. rewrite IH. exact H.
  - now rewrite IH.
  - unfold expect. now rewrite IH.
  - now rewrite IH.
  - apply IH.
  - destruct (exec_response e) as [r|]; [| apply IH].
    destruct (json g r) as [answer r']. now rewrite IH.
  - now rewrite IH.
  - now rewrite IH.
Qed.

Lemma sameButEnv_refl (h : Host.t) : sameButEnv h h.
Proof. repeat split. Qed.




(** ** The parsed JSON that the view shares with the response *)

Lemma json_keeps (g : Given) (r : ResponseContextImpl) :
  ctx_json (snd (json g r)) = ctx_json r.
Proof.
  unfold json. destruct (ctx_json r) eqn:E; try (cbn [snd]; exact E).
  destruct (ctx_jsonParsed r); [cbn [snd]; exact E |].
  destruct (JSON_parse g (view_body (ctx_view r))); cbn [snd ctx_json];
    first [exact E | reflexivity].
Qed.

Lemma mutateInPlace_keeps (update : jsval -> jsval) (r : ResponseContextImpl) :
  heldByReference (ctx_json r) = false -> mutateInPlace update r = r.
Proof. unfold mutateInPlace. now destruct (ctx_json r). Qed.

(** A value that is not held by reference is the same after the run. *)
Lemma runInContext_json (g : Given) (timeout : Z) (s : script) (j : jsval) :
  heldByReference j = false ->
  forall e,
    (forall r, exec_response e = Some r -> ctx_json r = j) ->
    forall r, exec_response (snd (runInContext g timeout s e)) = Some r ->
              ctx_json r = j.
Proof.
  intros Hj.
  induction s as [| t | | identifier k IH | name k IH | name v k IH | name k IH
                 | k IH | k IH | args k IH | actual m args k IH | m args k IH
                 | k IH | k IH | update k IH | index update k IH];
    intros e He; cbn [runInContext].
  - exact He.
  - exact He.
  - exact He.
  - now apply IH.
  - now apply IH.
  - now apply IH.
  - now apply IH.
  - destruct (Resolver.generateUuid (exec_host e)) as [u h]. now apply IH.
  - destruct (Host.Date_now (exec_host e)) as [t h]. now apply IH.
  - now apply IH.
  - unfold expect. now apply IH.
  - now apply IH.
  - now apply IH.
  - destruct (exec_response e) as [r|] eqn:Er; [| apply IH; now rewrite Er].
    pose proof (json_keeps g r) as Hk.
    destruct (json g r) as [answer r']. cbn [snd] in Hk.
    apply IH. cbn [exec_response]. intros r0 [= <-]. rewrite Hk. now apply He.
  - apply IH. cbn [exec_response]. destruct (exec_response e) as [r|]; [| discriminate].
    intros r0 [= <-]. rewrite mutateInPlace_keeps; rewrite (He r eq_refl); easy.
  - now apply IH.
Qed.

Lemma jsonAfter_kept (g : Given) (s : ScriptSandbox) (code : string)
      (response : RadiusResponse) (h : Host.t) :
  heldByReference (Types.json response) = false ->
  jsonAfter g s code response h = Types.json response.
Proof.
  intros Hj. unfold jsonAfter.
  pose proof (runInContext_json g (timeout s) (evaluate g code) (Types.json response)
                Hj (startExecution s (Some response) h)) as H.
  destruct (exec_response (snd (runInContext g (timeout s) (evaluate g code)
                                             (startExecution s (Some response) h))))
    as [r|]; [| reflexivity].
  apply H; [| reflexivity]. cbn [startExecution exec_response]. now intros r0 [= <-].
Qed.

(** ** [executeScript] *)

Lemma executeScript_frame (g : Given) (s : ScriptSandbox) (code : string)
      (response : option RadiusResponse) (h : Host.t) :
  let '(result, s', _) := executeScript g s code response h in
  assertions (context s') = result_assertions result
  /\ result_variables result = variables (context s')
  /\ timeout s' = timeout s /\ env s' = env s.
Proof.
  unfold executeScript.
  destruct (runInContext g (timeout s) (evaluate g code)
                         (startExecution s response h)) as [outcome e].
  now repeat split.
Qed.


(** A result that is not a success carries a message. *)
Lemma executeScript_error (g : Given) (s : ScriptSandbox) (code : string)
      (response : option RadiusResponse) (h : Host.t) :
  let result := fst (fst (executeScript g s code response h)) in
  success result = false -> exists message, error result = Some message.
Proof.
  unfold executeScript.
  destruct (runInContext g (timeout s) (evaluate g code)
                         (startExecution s response h)) as [[t|] e];
    cbn [fst success error]; intros H; [now exists (errorMessage t) | discriminate].
Qed.

Lemma executeScript_process_env (g : Given) (s : ScriptSandbox) (code : string)
      (response : option RadiusResponse) (h : Host.t) :
  Host.process_env (snd (executeScript g s code response h)) = Host.process_env h.
Proof.
  unfold executeScript.
  pose proof (runInContext_process_env g (timeout s) (evaluate g code)
                                       (startExecution s response h)) as H.
  destruct (runInContext g (timeout s) (evaluate g code)
                         (startExecution s response h)) as [outcome e].
  exact H.
Qed.





End SandboxFacts.

(* ================================================================== *)
(** * Maps in insertion order *)
(* ================================================================== *)

Module MapFacts.

Import JsValue.

Section Maps.
Context {V : Type}.

Lemma Map_get_set_same (m : Map V) (k : string) (v : V) :
  Map_get (Map_set m k v) k = Some v.
Proof.
  induction m as [|[k' v'] m IH]; cbn [Map_set Map_get].
  - now rewrite String.eqb_refl.
  - destruct (k' =? k)%string eqn:E; cbn [Map_get].
    + now rewrite String.eqb_refl.
    + now rewrite E.
Qed.

Lemma Map_get_set_other (m : Map V) (k k' : string) (v : V) :
  k <> k' -> Map_get (Map_set m k v) k' = Map_get m k'.
Proof.
  intros Hne. induction m as [|[k0 v0] m IH]; cbn [Map_set Map_get].
  - apply String.eqb_neq in Hne. now rewrite Hne.
  - destruct (k0 =? k)%string eqn:E; cbn [Map_get].
    + apply String.eqb_eq in E. subst k0.
      apply String.eqb_neq in Hne. now rewrite Hne.
    + now rewrite IH.
Qed.

Lemma Map_get_In (m : Map V) (k : string) (v : V) :
  Map_get m k = Some v -> In k (map fst m).
Proof.
  induction m as [|[k0 v0] m IH]; cbn [Map_get map fst]; [discriminate |].
  destruct (k0 =? k)%string eqn:E.
  - apply String.eqb_eq in E. now left.
  - intros H. right. now apply IH.
Qed.

(** Setting a key keeps the keys there are. *)
Lemma Map_set_defined (m : Map V) (k k' : string) (v : V) :
  Map_get m k' <> None -> Map_get (Map_set m k v) k' <> None.
Proof.
  intros H. destruct (String.eqb_spec k k') as [->|Hne].
  - now rewrite Map_get_set_same.
  - now rewrite Map_get_set_other.
Qed.



Lemma Map_set_keys (m : Map V) (k x : string) (v : V) :
  In x (map fst (Map_set m k v)) <-> x = k \/ In x (map fst m).
Proof.
  induction m as [|[k0 v0] m IH]; cbn [Map_set map fst In].
  - intuition.
  - destruct (String.eqb_spec k0 k) as [->|Hne]; cbn [map fst In]; intuition.
Qed.

Lemma Map_set_NoDup (m : Map V) (k : string) (v : V) :
  NoDup (map fst m) -> NoDup (map fst (Map_set m k v)).
Proof.
  induction m as [|[k0 v0] m IH]; intros Hnd; cbn [Map_set map fst].
  - constructor; [intros [] | constructor].
  - apply NoDup_cons_iff in Hnd as [Hnotin Hnd].
    destruct (String.eqb_spec k0 k) as [->|Hne]; cbn [map fst].
    + now constructor.
    + constructor; [| now apply IH].
      intros Hin. apply Map_set_keys in Hin as [->|Hin]; [now apply Hne | now apply Hnotin].
Qed.

Lemma Map_setAll_NoDup (entries : list (string * V)) :
  forall m : Map V, NoDup (map fst m) -> NoDup (map fst (Map_setAll m entries)).
Proof.
  unfold Map_setAll.
  induction entries as [|[k0 v0] rest IH]; intros m Hnd; cbn [fold_left fst snd];
    [exact Hnd |].
  apply IH. now apply Map_set_NoDup.
Qed.

(** ** Entries assigned to the properties of a new object *)

Lemma Map_get_assignedTo (m : Map V) (k : string) :
  Map_get (assignedTo m) k
  = if (k =? "__proto__")%string then None else Map_get m k.
Proof.
  induction m as [|[k0 v0] m IH]; cbn [assignedTo Map_get].
  - now destruct (k =? "__proto__")%string.
  - destruct (String.eqb_spec k0 "__proto__") as [E0 | Hk0].
    + rewrite IH, E0. destruct (String.eqb_spec k "__proto__") as [E | Hk]; [reflexivity |].
      destruct (String.eqb_spec "__proto__" k) as [E | _]; [now elim Hk |]. reflexivity.
    + cbn [Map_get]. rewrite IH.
      destruct (String.eqb_spec k0 k) as [E | _]; [| reflexivity].
      rewrite <- E.
      destruct (String.eqb_spec k0 "__proto__") as [E' | _]; [now elim Hk0 |]. reflexivity.
Qed.

Lemma assignedTo_keys (m : Map V) (x : string) :
  In x (map fst (assignedTo m)) -> In x (map fst m).
Proof.
  induction m as [|[k0 v0] m IH]; cbn [assignedTo map fst]; [easy |].
  destruct (k0 =? "__proto__")%string; cbn [map fst In]; intuition.
Qed.

Lemma assignedTo_NoDup (m : Map V) :
  NoDup (map fst m) -> NoDup (map fst (assignedTo m)).
Proof.
  induction m as [|[k0 v0] m IH]; cbn [assignedTo map fst]; intros H; [constructor |].
  inversion H as [|? ? Hn Hm]; subst.
  destruct (k0 =? "__proto__")%string; [now apply IH |].
  cbn [map fst]. constructor; [| now apply IH].
  intros Hin. apply Hn. now apply assignedTo_keys.
Qed.

(** An object without a property of that name is assigned as it is. *)
Lemma assignedTo_same (m : Map V) :
  Map_get m "__proto__" = None -> assignedTo m = m.
Proof.
  induction m as [|[k0 v0] m IH]; cbn [assignedTo Map_get]; [reflexivity |].
  destruct (k0 =? "__proto__")%string; [discriminate |].
  intros H. now rewrite IH.
Qed.

Lemma Map_get_none_notin (m : Map V) (k : string) :
  ~ In k (map fst m) -> Map_get m k = None.
Proof.
  induction m as [|[k0 v0] m IH]; cbn [Map_get map fst In]; [reflexivity |].
  intros H. destruct (String.eqb_spec k0 k) as [-> | _]; [elim H; now left |].
  apply IH. intros Hin. apply H. now right.
Qed.

(** With distinct keys, the assignment loses one entry at most. *)
Lemma assignedTo_length (m : Map V) :
  NoDup (map fst m) ->
  List.length (assignedTo m)
  = match Map_get m "__proto__" with
    | Some _ => (List.length m - 1)%nat
    | None => List.length m
    end.
Proof.
  induction m as [|[k0 v0] m IH]; cbn [assignedTo Map_get map fst]; intros H;
    [reflexivity |].
  inversion H as [|? ? Hn Hm]; subst.
  destruct (String.eqb_spec k0 "__proto__") as [-> | _].
  - rewrite (assignedTo_same m (Map_get_none_notin m _ Hn)).
    cbn [List.length]. lia.
  - cbn [List.length]. rewrite (IH Hm).
    destruct (Map_get m "__proto__") as [v|] eqn:E; [| reflexivity].
    destruct m; [discriminate E |]. cbn [List.length]. lia.
Qed.

End Maps.

End MapFacts.

(* ================================================================== *)
(** * The session as a source *)
(* ================================================================== *)

Module SessionFacts.

Import JsString JsValue Resolver Session Notions SourceOrder.
Local Open Scope Z_scope.



(** The first source of the caller wins when no other defining source has a
    higher priority. *)
Lemma lookup_first (x : IVariableSource) (rest : list IVariableSource)
      (opts : ResolverOptions) (name : string) :
  Resolver.get x (lookupName name) <> None ->
  (forall s, In s rest -> Resolver.get s (lookupName name) <> None ->
             Resolver.priority s <= Resolver.priority x) ->
  lookup (Resolver.constructor (x :: rest) opts) name
  = Resolver.get x (lookupName name).
Proof.
  intros Hx Hrest.
  apply (lookup_winner (x :: rest) [] rest x opts name eq_refl).
  split; [exact Hx | split; [intros s [] | exact Hrest]].
Qed.

Lemma sourceGet_defined (s : SessionManager) (key : string) (v : jsval) :
  Map_get (variables s) key = Some v -> v <> JUndefined ->
  sourceGet s key = Some (String_ v).
Proof.
  intros Hg Hv. unfold sourceGet, Session.get. rewrite Hg.
  destruct v; try reflexivity. now elim Hv.
Qed.


End SessionFacts.

(* ================================================================== *)
(** * Claims about the session source *)
(* ================================================================== *)

Module SessionClaims.

Import JsString JsValue Resolver Session Notions SessionFacts Samples.
Local Open Scope Z_scope.



End SessionClaims.

(* ================================================================== *)
(** * The steps of a request *)
(* ================================================================== *)

Module RunnerFacts.

Import JsString JsValue Types Runner PipelineNotions SandboxFacts.

Lemma begin_spec (c : Collaborators) (request : jsval) (r : Runner) :
  begin c request r
  = (fst (Resolver.resolveObject (Sandbox.toISOString (given c)) (resolver c r)
                                 request (host r)),
     {| host := snd (Resolver.resolveObject (Sandbox.toISOString (given c))
                                            (resolver c r) request (host r));
        runnerOptions := runnerOptions r; session := session r;
        sandbox := seeded r; sent := sent r; warnings := warnings r |}).
Proof.
  unfold begin, bind, resetContext, seedSandbox, update, resolveRequest, seeded.
  cbn [session].
  destruct (session r) as [s|] eqn:E.
  - unfold resolver at 1. cbn [host runnerOptions session sandbox sent warnings].
    unfold resolver. rewrite E.
    now destruct (Resolver.resolveObject _ _ request (host r)) as [o h].
  - unfold resolver at 1. cbn [host runnerOptions session sandbox sent warnings].
    unfold resolver. rewrite E.
    now destruct (Resolver.resolveObject _ _ request (host r)) as [o h].
Qed.

(** ** The pre-script step *)

Lemma runPreScript_absent (c : Collaborators) (resolved : jsval) (r : Runner) :
  truthy (scriptOf resolved "pre") = false ->
  runPreScript c resolved r = (Ok None, r).
Proof. intros H. unfold runPreScript. now rewrite H. Qed.

Lemma runPreScript_failure (c : Collaborators) (resolved : jsval) (r : Runner)
      (preResult : Sandbox.ScriptResult) (sb : Sandbox.ScriptSandbox) (h : Host.t) :
  truthy (scriptOf resolved "pre") = true ->
  Sandbox.runPre (given c) (sandbox r) (String_ (scriptOf resolved "pre")) (host r)
  = (preResult, sb, h) ->
  Sandbox.success preResult = false ->
  runPreScript c resolved r
  = (Ok (Some (createErrorResponse
                 ("Pre-script error: " ++ interpolate (Sandbox.error preResult))
                 (getProp (getProp resolved "request") "method")
                 (getProp (getProp resolved "request") "url"))),
     {| host := h; runnerOptions := runnerOptions r; session := session r;
        sandbox := sb; sent := sent r; warnings := warnings r |}).
Proof.
  intros Ht Hrun Hs. unfold Sandbox.runPre in Hrun.
  unfold runPreScript, bind, runScript. rewrite Ht, Hrun, Hs. reflexivity.
Qed.

Lemma runPreScript_success (c : Collaborators) (resolved : jsval) (r : Runner)
      (preResult : Sandbox.ScriptResult) (sb : Sandbox.ScriptSandbox) (h : Host.t) :
  truthy (scriptOf resolved "pre") = true ->
  Sandbox.runPre (given c) (sandbox r) (String_ (scriptOf resolved "pre")) (host r)
  = (preResult, sb, h) ->
  Sandbox.success preResult = true ->
  runPreScript c resolved r
  = (Ok None,
     {| host := h; runnerOptions := runnerOptions r;
        session := persisted (session r) (Sandbox.result_variables preResult);
        sandbox := sb; sent := sent r; warnings := warnings r |}).
Proof.
  intros Ht Hrun Hs. unfold Sandbox.runPre in Hrun.
  unfold runPreScript, bind, runScript. rewrite Ht, Hrun, Hs.
  cbn [negb]. unfold persist, update, ret, persisted.
  cbn [session host runnerOptions sandbox sent warnings].
  destruct (session r) as [m|]; [| reflexivity].
  now destruct (0 <? List.length (Sandbox.result_variables preResult))%nat.
Qed.

(** The two ways in which the pre-script step lets the request go on. *)
Lemma runPreScript_continues (c : Collaborators) (resolved : jsval) (r r2 : Runner) :
  runPreScript c resolved r = (Ok None, r2) ->
  (truthy (scriptOf resolved "pre") = false /\ r2 = r)
  \/ (truthy (scriptOf resolved "pre") = true
      /\ exists preResult sb h,
          Sandbox.runPre (given c) (sandbox r) (String_ (scriptOf resolved "pre"))
                         (host r) = (preResult, sb, h)
          /\ Sandbox.success preResult = true
          /\ r2 = {| host := h; runnerOptions := runnerOptions r;
                     session := persisted (session r)
                                          (Sandbox.result_variables preResult);
                     sandbox := sb; sent := sent r; warnings := warnings r |}).
Proof.
  intros H. destruct (truthy (scriptOf resolved "pre")) eqn:Ht.
  - right. split; [reflexivity |].
    destruct (Sandbox.runPre (given c) (sandbox r)
                             (String_ (scriptOf resolved "pre")) (host r))
      as [[preResult sb] h] eqn:Hrun.
    destruct (Sandbox.success preResult) eqn:Hs.
    + rewrite (runPreScript_success c resolved r _ _ _ Ht Hrun Hs) in H.
      exists preResult, sb, h. split; [reflexivity | split; [exact Hs |]].
      now injection H as <-.
    + rewrite (runPreScript_failure c resolved r _ _ _ Ht Hrun Hs) in H.
      discriminate.
  - left. split; [reflexivity |].
    rewrite (runPreScript_absent c resolved r Ht) in H. now injection H as <-.
Qed.

Lemma runPreScript_frame (c : Collaborators) (resolved : jsval) (r r2 : Runner) :
  runPreScript c resolved r = (Ok None, r2) ->
  sent r2 = sent r /\ warnings r2 = warnings r /\ runnerOptions r2 = runnerOptions r.
Proof.
  intros H.
  destruct (runPreScript_continues c resolved r r2 H)
    as [[_ ->] | (_ & preResult & sb & h & _ & _ & ->)]; now repeat split.
Qed.

(** ** The whole request *)

Lemma execute_failure (c : Collaborators) (request resolved : jsval)
      (r r1 r2 : Runner) (errorResponse : RadiusResponse) :
  begin c request r = (Ok resolved, r1) ->
  runPreScript c resolved r1 = (Ok (Some errorResponse), r2) ->
  execute c request r = (Ok errorResponse, r2).
Proof. intros H1 H2. unfold execute, bind. now rewrite H1, H2. Qed.

Lemma execute_steps (c : Collaborators) (request resolved : jsval)
      (r r1 r2 : Runner) :
  begin c request r = (Ok resolved, r1) ->
  runPreScript c resolved r1 = (Ok None, r2) ->
  execute c request r
  = runPostScript c resolved (transport c (sent r2) resolved)
                  (afterSend c resolved r2).
Proof. intros H1 H2. unfold execute, bind. now rewrite H1, H2. Qed.

(** ** The post-script step *)


Lemma runPostScript_spec (c : Collaborators) (resolved : jsval)
      (response : RadiusResponse) (r : Runner)
      (postResult : Sandbox.ScriptResult) (sb : Sandbox.ScriptSandbox) (h : Host.t) :
  truthy (scriptOf resolved "post") = true ->
  Sandbox.runPost (given c) (sandbox r) (String_ (scriptOf resolved "post"))
                  response (host r) = (postResult, sb, h) ->
  let shared :=
    setJson response
            (Sandbox.jsonAfter (given c) (sandbox r)
                               (String_ (scriptOf resolved "post")) response (host r)) in
  let response1 :=
    if (0 <? List.length (Sandbox.result_logs postResult))%nat
    then setScriptLogs shared (Sandbox.result_logs postResult)
    else shared in
  let response2 :=
    if (0 <? List.length (Sandbox.result_assertions postResult))%nat
    then setAssertions response1 (Sandbox.result_assertions postResult)
    else response1 in
  runPostScript c resolved response r
  = (Ok response2,
     {| host := h; runnerOptions := runnerOptions r;
        session := persisted (session r) (Sandbox.result_variables postResult);
        sandbox := sb; sent := sent r;
        warnings :=
          warnings r
          ++ (if Sandbox.success postResult then []
              else [("Post-script error: "
                     ++ interpolate (Sandbox.error postResult))%string]) |}).
Proof.
  intros Ht Hrun.
  unfold runPostScript, bind, runPostOn. rewrite Ht, Hrun. cbn [fst snd].
  unfold warn, persist, update, ret, persisted.
  destruct (Sandbox.success postResult); cbn [negb];
    cbn [session host runnerOptions sandbox sent warnings];
    rewrite ?app_nil_r;
    (destruct (session r) as [m|];
     [destruct (0 <? List.length (Sandbox.result_variables postResult))%nat |]);
    reflexivity.
Qed.

(** ** Where the outcomes of a request are recorded *)

Lemma seeded_assertions (r : Runner) :
  Sandbox.assertions (Sandbox.context (seeded r)) = [].
Proof. unfold seeded. now destruct (session r). Qed.

Lemma seeded_env (r : Runner) : Sandbox.env (seeded r) = Sandbox.env (sandbox r).
Proof. unfold seeded. now destruct (session r). Qed.


(** ** The variables of the context *)

(** What holds of the variables and is kept by [Map.set] holds after a
    run. *)
Lemma runInContext_variables (P : Map jsval -> Prop)
      (g : Sandbox.Given) (timeout : Z) (s : Sandbox.script) :
  (forall m k v, P m -> P (Map_set m k v)) ->
  forall e,
    P (Sandbox.variables (Sandbox.exec_context e)) ->
    P (Sandbox.variables
         (Sandbox.exec_context (snd (Sandbox.runInContext g timeout s e)))).
Proof.
  intros Hset.
  induction s as [| t | | identifier k IH | name k IH | name v k IH | name k IH
                 | k IH | k IH | args k IH | actual m args k IH | m args k IH
                 | k IH | k IH | update k IH | index update k IH];
    intros e He; cbn [Sandbox.runInContext].
  - exact He.
  - exact He.
  - exact He.
  - now apply IH.
  - now apply IH.
  - apply IH. cbn [Sandbox.exec_context Sandbox.setVariable Sandbox.variables].
    now apply Hset.
  - now apply IH.
  - destruct (Resolver.generateUuid (Sandbox.exec_host e)) as [u h]. now apply IH.
  - destruct (Host.Date_now (Sandbox.exec_host e)) as [t h]. now apply IH.
  - now apply IH.
  - unfold Sandbox.expect. now apply IH.
  - now apply IH.
  - now apply IH.
  - destruct (Sandbox.exec_response e) as [r|]; [| now apply IH].
    destruct (Sandbox.json g r) as [answer r']. now apply IH.
  - now apply IH.
  - now apply IH.
Qed.

Lemma executeScript_variables (P : Map jsval -> Prop)
      (g : Sandbox.Given) (s : Sandbox.ScriptSandbox) (code : string)
      (response : option RadiusResponse) (h : Host.t) :
  (forall m k v, P m -> P (Map_set m k v)) ->
  P (Sandbox.variables (Sandbox.context s)) ->
  P (Sandbox.result_variables (fst (fst (Sandbox.executeScript g s code response h)))).
Proof.
  intros Hset Hs. unfold Sandbox.executeScript.
  pose proof (runInContext_variables P g (Sandbox.timeout s)
                (Sandbox.evaluate g code)
                Hset (Sandbox.startExecution s response h) Hs) as H.
  destruct (Sandbox.runInContext g (Sandbox.timeout s) (Sandbox.evaluate g code)
                                 (Sandbox.startExecution s response h))
    as [outcome e].
  exact H.
Qed.

Lemma seeded_NoDup (r : Runner) :
  NoDup (map fst (Sandbox.variables (Sandbox.context (seeded r)))).
Proof.
  unfold seeded. destruct (session r) as [s|].
  - cbn [Sandbox.setSandboxVariables Sandbox.withContext Sandbox.context
         Sandbox.setVariables Sandbox.variables Sandbox.resetContext
         Sandbox.newContext].
    apply MapFacts.Map_setAll_NoDup. constructor.
  - constructor.
Qed.



(** The resolver of a runner finds what its session holds, unless a source
    of higher priority defines the name. *)
Lemma resolver_lookup_session (c : Collaborators) (r : Runner)
      (s : Session.SessionManager) (name : string) (v : jsval) :
  session r = Some s ->
  Map_get (Session.variables s) (Resolver.lookupName name) = Some v ->
  v <> JUndefined ->
  (forall x, In x (buildVariableSources c (host r) (runnerOptions r)) ->
             Resolver.get x (Resolver.lookupName name) <> None ->
             (Resolver.priority x <= Session.priority s)%Z) ->
  Resolver.lookup (resolver c r) name = Some (String_ v).
Proof.
  intros Hs Hg Hv Hp. unfold resolver. rewrite Hs.
  pose proof (SessionFacts.sourceGet_defined s _ v Hg Hv) as Hget.
  rewrite SessionFacts.lookup_first.
  - exact Hget.
  - cbn [Session.getVariableSource Resolver.get]. now rewrite Hget.
  - exact Hp.
Qed.


End RunnerFacts.

(* ================================================================== *)
(** * A request after another *)
(* ================================================================== *)

Module ChainFacts.

Import JsString JsValue Types Runner PipelineNotions SandboxFacts RunnerFacts.



End ChainFacts.

(* ================================================================== *)
(** * Claims about the sandbox and the request pipeline *)
(* ================================================================== *)

Module PipelineClaims.

Import JsString JsValue Types Runner PipelineNotions SandboxFacts RunnerFacts Samples.

(** C5.  When the pre-script of a request fails, [execute] returns the
    response that [createErrorResponse] builds: status 0, status text
    [Error], and as body the message of the failure after the words
    [Pre-script error: ]; the transport has been handed no request. *)
Theorem C5_pre_script_failure
        (c : Collaborators) (request resolved : jsval) (r r1 : Runner)
        (preResult : Sandbox.ScriptResult) (sb : Sandbox.ScriptSandbox) (h : Host.t) :
  begin c request r = (Ok resolved, r1) ->
  truthy (scriptOf resolved "pre") = true ->
  Sandbox.runPre (given c) (sandbox r1) (String_ (scriptOf resolved "pre")) (host r1)
  = (preResult, sb, h) ->
  Sandbox.success preResult = false ->
  exists response r' message,
    execute c request r = (Ok response, r')
    /\ Sandbox.error preResult = Some message
    /\ status response = 0%Z
    /\ statusText response = "Error"
    /\ body response = ("Pre-script error: " ++ message)%string
    /\ headers response = [] /\ json response = JNull
    /\ _assertions response = None /\ _scriptLogs response = None
    /\ sent r' = sent r.
Proof.
  intros Hb Ht Hrun Hs.
  pose proof (executeScript_error (given c) (sandbox r1)
                (String_ (scriptOf resolved "pre")) None (host r1)) as He.
  unfold Sandbox.runPre in Hrun. rewrite Hrun in He. cbn [fst] in He.
  destruct (He Hs) as [message Hm].
  pose proof (runPreScript_failure c resolved r1 preResult sb h Ht Hrun Hs) as Hp.
  rewrite (begin_spec c request r) in Hb. injection Hb as Hres Hr1.
  eexists _, _, message. split.
  - apply (execute_failure c request resolved r r1 _ _); [| exact Hp].
    rewrite (begin_spec c request r). now rewrite Hres, Hr1.
  - rewrite Hm. cbn [interpolate createErrorResponse status statusText body headers
                     json _assertions _scriptLogs sent].
    rewrite <- Hr1. cbn [sent]. now repeat split.
Qed.

Lemma C5_witness :
  exists response r' message,
    execute collaborators0 failingPre runner0 = (Ok response, r')
    /\ Sandbox.error
         (fst (fst (Sandbox.runPre given0 (seeded runner0) throwsNoToken stillHost)))
       = Some message
    /\ status response = 0%Z
    /\ statusText response = "Error"
    /\ body response = ("Pre-script error: " ++ message)%string
    /\ headers response = [] /\ json response = JNull
    /\ _assertions response = None /\ _scriptLogs response = None
    /\ sent r' = sent runner0.
Proof.
  apply (C5_pre_script_failure collaborators0 failingPre failingPre runner0
           (snd (begin collaborators0 failingPre runner0))
           _ (snd (fst (Sandbox.runPre given0 (seeded runner0) throwsNoToken stillHost)))
           (snd (Sandbox.runPre given0 (seeded runner0) throwsNoToken stillHost))).
  - reflexivity.
  - reflexivity.
  - reflexivity.
  - reflexivity.
Defined.

(** C6 fails of the code for a post-script that changes the object that
    [response.json()] gave it and then throws.  [ResponseContextImpl] copies
    the headers of the response and keeps its parsed JSON as it is, so the
    view that the specification calls read-only hands the script the object
    of the response, and the response that [execute] returns has the
    change. *)
Lemma C6_counterexample :
  json (answersJson [] mutatingPost) = JObj [("id", JNum 1)]
  /\ json (answered collaborators1 mutatingPost) = JObj [("id", JNum 2)]
  /\ ~ postFailureKeepsResponse.
Proof.
  split; [reflexivity |]. split; [vm_compute; reflexivity |]. intros H.
  assert (begin collaborators1 mutatingPost runner0
          = (Ok mutatingPost, begun collaborators1 mutatingPost)) as E1
      by (vm_compute; reflexivity).
  assert (runPreScript collaborators1 mutatingPost (begun collaborators1 mutatingPost)
          = (Ok None, prepared collaborators1 mutatingPost)) as E2
      by (vm_compute; reflexivity).
  assert (execute collaborators1 mutatingPost runner0
          = (Ok (answered collaborators1 mutatingPost),
             finished collaborators1 mutatingPost)) as E3
      by (vm_compute; reflexivity).
  pose proof (H collaborators1 mutatingPost mutatingPost runner0
                (begun collaborators1 mutatingPost)
                (prepared collaborators1 mutatingPost)
                (finished collaborators1 mutatingPost)
                (answered collaborators1 mutatingPost)
                E1 E2 eq_refl ltac:(vm_compute; reflexivity) E3)
    as (_ & _ & _ & _ & E & _).
  vm_compute in E. discriminate E.
Qed.

(** C6, what the code does.  When the post-script of a request fails,
    [execute] returns the response that the transport gave: status, status
    text, headers, body, timing and request are the transport's; the failure
    is one more line of the warnings; the two fields of logs and assertions
    are attached when the script left any.  The parsed JSON is the one field
    that the failed script can have changed: it is what the script left of
    it, which is the transport's value when that is not an object or an
    array. *)
Theorem C6_post_script_failure
        (c : Collaborators) (request resolved : jsval) (r r1 r2 : Runner)
        (postResult : Sandbox.ScriptResult) (sb : Sandbox.ScriptSandbox) (h : Host.t) :
  begin c request r = (Ok resolved, r1) ->
  runPreScript c resolved r1 = (Ok None, r2) ->
  truthy (scriptOf resolved "post") = true ->
  Sandbox.runPost (given c) (sandbox r2) (String_ (scriptOf resolved "post"))
                  (transport c (sent r2) resolved) (host r2)
  = (postResult, sb, h) ->
  Sandbox.success postResult = false ->
  exists response r' message,
    execute c request r = (Ok response, r')
    /\ sameButJson response (transport c (sent r2) resolved)
    /\ json response
       = Sandbox.jsonAfter (given c) (sandbox r2) (String_ (scriptOf resolved "post"))
                           (transport c (sent r2) resolved) (host r2)
    /\ (heldByReference (json (transport c (sent r2) resolved)) = false ->
        sameResponse response (transport c (sent r2) resolved))
    /\ Sandbox.error postResult = Some message
    /\ warnings r' = warnings r ++ [("Post-script error: " ++ message)%string]
    /\ sent r' = sent r ++ [resolved]
    /\ _scriptLogs response
       = (if (0 <? List.length (Sandbox.result_logs postResult))%nat
          then Some (Sandbox.result_logs postResult)
          else _scriptLogs (transport c (sent r2) resolved))
    /\ _assertions response
       = (if (0 <? List.length (Sandbox.result_assertions postResult))%nat
          then Some (Sandbox.result_assertions postResult)
          else _assertions (transport c (sent r2) resolved)).
Proof.
  intros Hb Hpre Ht Hrun Hs.
  pose proof (executeScript_error (given c) (sandbox r2)
                (String_ (scriptOf resolved "post"))
                (Some (transport c (sent r2) resolved)) (host r2)) as He.
  pose proof Hrun as Hrun'. unfold Sandbox.runPost in Hrun'.
  rewrite Hrun' in He. cbn [fst] in He.
  destruct (He Hs) as [message Hm].
  destruct (runPreScript_frame c resolved r1 r2 Hpre) as (Hsent & Hwarn & _).
  assert (sent r1 = sent r /\ warnings r1 = warnings r) as [Hsent1 Hwarn1].
  { rewrite (begin_spec c request r) in Hb. injection Hb as _ <-. now split. }
  pose proof (runPostScript_spec c resolved (transport c (sent r2) resolved)
                (afterSend c resolved r2) postResult sb h Ht Hrun) as Hpost.
  cbv zeta in Hpost.
  pose proof (jsonAfter_kept (given c) (sandbox r2)
                (String_ (scriptOf resolved "post"))
                (transport c (sent r2) resolved) (host r2)) as Hkept.
  eexists _, _, message. split.
  - rewrite (execute_steps c request resolved r r1 r2 Hb Hpre). exact Hpost.
  - rewrite Hs, Hm. unfold afterSend, send.
    cbn [snd sent warnings interpolate sandbox host].
    assert (warnings r2 = warnings r /\ sent r2 = sent r) as [Hw Hsn]
        by (split; congruence).
    destruct (0 <? List.length (Sandbox.result_logs postResult))%nat,
             (0 <? List.length (Sandbox.result_assertions postResult))%nat;
      unfold sameButJson, sameResponse, setAssertions, setScriptLogs, setJson;
      cbn [status statusText headers body json timing Types.request
           _scriptLogs _assertions];
      (split; [now repeat split |]; split; [reflexivity |];
       split; [intros Hj; repeat split; try reflexivity; now apply Hkept |];
       split; [reflexivity |]; split; [now rewrite Hw |];
       split; [now rewrite Hsn |]; now split).
Qed.

Lemma C6_witness :
  exists response r' message,
    execute collaborators0 failingPost runner0 = (Ok response, r')
    /\ sameButJson response (echo [] failingPost)
    /\ json response
       = Sandbox.jsonAfter given0 (seeded runner0) checksThenThrows
                           (echo [] failingPost) stillHost
    /\ (heldByReference (json (echo [] failingPost)) = false ->
        sameResponse response (echo [] failingPost))
    /\ Some "boom" = Some message
    /\ warnings r' = warnings runner0 ++ [("Post-script error: " ++ message)%string]
    /\ sent r' = sent runner0 ++ [failingPost]
    /\ _scriptLogs response = None
    /\ _assertions response
       = Some [sampleBuilder (JNum 200) Sandbox.toBeDefined []].
Proof.
  assert (begin collaborators0 failingPost runner0
          = (Ok failingPost, begun collaborators0 failingPost)) as E1
      by (vm_compute; reflexivity).
  exact (C6_post_script_failure collaborators0 failingPost failingPost runner0
           (begun collaborators0 failingPost) (begun collaborators0 failingPost)
           (fst (fst (Sandbox.runPost given0 (seeded runner0) checksThenThrows
                                      (echo [] failingPost) stillHost)))
           (snd (fst (Sandbox.runPost given0 (seeded runner0) checksThenThrows
                                      (echo [] failingPost) stillHost)))
           (snd (Sandbox.runPost given0 (seeded runner0) checksThenThrows
                                 (echo [] failingPost) stillHost))
           E1 eq_refl eq_refl eq_refl eq_refl).
Defined.











(** Scenario B twice in one run: the placeholder of the first request is
    left as it is, the second request finds the variable of the first. *)
Example C8_chained_requests :
  bodies (fst (executeAll collaborators0 [preOnly; preOnly] runner0))
  = [ "https://api.example.com/{{requestId}}"; "https://api.example.com/r-1" ].
Proof. vm_compute. reflexivity. Qed.

End PipelineClaims.

(* ================================================================== *)
(** * The session as a store *)
(* ================================================================== *)

Module SessionOpsFacts.

Import JsValue Session SessionOps MapFacts.

Section Maps.
Context {V : Type}.

Lemma Map_get_delete (m : Map V) (k k' : string) :
  Map_get (Map_delete m k) k' = if (k =? k')%string then None else Map_get m k'.
Proof.
  induction m as [|[k0 v0] m IH]; cbn [Map_delete Map_get].
  - now destruct (k =? k')%string.
  - destruct (String.eqb_spec k0 k) as [->|Hne].
    + rewrite IH. destruct (String.eqb_spec k k'); reflexivity.
    + cbn [Map_get]. rewrite IH.
      destruct (String.eqb_spec k k') as [E|Hne']; [| reflexivity].
      rewrite <- E. apply String.eqb_neq in Hne. now rewrite Hne.
Qed.

Lemma Map_delete_keys (m : Map V) (k x : string) :
  In x (map fst (Map_delete m k)) -> In x (map fst m).
Proof.
  induction m as [|[k0 v0] m IH]; cbn [Map_delete map fst In]; [easy |].
  destruct (k0 =? k)%string; cbn [map fst In]; intuition.
Qed.

Lemma Map_delete_NoDup (m : Map V) (k : string) :
  NoDup (map fst m) -> NoDup (map fst (Map_delete m k)).
Proof.
  induction m as [|[k0 v0] m IH]; intros Hnd; cbn [Map_delete map fst];
    [constructor |].
  apply NoDup_cons_iff in Hnd as [Hnotin Hnd].
  destruct (k0 =? k)%string; [now apply IH |].
  cbn [map fst]. constructor; [| now apply IH].
  intros Hin. apply Hnotin. now apply Map_delete_keys in Hin.
Qed.

Lemma Map_get_app_last (l : Map V) (k0 k : string) (v0 : V) :
  Map_get (l ++ [(k0, v0)]) k
  = match Map_get l k with
    | Some v => Some v
    | None => if (k0 =? k)%string then Some v0 else None
    end.
Proof.
  induction l as [|[k1 v1] l IH]; cbn [app Map_get]; [reflexivity |].
  now destruct (k1 =? k)%string.
Qed.

(** After [for (const [k, v] of entries) m.set(k, v)] a key reads as its
    last entry, and as before when it has none. *)
Lemma Map_get_setAll_last (entries : list (string * V)) :
  forall (m : Map V) (k : string),
    Map_get (Map_setAll m entries) k
    = match Map_get (rev entries) k with
      | Some v => Some v
      | None => Map_get m k
      end.
Proof.
  unfold Map_setAll.
  induction entries as [|[k0 v0] rest IH]; intros m k; cbn [fold_left fst snd rev].
  - reflexivity.
  - rewrite IH, Map_get_app_last.
    destruct (Map_get (rev rest) k) as [v|]; [reflexivity |].
    destruct (String.eqb_spec k0 k) as [->|Hne].
    + apply Map_get_set_same.
    + now apply Map_get_set_other.
Qed.

Lemma Map_set_fresh (m : Map V) (k : string) (v : V) :
  ~ In k (map fst m) -> Map_set m k v = m ++ [(k, v)].
Proof.
  induction m as [|[k0 v0] m IH]; intros Hn; cbn [Map_set app]; [reflexivity |].
  destruct (String.eqb_spec k0 k) as [->|Hne].
  - elim Hn. now left.
  - rewrite IH; [reflexivity |]. intros Hin. apply Hn. now right.
Qed.

Lemma Map_setAll_fresh (entries : list (string * V)) :
  forall m : Map V,
    NoDup (map fst (m ++ entries)) -> Map_setAll m entries = m ++ entries.
Proof.
  unfold Map_setAll.
  induction entries as [|[k0 v0] rest IH]; intros m Hnd; cbn [fold_left fst snd].
  - now rewrite app_nil_r.
  - assert (~ In k0 (map fst m)) as Hfresh.
    { rewrite map_app in Hnd. cbn [map fst] in Hnd.
      apply NoDup_remove_2 in Hnd. intros Hin. apply Hnd.
      apply in_or_app. now left. }
    rewrite (Map_set_fresh m k0 v0 Hfresh), IH.
    + now rewrite <- app_assoc.
    + now rewrite <- app_assoc.
Qed.

End Maps.

Lemma has_get (s : SessionManager) (key : string) :
  has s key = match Map_get (variables s) key with Some _ => true | None => false end.
Proof. reflexivity. Qed.

Lemma perform_NoDup (s : SessionManager) (c : call) :
  NoDup (map fst (variables s)) -> NoDup (map fst (variables (perform s c))).
Proof.
  intros H. destruct c as [key value | key | vars |]; cbn [perform].
  - now apply Map_set_NoDup.
  - now apply Map_delete_NoDup.
  - now apply Map_setAll_NoDup.
  - constructor.
Qed.

(** The keys of a session are distinct, as those of the [Map] it holds. *)
Lemma built_NoDup (opts : SessionManagerOptions) (calls : list call) :
  NoDup (map fst (variables (built opts calls))).
Proof.
  unfold built.
  assert (NoDup (map fst (variables (constructor opts)))) as H.
  { unfold constructor. cbn [variables].
    destruct (initialVariables opts); [| constructor].
    apply Map_setAll_NoDup. constructor. }
  revert H. generalize (constructor opts).
  induction calls as [|c calls IH]; intros s H; cbn [fold_left]; [exact H |].
  apply IH. now apply perform_NoDup.
Qed.

Lemma reimport_built (opts : SessionManagerOptions) (calls : list call) :
  variables (reimport (built opts calls)) = assignedTo (variables (built opts calls))
  /\ priority (reimport (built opts calls)) = priority (built opts calls).
Proof.
  pose proof (built_NoDup opts calls) as H.
  destruct (built opts calls) as [vars p]. unfold reimport, constructor, getAll.
  cbn [initialVariables priorityOption variables priority] in *.
  split; [| reflexivity].
  now rewrite (Map_setAll_fresh (assignedTo vars) [] (assignedTo_NoDup vars H)).
Qed.

End SessionOpsFacts.

Module SessionLaws.

Import JsValue Session SessionOps MapFacts SessionOpsFacts.

(** X1.  [set] then [get]: the key reads as the value set, [has] answers
    true for it, and every other key reads and answers as before. *)
Theorem X1_session_set_get (s : SessionManager) (key key' : string) (v : jsval) :
  get (set s key v) key' = (if (key =? key')%string then v else get s key')
  /\ has (set s key v) key' = ((key =? key')%string || has s key').
Proof.
  unfold get, has, set. cbn [variables].
  destruct (String.eqb_spec key key') as [<-|Hne].
  - now rewrite Map_get_set_same.
  - now rewrite (Map_get_set_other _ _ _ v Hne).
Qed.

(** X2.  [delete] answers whether the key was there; afterwards the key is
    gone ([has] is false, [get] is [undefined]) and every other key is as
    before. *)
Theorem X2_session_delete (s : SessionManager) (key key' : string) :
  fst (delete s key) = has s key
  /\ has (snd (delete s key)) key' = (negb (key =? key')%string && has s key')
  /\ get (snd (delete s key)) key'
     = (if (key =? key')%string then JUndefined else get s key')
  /\ priority (snd (delete s key)) = priority s.
Proof.
  unfold delete, has, get. cbn [fst snd variables priority].
  rewrite Map_get_delete.
  now destruct (key =? key')%string.
Qed.

(** X3.  [merge] overwrites and adds: afterwards a key reads as the last
    entry that the merged variables have for it, and as before when they
    have none. *)
Theorem X3_session_merge (s : SessionManager) (vars : list (string * jsval))
        (key : string) :
  get (merge s vars) key
  = match Map_get (rev vars) key with
    | Some v => v
    | None => get s key
    end
  /\ has (merge s vars) key
     = (match Map_get (rev vars) key with Some _ => true | None => false end
        || has s key).
Proof.
  unfold get, has, merge. cbn [variables]. rewrite Map_get_setAll_last.
  now destruct (Map_get (rev vars) key).
Qed.

(** X4.  A session that is exported with [getAll] and read back as the
    initial variables of a new session has its priority, and answers [get]
    and [has] as the original for every key but [__proto__]: [getAll]
    assigns the variables to the properties of an object, which has no
    property of that name afterwards, so that key is gone and the size is
    one less when the session had it.  A session without that key is read
    back as it was.  The keys that [getAll] gives are distinct, whatever
    calls made the session. *)
Theorem X4_session_export_import
        (opts : SessionManagerOptions) (calls : list call) (key : string) :
  (key <> "__proto__" ->
   get (reimport (built opts calls)) key = get (built opts calls) key
   /\ has (reimport (built opts calls)) key = has (built opts calls) key)
  /\ get (reimport (built opts calls)) "__proto__" = JUndefined
  /\ has (reimport (built opts calls)) "__proto__" = false
  /\ size (reimport (built opts calls))
     = (if has (built opts calls) "__proto__"
        then size (built opts calls) - 1
        else size (built opts calls))%nat
  /\ priority (reimport (built opts calls)) = priority (built opts calls)
  /\ (has (built opts calls) "__proto__" = false ->
      reimport (built opts calls) = built opts calls)
  /\ NoDup (map fst (getAll (built opts calls))).
Proof.
  pose proof (built_NoDup opts calls) as Hnd.
  destruct (reimport_built opts calls) as [Hvars Hprio].
  unfold get, has, size. rewrite Hvars, !Map_get_assignedTo.
  split.
  { intros Hkey. destruct (String.eqb_spec key "__proto__") as [E | _]; [now elim Hkey |].
    now split. }
  cbn [String.eqb Ascii.eqb Bool.eqb].
  split; [reflexivity |]. split; [reflexivity |].
  split.
  { rewrite (assignedTo_length _ Hnd).
    now destruct (Map_get (variables (built opts calls)) "__proto__"). }
  split; [exact Hprio |].
  split; [| unfold getAll; now apply assignedTo_NoDup].
  intros Hhas.
  destruct (Map_get (variables (built opts calls)) "__proto__") eqn:E; [discriminate |].
  destruct (reimport (built opts calls)) as [vars' p'].
  destruct (built opts calls) as [vars p].
  cbn [variables priority] in *. rewrite Hvars, Hprio.
  now rewrite (assignedTo_same vars E).
Qed.

(** A session with a variable named [__proto__]: the export loses it. *)
Lemma X4_witness :
  size (built {| initialVariables := None; priorityOption := None |}
              [CallSet "token" (JStr "t"); CallSet "__proto__" (JNum 1)]) = 2%nat
  /\ size (reimport (built {| initialVariables := None; priorityOption := None |}
                           [CallSet "token" (JStr "t"); CallSet "__proto__" (JNum 1)]))
     = 1%nat
  /\ get (reimport (built {| initialVariables := None; priorityOption := None |}
                          [CallSet "token" (JStr "t"); CallSet "__proto__" (JNum 1)]))
         "token"
     = JStr "t".
Proof.
  destruct (X4_session_export_import
              {| initialVariables := None; priorityOption := None |}
              [CallSet "token" (JStr "t"); CallSet "__proto__" (JNum 1)] "token")
    as (Hget & _ & _ & Hsize & _).
  split; [reflexivity |]. split; [exact Hsize |].
  destruct (Hget ltac:(discriminate)) as [H _]. exact H.
Defined.

End SessionLaws.

(* ================================================================== *)
(** * The runner around its scripts *)
(* ================================================================== *)

Module RequestFacts.

Import JsString JsValue Types Runner PipelineNotions LogNotions RunnerNotions.
Import SandboxFacts RunnerFacts.




Lemma seeded_logs (r : Runner) : Sandbox.logs (Sandbox.context (seeded r)) = [].
Proof. unfold seeded. now destruct (session r). Qed.


(** [resetContext] forgets what [setVariables] put into the context. *)
Lemma resetContext_setSandboxVariables (s : Sandbox.ScriptSandbox)
      (vars : list (string * jsval)) :
  Sandbox.resetContext (Sandbox.setSandboxVariables s vars) = Sandbox.resetContext s.
Proof. reflexivity. Qed.

(** The context of the sandbox matters to [begin] in nothing: it is
    replaced. *)
Lemma begin_forgets (c : Collaborators) (request : jsval) (r : Runner)
      (sb : Sandbox.ScriptSandbox) :
  Sandbox.resetContext sb = Sandbox.resetContext (sandbox r) ->
  begin c request
        {| host := host r; runnerOptions := runnerOptions r; session := session r;
           sandbox := sb; sent := sent r; warnings := warnings r |}
  = begin c request r.
Proof.
  intros H. rewrite !begin_spec. unfold resolver, seeded.
  cbn [host runnerOptions session sandbox sent warnings]. now rewrite H.
Qed.

(** The keys of the variables of the context are distinct when the
    pre-script step lets the request go on. *)
Lemma prepared_NoDup (c : Collaborators) (request resolved : jsval)
      (r r1 r2 : Runner) :
  begin c request r = (Ok resolved, r1) ->
  runPreScript c resolved r1 = (Ok None, r2) ->
  NoDup (map fst (Sandbox.variables (Sandbox.context (sandbox r2)))).
Proof.
  intros Hb Hpre.
  assert (NoDup (map fst (Sandbox.variables (Sandbox.context (sandbox r1))))) as H1.
  { rewrite (begin_spec c request r) in Hb. injection Hb as _ <-.
    cbn [sandbox]. apply seeded_NoDup. }
  destruct (runPreScript_continues c resolved r1 r2 Hpre)
    as [[_ ->] | (_ & preResult & sb & h & Hrun & _ & ->)]; [exact H1 |].
  unfold Sandbox.runPre in Hrun. cbn [sandbox].
  pose proof (executeScript_variables (fun m => NoDup (map fst m)) (given c)
                (sandbox r1) (String_ (scriptOf resolved "pre")) None (host r1)
                (fun m k v => MapFacts.Map_set_NoDup m k v) H1) as Hv.
  pose proof (executeScript_frame (given c) (sandbox r1)
                (String_ (scriptOf resolved "pre")) None (host r1)) as Hf.
  rewrite Hrun in Hv, Hf. cbn [fst] in Hv. destruct Hf as (_ & Hf & _).
  now rewrite <- Hf.
Qed.

(** ** The session and the variables of the context *)

Lemma Map_get_notin {V : Type} (m : Map V) (k : string) :
  ~ In k (map fst m) -> Map_get m k = None.
Proof.
  intros Hn. destruct (Map_get m k) as [v|] eqn:E; [| reflexivity].
  elim Hn. exact (MapFacts.Map_get_In m k v E).
Qed.

(** With distinct keys the entries can be read in either direction. *)
Lemma Map_get_rev {V : Type} (m : Map V) (k : string) :
  NoDup (map fst m) -> Map_get (rev m) k = Map_get m k.
Proof.
  induction m as [|[k0 v0] m IH]; intros Hnd; [reflexivity |].
  apply NoDup_cons_iff in Hnd as [Hnotin Hnd].
  cbn [rev Map_get]. rewrite SessionOpsFacts.Map_get_app_last, (IH Hnd).
  destruct (String.eqb_spec k0 k) as [->|Hne].
  - cbn [map fst] in Hnotin. now rewrite (Map_get_notin m k Hnotin).
  - now destruct (Map_get m k).
Qed.



(** The variables of the context that [begin] leaves are those that
    [getAll] exports of the session. *)
Lemma seeded_variables (r : Runner) (opts : Session.SessionManagerOptions)
      (calls : list SessionOps.call) :
  session r = Some (SessionOps.built opts calls) ->
  Sandbox.variables (Sandbox.context (seeded r))
  = assignedTo (Session.variables (SessionOps.built opts calls)).
Proof.
  intros H. unfold seeded. rewrite H.
  unfold Sandbox.setSandboxVariables, Sandbox.setVariables, Sandbox.resetContext,
         Sandbox.withContext, Sandbox.newContext, Session.getAll.
  cbn [Sandbox.context Sandbox.variables].
  apply (SessionOpsFacts.Map_setAll_fresh _ []).
  apply MapFacts.assignedTo_NoDup.
  exact (SessionOpsFacts.built_NoDup opts calls).
Qed.


End RequestFacts.

Module RunnerLaws.

Import JsString JsValue Types Runner PipelineNotions LogNotions Samples.
Import RunnerNotions LogSamples SessionOps.
Import SandboxFacts RunnerFacts RequestFacts.

(** X5.  [executeWithVariables] gives the response of [execute] and leaves
    the runner as [execute] leaves it: [execute] starts by replacing the
    context of the sandbox, so the variables that were put into it are
    gone before a script runs. *)
Theorem X5_executeWithVariables_is_execute
        (c : Collaborators) (request : jsval) (variables : list (string * jsval))
        (r : Runner) :
  executeWithVariables c request variables r = execute c request r.
Proof.
  unfold executeWithVariables, bind, update.
  unfold execute, bind.
  rewrite (begin_forgets c request r
             (Sandbox.setSandboxVariables (sandbox r) variables)
             (resetContext_setSandboxVariables (sandbox r) variables)).
  reflexivity.
Qed.


(** X6.  A runner made without sources of its own has the session, if one
    is attached, the dotenv file and [process.env] as the sources of its
    resolver; their order is that of the priorities alone.  A session of
    priority 200 or more comes first; one of priority 100 to 199 after the
    dotenv file; one below 100 last.  Without a session the dotenv file goes
    before [process.env].  So a name that a session of priority 200 or more
    defines is answered by the session, with the text of its value. *)
Theorem X6_default_sources_by_priority (c : Collaborators) (r : Runner) :
  variableSources (runnerOptions r) = None ->
  map (fun x => (Resolver.name x, Resolver.priority x))
      (Resolver.sources (resolver c r))
  = match session r with
    | None => [("DotEnv", 200%Z); ("SystemEnv", 100%Z)]
    | Some s =>
        if (200 <=? Session.priority s)%Z
        then [("Session", Session.priority s); ("DotEnv", 200%Z); ("SystemEnv", 100%Z)]
        else if (100 <=? Session.priority s)%Z
             then [("DotEnv", 200%Z); ("Session", Session.priority s);
                   ("SystemEnv", 100%Z)]
             else [("DotEnv", 200%Z); ("SystemEnv", 100%Z);
                   ("Session", Session.priority s)]
    end
  /\ (forall s name v,
         session r = Some s -> (200 <= Session.priority s)%Z ->
         Map_get (Session.variables s) (Resolver.lookupName name) = Some v ->
         v <> JUndefined -> coercible v = true ->
         Resolver.lookup (resolver c r) name = Some (String_ v)).
Proof.
  intros H. split.
  - unfold resolver, buildVariableSources. rewrite H.
    unfold Resolver.constructor, Resolver.sortSources. cbn [app Resolver.sources].
    set (D := DotEnvSource c (envPath (runnerOptions r)) 200).
    set (Y := SystemEnvSource (host r) 100).
    assert (fold_right Resolver.insertSorted [] [D; Y] = [D; Y]) as E by reflexivity.
    destruct (session r) as [s|]; [| rewrite E; reflexivity].
    change (fold_right Resolver.insertSorted [] (Session.getVariableSource s :: [D; Y]))
      with (Resolver.insertSorted (Session.getVariableSource s)
                                  (fold_right Resolver.insertSorted [] [D; Y])).
    rewrite E. unfold Resolver.insertSorted, Resolver.compareSources.
    change (Resolver.priority D) with 200%Z. change (Resolver.priority Y) with 100%Z.
    change (Resolver.priority (Session.getVariableSource s)) with (Session.priority s).
    destruct (Z.leb_spec 200 (Session.priority s));
      [| destruct (Z.leb_spec 100 (Session.priority s))].
    + destruct (Z.ltb_spec 0 (200 - Session.priority s)); [lia | reflexivity].
    + destruct (Z.ltb_spec 0 (200 - Session.priority s)); [| lia].
      destruct (Z.ltb_spec 0 (100 - Session.priority s)); [lia | reflexivity].
    + destruct (Z.ltb_spec 0 (200 - Session.priority s)); [| lia].
      destruct (Z.ltb_spec 0 (100 - Session.priority s)); [| lia]. reflexivity.
  - intros s name v Hs Hp Hg Hv _.
    apply (resolver_lookup_session c r s name v Hs Hg Hv).
    intros x Hx _. unfold buildVariableSources in Hx. rewrite H in Hx.
    cbn [app In] in Hx.
    destruct Hx as [<- | [<- | []]]; unfold DotEnvSource, SystemEnvSource;
      cbn [Resolver.priority]; lia.
Qed.

Lemma X6_witness :
  map (fun x => (Resolver.name x, Resolver.priority x))
      (Resolver.sources (resolver collaborators0 runner0))
  = [("Session", 500%Z); ("DotEnv", 200%Z); ("SystemEnv", 100%Z)].
Proof.
  exact (proj1 (X6_default_sources_by_priority collaborators0 runner0 eq_refl)).
Defined.






(** X10.  Each request starts its scripts on a fresh context: after the
    start of [execute] the context has no log lines and no outcomes,
    whatever earlier requests left there, and [getVariable] reads a name
    as the session has it, or [undefined] without a session.  The name
    [__proto__] reads [undefined] in either case: the context is given what
    [getAll] exports. *)
Theorem X10_fresh_context_per_request
        (c : Collaborators) (request : jsval) (r : Runner) (key : string) :
  let context := Sandbox.context (sandbox (snd (begin c request r))) in
  Sandbox.logs context = []
  /\ Sandbox.assertions context = []
  /\ (session r = None -> Sandbox.getVariable context key = JUndefined)
  /\ (forall opts calls,
         session r = Some (built opts calls) ->
         Sandbox.getVariable context key
         = (if (key =? "__proto__")%string then JUndefined
            else Session.get (built opts calls) key)).
Proof.
  intros context. unfold context. rewrite begin_spec. cbn [snd sandbox].
  split; [apply seeded_logs | split; [apply seeded_assertions | split]].
  - intros E. unfold seeded. now rewrite E.
  - intros opts calls H. unfold Sandbox.getVariable, Session.get.
    rewrite (seeded_variables r opts calls H), MapFacts.Map_get_assignedTo.
    now destruct (key =? "__proto__")%string.
Qed.

Lemma X10_witness :
  Sandbox.getVariable
    (Sandbox.context (sandbox (snd (begin collaborators0 bothScripts runner2)))) "page"
  = JNum 2
  /\ Sandbox.logs
       (Sandbox.context (sandbox (snd (begin collaborators0 bothScripts runner2))))
     = [].
Proof.
  destruct (X10_fresh_context_per_request collaborators0 bothScripts runner2 "page")
    as (Hlogs & _ & _ & Hget).
  split; [| exact Hlogs].
  rewrite (Hget oneVariable [CallSet "page" (JNum 2)] eq_refl). reflexivity.
Defined.

End RunnerLaws.

(* ================================================================== *)
(** * The resolver on text without placeholders and on whole values *)
(* ================================================================== *)

Module ObjectFacts.

Import JsString JsValue Resolver PatternFacts ObjectNotions.

(** Induction on values, with the hypothesis for every element of an array
    and every value of an object. *)
Lemma jsval_induction (P : jsval -> Prop) :
  P JUndefined -> P JNull -> (forall b, P (JBool b)) -> (forall n, P (JNum n)) ->
  (forall s, P (JStr s)) ->
  (forall items, Forall P items -> P (JArr items)) ->
  (forall fields, Forall (fun kv => P (snd kv)) fields -> P (JObj fields)) ->
  forall v, P v.
Proof.
  intros HU HN HB HZ HS HA HO. fix IH 1.
  intros [| | b | n | s | items | fields];
    [exact HU | exact HN | apply HB | apply HZ | apply HS | apply HA | apply HO].
  - induction items as [|x items IHitems]; constructor; [apply IH | exact IHitems].
  - induction fields as [|[k x] fields IHfields]; constructor;
      [apply IH | exact IHfields].
Qed.

Lemma hasVariables_false_matchAll (s : string) :
  hasVariables s = false -> matchAll s = [].
Proof.
  induction s as [|c s IH]; intros H; [exact matchAll_empty |].
  cbn [hasVariables] in H.
  destruct (execAt (String c s)) as [[inner rest]|] eqn:E; [discriminate |].
  rewrite (matchAll_skip c s E). now apply IH.
Qed.

Section Plain.

Variable iso : Z -> string.
Variable r : VariableResolver.

Lemma resolveWithInfo0_plain (template : string) (h : Host.t) :
  hasVariables template = false ->
  resolveWithInfo0 iso r template h
  = (if (maxDepth_ (options r) <? 0)%Z then Throw (depthMessage r)
     else Ok {| value := template; unresolved := [] |}, h).
Proof.
  intros H. unfold resolveWithInfo0, fuelFor. cbn [resolveWithInfo].
  rewrite (hasVariables_false_matchAll template H).
  now destruct (maxDepth_ (options r) <? 0)%Z.
Qed.

Lemma resolve_plain (template : string) (h : Host.t) :
  hasVariables template = false ->
  resolve iso r template h
  = (if (maxDepth_ (options r) <? 0)%Z then Throw (depthMessage r)
     else Ok template, h).
Proof.
  intros H. unfold resolve, bind. rewrite (resolveWithInfo0_plain template h H).
  destruct (maxDepth_ (options r) <? 0)%Z; [reflexivity |].
  cbn [unresolved value List.length Nat.eqb negb]. rewrite Bool.andb_false_r.
  reflexivity.
Qed.

End Plain.

Section Whole.

Variable iso : Z -> string.
Variable r : VariableResolver.

(** A value without a property [__proto__] is copied as it is. *)
Lemma copied_protoFree (v : jsval) : protoFree v = true -> copied v = v.
Proof.
  induction v as [| | b | n | s | items IH | fields IH] using jsval_induction;
    intros Hv; try reflexivity.
  - cbn [copied protoFree] in *. f_equal.
    induction IH as [|x items Hx _ IHitems]; [reflexivity |].
    cbn [forallb map] in *. apply Bool.andb_true_iff in Hv as [Hvx Hvl].
    now rewrite (Hx Hvx), (IHitems Hvl).
  - cbn [copied protoFree] in *. f_equal.
    induction IH as [|[k x] fields Hx _ IHfields]; [reflexivity |].
    cbn [forallb map fst snd assignedTo] in *.
    apply Bool.andb_true_iff in Hv as [Hvx Hvl].
    apply Bool.andb_true_iff in Hvx as [Hk Hvx].
    apply Bool.negb_true_iff in Hk. now rewrite Hk, (Hx Hvx), (IHfields Hvl).
Qed.

(** The loops of [resolveObject] when the resolution of every element
    returns, with the host untouched. *)
Lemma eachItem_returns (f : jsval -> M Host.t jsval) (g : jsval -> jsval)
      (items : list jsval) :
  Forall (fun x => forall h, f x h = (Ok (g x), h)) items ->
  forall h, eachItem f items h = (Ok (map g items), h).
Proof.
  intros H h. induction H as [|x items Hx _ IH]; [reflexivity |].
  cbn [eachItem map] in *. unfold bind, ret in *. now rewrite Hx, IH.
Qed.

Lemma eachEntry_returns (f : jsval -> M Host.t jsval) (g : jsval -> jsval)
      (fields : list (string * jsval)) :
  Forall (fun kv => forall h, f (snd kv) h = (Ok (g (snd kv)), h)) fields ->
  forall h, eachEntry f fields h
            = (Ok (map (fun kv => (fst kv, g (snd kv))) fields), h).
Proof.
  intros H h. induction H as [|[k x] fields Hx _ IH]; [reflexivity |].
  cbn [eachEntry map fst snd] in *. unfold bind, ret in *. now rewrite Hx, IH.
Qed.

(** A value without placeholders is resolved to its copy. *)
Lemma resolveObject_placeholderFree :
  (0 <= maxDepth_ (options r))%Z ->
  forall v, placeholderFree v = true ->
            forall h, resolveObject iso r v h = (Ok (copied v), h).
Proof.
  intros Hd v. induction v as [| | b | n | s | items IH | fields IH] using jsval_induction;
    intros Hv h; try reflexivity.
  - cbn [placeholderFree] in Hv. apply Bool.negb_true_iff in Hv.
    cbn [resolveObject]. unfold bind. rewrite (resolve_plain iso r s h Hv).
    destruct (Z.ltb_spec (maxDepth_ (options r)) 0); [lia | reflexivity].
  - cbn [resolveObject copied]. unfold bind, ret.
    rewrite (eachItem_returns (resolveObject iso r) copied items); [reflexivity |].
    cbn [placeholderFree] in Hv. rewrite forallb_forall in Hv.
    rewrite Forall_forall in *. intros x Hx h'. now apply IH, Hv.
  - cbn [resolveObject copied]. unfold bind, ret.
    rewrite (eachEntry_returns (resolveObject iso r) copied fields); [reflexivity |].
    cbn [placeholderFree] in Hv. rewrite forallb_forall in Hv.
    rewrite Forall_forall in *. intros kv Hkv h'. apply (IH kv Hkv), (Hv kv Hkv).
Qed.

(** Two lists of the same shape, element by element. *)
Lemma sameShape_items (l l' : list jsval) :
  Forall2 (fun x x' => sameShape x x' = true) l l' ->
  sameShape (JArr l) (JArr l') = true.
Proof.
  intros H. induction H as [|x x' l l' Hx _ IH]; [reflexivity |].
  cbn [sameShape] in *. now rewrite Hx, IH.
Qed.

Lemma sameShape_fields (l l' : list (string * jsval)) :
  Forall2 (fun kv kv' => fst kv = fst kv' /\ sameShape (snd kv) (snd kv') = true) l l' ->
  sameShape (JObj l) (JObj l') = true.
Proof.
  intros H. induction H as [|[k x] [k' x'] l l' [Hk Hx] _ IH]; [reflexivity |].
  cbn [sameShape fst snd] in *. subst k'. now rewrite String.eqb_refl, Hx, IH.
Qed.

Lemma assignedTo_sameShape (l l' : list (string * jsval)) :
  Forall2 (fun kv kv' => fst kv = fst kv' /\ sameShape (snd kv) (snd kv') = true) l l' ->
  Forall2 (fun kv kv' => fst kv = fst kv' /\ sameShape (snd kv) (snd kv') = true)
          (assignedTo l) (assignedTo l').
Proof.
  intros H. induction H as [|[k x] [k' x'] l l' [Hk Hx] _ IH]; [constructor |].
  cbn [assignedTo fst snd] in *. subst k'.
  destruct (k =? "__proto__")%string; [exact IH |].
  constructor; [now split | exact IH].
Qed.

Lemma eachItem_sameShape (f : jsval -> M Host.t jsval) (items : list jsval) :
  Forall (fun x => forall h v' h', f x h = (Ok v', h') -> sameShape (copied x) v' = true)
         items ->
  forall h res h',
    eachItem f items h = (Ok res, h') ->
    Forall2 (fun x x' => sameShape x x' = true) (map copied items) res.
Proof.
  intros H. induction H as [|x items Hx _ IH]; intros h res h' E.
  - injection E as <- _. constructor.
  - cbn [eachItem] in E. unfold bind, ret in E.
    destruct (f x h) as [[x'|e|] h1] eqn:Ex; try discriminate.
    destruct (eachItem f items h1) as [[rest|e|] h2] eqn:Erest; try discriminate.
    injection E as <- _. cbn [map].
    constructor; [exact (Hx h x' h1 Ex) | exact (IH h1 rest h2 Erest)].
Qed.

Lemma eachEntry_sameShape (f : jsval -> M Host.t jsval)
      (fields : list (string * jsval)) :
  Forall (fun kv => forall h v' h', f (snd kv) h = (Ok v', h') ->
                                    sameShape (copied (snd kv)) v' = true) fields ->
  forall h res h',
    eachEntry f fields h = (Ok res, h') ->
    Forall2 (fun kv kv' => fst kv = fst kv' /\ sameShape (snd kv) (snd kv') = true)
            (map (fun kv => (fst kv, copied (snd kv))) fields) res.
Proof.
  intros H. induction H as [|[k x] fields Hx _ IH]; intros h res h' E.
  - injection E as <- _. constructor.
  - cbn [eachEntry] in E. unfold bind, ret in E. cbn [snd] in Hx.
    destruct (f x h) as [[x'|e|] h1] eqn:Ex; try discriminate.
    destruct (eachEntry f fields h1) as [[rest|e|] h2] eqn:Erest; try discriminate.
    injection E as <- _. cbn [map fst snd].
    constructor; [split; [reflexivity | exact (Hx h x' h1 Ex)]
                 | exact (IH h1 rest h2 Erest)].
Qed.

(** What [resolveObject] returns has the shape of the copy of what it was
    given. *)
Lemma resolveObject_sameShape :
  forall v h v' h', resolveObject iso r v h = (Ok v', h') ->
                    sameShape (copied v) v' = true.
Proof.
  intros v. induction v as [| | b | n | s | items IH | fields IH] using jsval_induction;
    intros h v' h' H.
  - now injection H as <- _.
  - now injection H as <- _.
  - injection H as <- _. cbn. now destruct b.
  - injection H as <- _. cbn. apply Z.eqb_refl.
  - cbn [resolveObject] in H. unfold bind, ret in H.
    destruct (resolve iso r s h) as [[s'|e|] h1]; try discriminate.
    now injection H as <- _.
  - cbn [resolveObject] in H. unfold bind, ret in H.
    destruct (eachItem (resolveObject iso r) items h) as [[res|e|] h1] eqn:E;
      try discriminate.
    injection H as <- _. cbn [copied]. apply sameShape_items.
    exact (eachItem_sameShape _ items IH h res h1 E).
  - cbn [resolveObject] in H. unfold bind, ret in H.
    destruct (eachEntry (resolveObject iso r) fields h) as [[res|e|] h1] eqn:E;
      try discriminate.
    injection H as <- _. cbn [copied]. apply sameShape_fields, assignedTo_sameShape.
    exact (eachEntry_sameShape _ fields IH h res h1 E).
Qed.

End Whole.

End ObjectFacts.

Module ResolverLaws.

Import JsString JsValue Resolver Notions Samples ObjectNotions ObjectFacts.

(** X11.  A text without a placeholder resolves to itself, in strict and
    in lenient mode, with no source asked and the host untouched; only a
    negative maximal depth makes the resolution fail, with the message of
    the depth check. *)
Theorem X11_text_without_placeholder
        (iso : Z -> string) (r : VariableResolver) (template : string) (h : Host.t) :
  hasVariables template = false ->
  resolve iso r template h
  = (if (maxDepth_ (options r) <? 0)%Z then Throw (depthMessage r)
     else Ok template, h)
  /\ resolveWithInfo0 iso r template h
     = (if (maxDepth_ (options r) <? 0)%Z then Throw (depthMessage r)
        else Ok {| value := template; unresolved := [] |}, h)
  /\ resolveObject iso r (JStr template) h
     = (if (maxDepth_ (options r) <? 0)%Z then Throw (depthMessage r)
        else Ok (JStr template), h).
Proof.
  intros H. split; [now apply resolve_plain | split;
                    [now apply resolveWithInfo0_plain |]].
  cbn [resolveObject]. unfold bind. rewrite (resolve_plain iso r template h H).
  now destruct (maxDepth_ (options r) <? 0)%Z.
Qed.

Lemma X11_witness :
  resolve iso0 (constructor [found] strictOptions) "a { b }} c" stillHost
  = (Ok "a { b }} c", stillHost)
  /\ resolve iso0 (constructor [found] {| strict := None; maxDepth := Some (-1)%Z |})
             "a { b }} c" stillHost
     = (Throw "Variable resolution exceeded max depth (-1). Check for circular references.",
        stillHost).
Proof.
  split.
  - exact (proj1 (X11_text_without_placeholder iso0 (constructor [found] strictOptions)
                    "a { b }} c" stillHost eq_refl)).
  - exact (proj1 (X11_text_without_placeholder iso0
                    (constructor [found] {| strict := None; maxDepth := Some (-1)%Z |})
                    "a { b }} c" stillHost eq_refl)).
Defined.

(** X12.  A value none of whose strings has a placeholder is resolved to
    its copy by [resolveObject], with the host untouched, when the maximal
    depth is not negative: numbers, booleans and [null] pass through, the
    keys of objects are not resolved, whatever they contain, and an object
    is copied without a property [__proto__] of its own.  So a value in
    which no object has such a property is resolved to itself. *)
Theorem X12_resolveObject_without_placeholders
        (iso : Z -> string) (r : VariableResolver) (v : jsval) (h : Host.t) :
  (0 <= maxDepth_ (options r))%Z ->
  placeholderFree v = true ->
  resolveObject iso r v h = (Ok (copied v), h)
  /\ (protoFree v = true -> resolveObject iso r v h = (Ok v, h)).
Proof.
  intros Hd Hv.
  pose proof (resolveObject_placeholderFree iso r Hd v Hv h) as H.
  split; [exact H |]. intros Hp. now rewrite H, (copied_protoFree v Hp).
Qed.

Lemma X12_witness :
  resolveObject iso0 (constructor [found] strictOptions) untemplated stillHost
  = (Ok untemplated, stillHost)
  /\ resolveObject iso0 (constructor [found] strictOptions) inheriting stillHost
     = (Ok (JObj [("url", JStr "users")]), stillHost).
Proof.
  destruct (X12_resolveObject_without_placeholders
              iso0 (constructor [found] strictOptions) untemplated stillHost
              ltac:(cbn; lia) eq_refl) as [_ H1].
  destruct (X12_resolveObject_without_placeholders
              iso0 (constructor [found] strictOptions) inheriting stillHost
              ltac:(cbn; lia) eq_refl) as [H2 _].
  split; [exact (H1 eq_refl) | exact H2].
Defined.

(** X13.  What [resolveObject] returns differs from the copy of what it
    was given in the text of strings at most: every place holds a value of
    the same kind, arrays keep their length, objects keep their keys but
    [__proto__] and the order of them, numbers and booleans are the same.
    So it has the shape of the value itself when no object of the value has
    a property [__proto__]. *)
Theorem X13_resolveObject_keeps_shape
        (iso : Z -> string) (r : VariableResolver) (v v' : jsval) (h h' : Host.t) :
  resolveObject iso r v h = (Ok v', h') ->
  sameShape (copied v) v' = true
  /\ (protoFree v = true -> sameShape v v' = true).
Proof.
  intros H. pose proof (resolveObject_sameShape iso r v h v' h' H) as Hs.
  split; [exact Hs |]. intros Hp. now rewrite <- (copied_protoFree v Hp).
Qed.

Lemma X13_witness :
  resolveObject iso0 (constructor [found] lenientOptions) templated stillHost
  = (Ok (JObj [ ("{{found}}", JStr "yes/users");
                ("retries", JNum 3);
                ("tags", JArr [JStr "{{missing}}"; JBool true; JNull]) ]),
     stillHost)
  /\ sameShape templated
               (JObj [ ("{{found}}", JStr "yes/users");
                       ("retries", JNum 3);
                       ("tags", JArr [JStr "{{missing}}"; JBool true; JNull]) ])
     = true.
Proof.
  assert (resolveObject iso0 (constructor [found] lenientOptions) templated stillHost
          = (Ok (JObj [ ("{{found}}", JStr "yes/users");
                        ("retries", JNum 3);
                        ("tags", JArr [JStr "{{missing}}"; JBool true; JNull]) ]),
             stillHost)) as E by (vm_compute; reflexivity).
  split; [exact E |].
  destruct (X13_resolveObject_keeps_shape iso0 (constructor [found] lenientOptions)
              templated
              (JObj [ ("{{found}}", JStr "yes/users");
                      ("retries", JNum 3);
                      ("tags", JArr [JStr "{{missing}}"; JBool true; JNull]) ])
              stillHost stillHost E) as [_ H].
  exact (H eq_refl).
Defined.

End ResolverLaws.

(* ================================================================== *)
(** * Masking of secrets *)
(* ================================================================== *)

Module MaskFacts.

Import JsString JsValue Environment EnvironmentNotions StringFacts.

(** ** Occurrences *)

Lemma includes_step (c : ascii) (s x : string) :
  includes (String c s) x = startsWith (String c s) x || includes s x.
Proof.
  unfold includes. cbn [splitFirst].
  destruct (startsWith (String c s) x); [reflexivity |].
  now destruct (splitFirst s x) as [[before after]|].
Qed.

Lemma includes_empty (x : string) : includes "" x = startsWith "" x.
Proof. unfold includes. cbn [splitFirst]. now destruct (startsWith "" x). Qed.

Lemma startsWith_longer (a b x : string) :
  startsWith a x = true -> startsWith (a ++ b) x = true.
Proof.
  revert a. induction x as [|d x IH]; intros a H; [reflexivity |].
  destruct a as [|e a]; [discriminate |]. cbn [startsWith append] in *.
  apply Bool.andb_true_iff in H as [-> H]. now apply IH.
Qed.

(** A prefix of [a] followed by [c]: it starts in [a] or it has [c]. *)
Lemma startsWith_across (c : ascii) (a t x : string) :
  startsWith (a ++ String c t) x = true ->
  startsWith a x = true \/ hasChar c x = true.
Proof.
  revert a. induction x as [|d x IH]; intros a H; [now left |].
  destruct a as [|e a]; cbn [startsWith append hasChar] in *.
  - apply Bool.andb_true_iff in H as [H _]. right.
    apply Ascii.eqb_eq in H as ->. now rewrite Ascii.eqb_refl.
  - apply Bool.andb_true_iff in H as [-> H].
    destruct (IH a H) as [H'|H']; [left | right]; rewrite H';
      [reflexivity | apply Bool.orb_true_r].
Qed.

Lemma includes_prefix (a b x : string) :
  includes a x = true -> includes (a ++ b) x = true.
Proof.
  induction a as [|e a IH]; intros H.
  - rewrite includes_empty in H. destruct x; [| discriminate].
    unfold includes. now destruct b.
  - cbn [append]. rewrite includes_step in *.
    apply Bool.orb_true_iff in H as [H|H]; apply Bool.orb_true_iff.
    + left. exact (startsWith_longer (String e a) b x H).
    + right. now apply IH.
Qed.

Lemma includes_suffix (a b x : string) :
  includes b x = true -> includes (a ++ b) x = true.
Proof.
  intros H. induction a as [|e a IH]; [exact H |].
  cbn [append]. rewrite includes_step, IH. apply Bool.orb_true_r.
Qed.

Lemma includes_app_false (a b x : string) :
  includes (a ++ b) x = false -> includes a x = false /\ includes b x = false.
Proof.
  intros H. split.
  - destruct (includes a x) eqn:E; [| reflexivity].
    now rewrite (includes_prefix a b x E) in H.
  - destruct (includes b x) eqn:E; [| reflexivity].
    now rewrite (includes_suffix a b x E) in H.
Qed.

(** Text put together around a character that [x] does not have. *)
Lemma includes_around (c : ascii) (a t x : string) :
  hasChar c x = false ->
  includes a x = false -> includes (String c t) x = false ->
  includes (a ++ String c t) x = false.
Proof.
  intros Hc Ha Ht. induction a as [|e a IH]; [exact Ht |].
  cbn [append]. rewrite includes_step in *.
  apply Bool.orb_false_iff in Ha as [Hs Ha].
  apply Bool.orb_false_iff. split; [| now apply IH].
  destruct (startsWith (String e (a ++ String c t)) x) eqn:E; [| reflexivity].
  destruct (startsWith_across c (String e a) t x E) as [H|H]; congruence.
Qed.

Lemma includes_skip (c : ascii) (t x : string) :
  hasChar c x = false -> x <> EmptyString ->
  includes (String c t) x = includes t x.
Proof.
  intros Hc Hx. rewrite includes_step.
  destruct x as [|d x]; [congruence |]. cbn [startsWith hasChar] in *.
  apply Bool.orb_false_iff in Hc as [Hc _].
  rewrite Ascii.eqb_sym in Hc. now rewrite Hc.
Qed.

Lemma includes_masked (a b x : string) :
  hasChar "*" x = false -> x <> EmptyString ->
  includes a x = false -> includes b x = false ->
  includes (a ++ mask ++ b) x = false.
Proof.
  intros Hc Hx Ha Hb. unfold mask. cbn [append].
  apply includes_around; [exact Hc | exact Ha |].
  now rewrite !(includes_skip "*" _ x Hc Hx).
Qed.

(** ** The pieces of a split *)

Lemma startsWith_slice (s p : string) :
  startsWith s p = true -> s = (p ++ slice s (String.length p))%string.
Proof.
  intros H. apply startsWith_spec in H as [t ->]. now rewrite slice_append.
Qed.

Lemma splitFirst_sound (s sep before after : string) :
  splitFirst s sep = Some (before, after) ->
  s = (before ++ sep ++ after)%string.
Proof.
  revert before. induction s as [|c s IH]; intros before H; cbn [splitFirst] in H.
  - destruct (startsWith "" sep) eqn:E; [| discriminate].
    injection H as <- <-. exact (startsWith_slice "" sep E).
  - destruct (startsWith (String c s) sep) eqn:E.
    + injection H as <- <-. exact (startsWith_slice (String c s) sep E).
    + destruct (splitFirst s sep) as [[b a]|]; [| discriminate].
      injection H as <- <-. cbn [append]. now rewrite <- (IH b eq_refl).
Qed.

(** The text before the first occurrence has no occurrence. *)
Lemma splitFirst_before (s sep before after : string) :
  sep <> EmptyString ->
  splitFirst s sep = Some (before, after) -> includes before sep = false.
Proof.
  intros Hsep. revert before.
  induction s as [|c s IH]; intros before H; cbn [splitFirst] in H.
  - destruct (startsWith "" sep) eqn:E; [| discriminate].
    destruct sep; [congruence | discriminate].
  - destruct (startsWith (String c s) sep) eqn:E.
    + injection H as <- _. rewrite includes_empty. now destruct sep.
    + destruct (splitFirst s sep) as [[b a]|] eqn:Es; [| discriminate].
      injection H as <- <-. rewrite includes_step, (IH b eq_refl), Bool.orb_false_r.
      destruct (startsWith (String c b) sep) eqn:E'; [| reflexivity].
      rewrite (splitFirst_sound s sep b a Es) in E.
      change (String c (b ++ sep ++ a)) with (String c b ++ (sep ++ a))%string in E.
      now rewrite (startsWith_longer (String c b) (sep ++ a) sep E') in E.
Qed.

Lemma splitFirst_shorter (s sep before after : string) :
  sep <> EmptyString ->
  splitFirst s sep = Some (before, after) ->
  (String.length after < String.length s)%nat.
Proof.
  intros Hsep H. rewrite (splitFirst_sound s sep before after H).
  rewrite !length_append. destruct sep; [congruence |]. cbn [String.length]. lia.
Qed.

Lemma join_cons (sep x : string) (l : list string) :
  l <> [] -> join sep (x :: l) = (x ++ sep ++ join sep l)%string.
Proof. destruct l; [congruence | reflexivity]. Qed.

Lemma splitFrom_nonempty (fuel : nat) (s sep : string) : splitFrom fuel s sep <> [].
Proof.
  destruct fuel; cbn [splitFrom]; [discriminate |].
  now destruct (splitFirst s sep) as [[b a]|].
Qed.

(** Masking one secret leaves the text free of a secret it was free of. *)
Lemma masked_keeps_free (x sep : string) (fuel : nat) :
  hasChar "*" x = false -> x <> EmptyString ->
  forall s, includes s x = false ->
            includes (join mask (splitFrom fuel s sep)) x = false.
Proof.
  intros Hc Hx. induction fuel as [|fuel IH]; intros s H; cbn [splitFrom];
    [exact H |].
  destruct (splitFirst s sep) as [[before after]|] eqn:E; [| exact H].
  rewrite (join_cons mask before _ (splitFrom_nonempty fuel after sep)).
  rewrite (splitFirst_sound s sep before after E) in H.
  apply includes_app_false in H as [Hb H]. apply includes_app_false in H as [_ Ha].
  apply includes_masked; [exact Hc | exact Hx | exact Hb | now apply IH].
Qed.

(** Masking a secret leaves the text free of it. *)
Lemma masked_free (sep : string) (fuel : nat) :
  hasChar "*" sep = false -> sep <> EmptyString ->
  forall s, (String.length s < fuel)%nat ->
            includes (join mask (splitFrom fuel s sep)) sep = false.
Proof.
  intros Hc Hsep. induction fuel as [|fuel IH]; intros s Hlen; [lia |].
  cbn [splitFrom]. destruct (splitFirst s sep) as [[before after]|] eqn:E.
  - rewrite (join_cons mask before _ (splitFrom_nonempty fuel after sep)).
    apply includes_masked; [exact Hc | exact Hsep | |].
    + exact (splitFirst_before s sep before after Hsep E).
    + apply IH. pose proof (splitFirst_shorter s sep before after Hsep E). lia.
  - cbn [join]. unfold includes. now rewrite E.
Qed.

(** A text without the separator is left as it is. *)
Lemma replaceAll_absent (text sep : string) :
  includes text sep = false -> replaceAll text sep = text.
Proof.
  intros H. unfold replaceAll.
  destruct sep as [|c sep]; [destruct text; discriminate H |].
  cbn [split splitFrom]. unfold includes in H.
  now destruct (splitFirst text (String c sep)).
Qed.

Lemma replaceAll_keeps_free (text sep x : string) :
  sep <> EmptyString -> hasChar "*" x = false -> x <> EmptyString ->
  includes text x = false -> includes (replaceAll text sep) x = false.
Proof.
  intros Hsep Hc Hx H. unfold replaceAll. destruct sep as [|c sep]; [congruence |].
  cbn [split]. now apply masked_keeps_free.
Qed.

Lemma replaceAll_free (text sep : string) :
  hasChar "*" sep = false -> sep <> EmptyString ->
  includes (replaceAll text sep) sep = false.
Proof.
  intros Hc Hx. unfold replaceAll. destruct sep as [|c sep]; [congruence |].
  cbn [split]. apply masked_free; [exact Hc | exact Hx |]. lia.
Qed.

(** What [maskSecrets] splits on is not empty. *)
Lemma separator_nonempty (x : secret) (sep : string) :
  separator x = Some sep -> sep <> EmptyString.
Proof.
  destruct x as [[s | n | b |] | member]; cbn [separator]; try discriminate.
  - destruct s; cbn; [discriminate |]. intros [= <-]. discriminate.
  - destruct (memberLength member) as [n|]; [| discriminate].
    destruct (0 <? n)%nat; [| discriminate]. intros [= <-]. discriminate.
Qed.

Lemma maskOne_keeps_free (text : string) (y : secret) (x : string) :
  hasChar "*" x = false -> x <> EmptyString ->
  includes text x = false -> includes (maskOne text y) x = false.
Proof.
  intros Hc Hx H. unfold maskOne. destruct (separator y) as [sep|] eqn:E; [| exact H].
  apply replaceAll_keeps_free; [exact (separator_nonempty y sep E) | | |]; assumption.
Qed.

(** The loop of [maskSecrets]: the text ends free of a separator of the
    loop and of a text it was free of, when that has no asterisk. *)
Lemma masked_all (secrets : list secret) (x : string) :
  hasChar "*" x = false -> x <> EmptyString ->
  forall text,
    (exists y, In y secrets /\ separator y = Some x) \/ includes text x = false ->
    includes (fold_left maskOne secrets text) x = false.
Proof.
  intros Hc Hx. induction secrets as [|y rest IH]; intros text H.
  - destruct H as [(y & [] & _) | H]. exact H.
  - cbn [fold_left]. apply IH.
    destruct H as [(z & [-> | Hin] & Hz) | H].
    + right. unfold maskOne. rewrite Hz. now apply replaceAll_free.
    + left. now exists z.
    + right. now apply maskOne_keeps_free.
Qed.

Lemma masked_unchanged (secrets : list secret) (text : string) :
  forallb (fun x => match separator x with
                    | Some sep => negb (includes text sep)
                    | None => true
                    end) secrets = true ->
  fold_left maskOne secrets text = text.
Proof.
  induction secrets as [|y rest IH]; intros H; [reflexivity |].
  cbn [forallb] in H. apply Bool.andb_true_iff in H as [Hs Hrest].
  cbn [fold_left]. unfold maskOne at 2.
  destruct (separator y) as [sep|]; [| now apply IH].
  apply Bool.negb_true_iff in Hs. rewrite (replaceAll_absent text sep Hs). now apply IH.
Qed.

Lemma leakFree_spec (m : EnvironmentManager) (text : string) :
  leakFree m text = true
  <-> forall y sep, In y (secretValues m) -> separator y = Some sep ->
                    includes text sep = false.
Proof.
  unfold leakFree. rewrite forallb_forall. split.
  - intros H y sep Hin E. specialize (H y Hin). rewrite E in H.
    now apply Bool.negb_true_iff.
  - intros H y Hin. destruct (separator y) as [sep|] eqn:E; [| reflexivity].
    apply Bool.negb_true_iff. now apply (H y).
Qed.

(** The text that a manager without asterisks in its secrets has masked is
    free of them. *)
Lemma masked_leakFree (m : EnvironmentManager) (text : string) :
  starFree m = true -> leakFree m (maskSecrets m text) = true.
Proof.
  intros Hs. apply leakFree_spec. intros y sep Hin E.
  unfold maskSecrets. apply masked_all.
  - unfold starFree in Hs. rewrite forallb_forall in Hs.
    specialize (Hs y Hin). rewrite E in Hs. now apply Bool.negb_true_iff.
  - exact (separator_nonempty y sep E).
  - left. now exists y.
Qed.

(** A [Set] keeps what it has, and has what was added. *)
Lemma sameSecret_eq (a b : secret) : sameSecret a b = true -> a = b.
Proof.
  destruct a as [[s | n | b0 |] | m], b as [[s' | n' | b' |] | m'];
    cbn [sameSecret]; try discriminate; intros H.
  - apply String.eqb_eq in H. now subst.
  - apply Z.eqb_eq in H. now subst.
  - apply Bool.eqb_prop in H. now subst.
  - reflexivity.
  - apply String.eqb_eq in H. now subst.
Qed.

Lemma Set_add_keeps (set : list secret) (v x : secret) :
  In x set -> In x (Set_add set v).
Proof.
  intros H. unfold Set_add. destruct (existsb (sameSecret v) set); [exact H |].
  apply in_or_app. now left.
Qed.

Lemma Set_add_has (set : list secret) (v : secret) : In v (Set_add set v).
Proof.
  unfold Set_add. destruct (existsb (sameSecret v) set) eqn:E.
  - apply existsb_exists in E as (x & Hin & Hx). apply sameSecret_eq in Hx. now subst.
  - apply in_or_app. right. now left.
Qed.

(** The cache of [load] holds the value of every secret name whose
    variable is truthy. *)
Lemma cacheSecrets_holds (p : EnvironmentProfile) (key : string) (v : scalar) :
  In key (secrets p) -> Map_get (variables p) key = Some v -> truthyScalar v = true ->
  In (Value v) (cacheSecrets p).
Proof.
  intros Hin Hget Ht. unfold cacheSecrets.
  set (step := fun (set : list secret) (secretKey : string) =>
                 match Object_get (variables p) secretKey with
                 | Own value => if truthyScalar value then Set_add set (Value value)
                                else set
                 | Inherited member => Set_add set (Member member)
                 | Missing => set
                 end).
  assert (forall keys set x, In x set -> In x (fold_left step keys set)) as Hkeeps.
  { induction keys as [|k keys IH]; intros set x Hx; [exact Hx |].
    cbn [fold_left]. apply IH. unfold step.
    destruct (Object_get (variables p) k) as [value | member |]; [| | exact Hx].
    - destruct (truthyScalar value); [now apply Set_add_keeps | exact Hx].
    - now apply Set_add_keeps. }
  generalize (@nil secret).
  induction (secrets p) as [|k keys IH]; intros set; [destruct Hin |].
  cbn [fold_left]. destruct Hin as [-> | Hin]; [| now apply IH].
  apply Hkeeps. unfold step, Object_get. rewrite Hget, Ht. apply Set_add_has.
Qed.

End MaskFacts.

Module EnvironmentLaws.

Import JsString JsValue Environment EnvironmentNotions ObjectNotions MaskFacts.

(** X14.  A manager that has loaded a profile holds, for every secret name
    whose variable is a string that is not empty, that string; and the text
    that [maskSecrets] returns has no occurrence of it when it has no
    asterisk, whatever the order of the secrets and however their
    occurrences overlap.  A secret that is a number or a boolean is held as
    well, and is not masked: it has no [length]. *)
Theorem X14_masked_text_has_no_secret
        (m0 : EnvironmentManager) (name : string) (data : ProfileData)
        (text key value : string) :
  let p := fst (load m0 name data) in
  let m := snd (load m0 name data) in
  In key (secrets p) -> Map_get (variables p) key = Some (YStr value) ->
  value <> EmptyString -> hasChar "*" value = false ->
  In (Value (YStr value)) (secretValues m)
  /\ includes (maskSecrets m text) value = false
  /\ (forall n, maskOne text (Value (YNum n)) = text)
  /\ (forall b, maskOne text (Value (YBool b)) = text).
Proof.
  intros p m Hin Hget Hne Hstar.
  assert (In (Value (YStr value)) (secretValues m)) as Hheld.
  { apply (cacheSecrets_holds p key (YStr value) Hin Hget).
    cbn [truthyScalar]. now destruct (String.eqb_spec value ""). }
  split; [exact Hheld |].
  split; [| split; reflexivity].
  unfold maskSecrets. apply masked_all; [exact Hstar | exact Hne |].
  left. exists (Value (YStr value)). split; [exact Hheld |].
  cbn [separator]. destruct value; [congruence | reflexivity].
Qed.

Lemma X14_witness :
  secretValues manager0
  = [Value (YStr "k-123"); Value (YStr "hunter2"); Value (YNum 1234);
     Member "hasOwnProperty"]
  /\ maskSecrets manager0 "key=k-123&pw=hunter2hunter2&again=k-123&pin=1234"
     = "key=********&pw=****************&again=********&pin=1234"
  /\ includes (maskSecrets manager0 "key=k-123&pw=hunter2hunter2&again=k-123&pin=1234")
              "k-123"
     = false.
Proof.
  split; [reflexivity | split; [vm_compute; reflexivity |]].
  destruct (X14_masked_text_has_no_secret
              (constructor {| projectRoot := "/project"; environmentsDirOption := None |})
              "staging" staging
              "key=k-123&pw=hunter2hunter2&again=k-123&pin=1234" "apiKey" "k-123")
    as (_ & H & _).
  - now left.
  - reflexivity.
  - discriminate.
  - reflexivity.
  - exact H.
Defined.

(** The condition of X14 is needed: a secret that is an asterisk is in the
    masked text. *)
Example mask_of_asterisk :
  maskSecrets starred "a*b" = "a********b"
  /\ includes (maskSecrets starred "a*b") "*" = true.
Proof. split; vm_compute; reflexivity. Qed.

(** X15.  A text in which no secret value occurs is returned by
    [maskSecrets] as it is; so, when no secret value of a loaded manager has
    an asterisk, masking a masked text changes nothing. *)
Theorem X15_masking_is_idempotent
        (m : EnvironmentManager) (text : string) :
  (leakFree m text = true -> maskSecrets m text = text)
  /\ (forall m0 name data,
         starFree (snd (load m0 name data)) = true ->
         maskSecrets (snd (load m0 name data))
                     (maskSecrets (snd (load m0 name data)) text)
         = maskSecrets (snd (load m0 name data)) text).
Proof.
  split.
  - intros H. unfold maskSecrets. now apply masked_unchanged.
  - intros m0 name data Hs. unfold maskSecrets at 1. apply masked_unchanged.
    exact (masked_leakFree _ text Hs).
Qed.

(** X16.  [maskSecretsInObject] masks the strings of a value and nothing
    else: the value it returns has the shape of the copy of the one it was
    given, with the same keys but [__proto__], numbers and booleans, so a
    secret in a key stays, and it has the shape of the value itself when no
    object of the value has a property [__proto__].  When no secret that
    the manager masks has an asterisk, no string of the returned value has
    an occurrence of one. *)
Theorem X16_masked_value (m : EnvironmentManager) (obj : jsval) :
  sameShape (copied obj) (maskSecretsInObject m obj) = true
  /\ (protoFree obj = true -> sameShape obj (maskSecretsInObject m obj) = true)
  /\ (starFree m = true -> leakFreeValue m (maskSecretsInObject m obj) = true).
Proof.
  assert (sameShape (copied obj) (maskSecretsInObject m obj) = true
          /\ (starFree m = true -> leakFreeValue m (maskSecretsInObject m obj) = true))
    as [Hshape Hfree].
  { induction obj as [| | b | n | s | items IH | fields IH]
      using ObjectFacts.jsval_induction.
    - now split.
    - now split.
    - split; [now destruct b | reflexivity].
    - split; [apply Z.eqb_refl | reflexivity].
    - split; [reflexivity |]. intros Hs. cbn [maskSecretsInObject leakFreeValue].
      now apply masked_leakFree.
    - cbn [maskSecretsInObject leakFreeValue copied]. split.
      + apply ObjectFacts.sameShape_items.
        induction IH as [|x items [Hx _] _ IHitems]; [constructor |].
        cbn [map]. now constructor.
      + intros Hs. induction IH as [|x items [_ Hx] _ IHitems]; [reflexivity |].
        cbn [map forallb]. now rewrite (Hx Hs), IHitems.
    - cbn [maskSecretsInObject leakFreeValue copied]. split.
      + apply ObjectFacts.sameShape_fields, ObjectFacts.assignedTo_sameShape.
        induction IH as [|[k x] fields [Hx _] _ IHfields]; [constructor |].
        cbn [map fst snd] in *. constructor; [now split | exact IHfields].
      + intros Hs. induction IH as [|[k x] fields [_ Hx] _ IHfields]; [reflexivity |].
        cbn [map assignedTo fst snd] in *.
        destruct (k =? "__proto__")%string; [exact IHfields |].
        cbn [forallb snd]. now rewrite (Hx Hs), IHfields. }
  split; [exact Hshape |]. split; [| exact Hfree].
  intros Hp. rewrite (ObjectFacts.copied_protoFree obj Hp) in Hshape. exact Hshape.
Qed.

Lemma X15_witness :
  maskSecrets manager0 (maskSecrets manager0 "pw=hunter2; key=k-123")
  = maskSecrets manager0 "pw=hunter2; key=k-123"
  /\ maskSecrets manager0 "region=eu" = "region=eu".
Proof.
  destruct (X15_masking_is_idempotent manager0 "pw=hunter2; key=k-123") as [_ Htwice].
  destruct (X15_masking_is_idempotent manager0 "region=eu") as [Hfree _].
  split.
  - exact (Htwice (constructor {| projectRoot := "/project";
                                  environmentsDirOption := None |})
                  "staging" staging eq_refl).
  - apply Hfree. reflexivity.
Defined.

Lemma X16_witness :
  maskSecretsInObject manager0
    (JObj [ ("k-123", JStr "Bearer k-123"); ("tries", JNum 2);
            ("log", JArr [JStr "hunter2!"; JNull]) ])
  = JObj [ ("k-123", JStr "Bearer ********"); ("tries", JNum 2);
           ("log", JArr [JStr "********!"; JNull]) ]
  /\ leakFreeValue manager0
       (maskSecretsInObject manager0
          (JObj [ ("k-123", JStr "Bearer k-123"); ("tries", JNum 2);
                  ("log", JArr [JStr "hunter2!"; JNull]) ]))
     = true.
Proof.
  split; [vm_compute; reflexivity |].
  destruct (X16_masked_value manager0
              (JObj [ ("k-123", JStr "Bearer k-123"); ("tries", JNum 2);
                      ("log", JArr [JStr "hunter2!"; JNull]) ])) as (_ & _ & H).
  apply H. reflexivity.
Defined.

End EnvironmentLaws.

(* ================================================================== *)
(** * The headers that the client sends *)
(* ================================================================== *)

Module HeaderFacts.

Import JsString JsValue HttpClient.

Section Given.

Variable JSON_stringify : jsval -> option string.
Variable URLSearchParams_toString : jsval -> string.
Variable base64 : string -> string.


Lemma applyAuth_other (headers : Map jsval) (auth : jsval) (key : string) :
  key <> "Authorization" -> key <> String_ (getProp auth "key") ->
  Map_get (applyAuth base64 headers auth) key = Map_get headers key.
Proof.
  intros H1 H2. unfold applyAuth.
  repeat match goal with
         | |- context [if ?b then _ else _] => destruct b
         end;
    try reflexivity; unfold Object_set;
    repeat match goal with
           | |- context [if ?b then _ else _] => destruct b
           end;
    try reflexivity; apply MapFacts.Map_get_set_other; congruence.
Qed.

Lemma applyAuth_defined (headers : Map jsval) (auth : jsval) (key : string) :
  Map_get headers key <> None -> Map_get (applyAuth base64 headers auth) key <> None.
Proof.
  intros H. unfold applyAuth.
  repeat match goal with
         | |- context [if ?b then _ else _] => destruct b
         end;
    try exact H; unfold Object_set;
    repeat match goal with
           | |- context [if ?b then _ else _] => destruct b
           end;
    try exact H; now apply MapFacts.Map_set_defined.
Qed.

Lemma withContentType_other (req : jsval) (key : string) :
  key <> "Content-Type"
  \/ truthy (header (requestHeaders req) "Content-Type") = true
  \/ truthy (header (requestHeaders req) "content-type") = true ->
  Map_get (withContentType JSON_stringify URLSearchParams_toString req) key = Map_get (requestHeaders req) key.
Proof.
  intros H. unfold withContentType.
  destruct H as [H|[H|H]].
  - repeat match goal with
           | |- context [if ?b then _ else _] => destruct b
           | |- context [match ?x with Some _ => _ | None => _ end] => destruct x
           end;
      try reflexivity; apply MapFacts.Map_get_set_other; congruence.
  - rewrite H. cbn [negb]. now rewrite Bool.andb_false_r.
  - rewrite H. cbn [negb]. now rewrite Bool.andb_false_r.
Qed.

Lemma withContentType_defined (req : jsval) (key : string) :
  Map_get (requestHeaders req) key <> None -> Map_get (withContentType JSON_stringify URLSearchParams_toString req) key <> None.
Proof.
  intros H. unfold withContentType.
  repeat match goal with
         | |- context [if ?b then _ else _] => destruct b
         | |- context [match ?x with Some _ => _ | None => _ end] => destruct x
         end;
    try exact H; now apply MapFacts.Map_set_defined.
Qed.

End Given.

End HeaderFacts.

Module HeaderLaws.

Import JsString JsValue HttpClient HttpSamples HeaderFacts.

(** X17.  [buildHeaders] keeps the headers of the request: a header whose
    name is not [Authorization], not the name of the API key of [auth] and
    not [Content-Type] is sent with the value the request gives it, and so
    is [Content-Type] when the request sets it or [content-type]; no header
    of the request is dropped.  Names are compared as they are written, so
    [authorization] in lower case is kept beside what [auth] adds. *)
Theorem X17_request_headers_are_kept
        (JSON_stringify : jsval -> option string)
        (URLSearchParams_toString : jsval -> string) (base64 : string -> string)
        (req : jsval) (key : string) :
  key <> "Authorization" ->
  key <> String_ (getProp (getProp req "auth") "key") ->
  key <> "Content-Type"
  \/ truthy (header (requestHeaders req) "Content-Type") = true
  \/ truthy (header (requestHeaders req) "content-type") = true ->
  let sent := buildHeaders JSON_stringify URLSearchParams_toString base64 req in
  Map_get sent key = Map_get (requestHeaders req) key
  /\ (forall k, Map_get (requestHeaders req) k <> None -> Map_get sent k <> None).
Proof.
  intros H1 H2 H3 sent. unfold sent, buildHeaders. split.
  - destruct (truthy (getProp req "auth")).
    + rewrite (applyAuth_other base64 _ _ key H1 H2).
      now apply withContentType_other.
    + now apply withContentType_other.
  - intros k Hk. destruct (truthy (getProp req "auth")).
    + now apply applyAuth_defined, withContentType_defined.
    + now apply withContentType_defined.
Qed.

Lemma X17_witness :
  buildHeaders stringify0 String_ base64' posting
  = [ ("Accept", JStr "*/*"); ("authorization", JStr "Basic old");
      ("X-Trace", JStr "1"); ("Content-Type", JStr "application/json");
      ("Authorization", JStr "Bearer t-1") ]
  /\ Map_get (buildHeaders stringify0 String_ base64' posting) "authorization"
     = Some (JStr "Basic old").
Proof.
  split; [reflexivity |].
  assert ("authorization" <> "Authorization") as H1 by discriminate.
  assert ("authorization" <> String_ (getProp (getProp posting "auth") "key")) as H2
      by discriminate.
  assert ("authorization" <> "Content-Type") as H3 by discriminate.
  destruct (X17_request_headers_are_kept stringify0 String_ base64' posting
              "authorization" H1 H2 (or_introl H3)) as [H _].
  rewrite H. reflexivity.
Defined.

(** X18.  What [auth] adds to the headers, for each of its types.  A
    bearer token gives the [Authorization] header, and so does a pair of
    user name and password, in place of one the request has under that
    name; without the token, or without the user name or the password, the
    headers are those without [auth].  An API key is assigned to the header
    of its name when key and value are there and its place is the header,
    so a key for the query is sent nowhere and a key without a name or a
    value gives the headers without [auth]; a key named [__proto__] adds
    no header.  With another type the headers are those without [auth].
    The parts that are made into text are values that [String] has a text
    for. *)
Theorem X18_authorization_header
        (JSON_stringify : jsval -> option string)
        (URLSearchParams_toString : jsval -> string) (base64 : string -> string)
        (req : jsval) :
  let auth := getProp req "auth" in
  let type := getProp auth "type" in
  let sent := buildHeaders JSON_stringify URLSearchParams_toString base64 req in
  let plain := withContentType JSON_stringify URLSearchParams_toString req in
  (isString type "bearer" = true -> coercible (getProp auth "token") = true ->
   sent = if truthy (getProp auth "token")
          then Map_set plain "Authorization"
                       (JStr ("Bearer " ++ String_ (getProp auth "token"))%string)
          else plain)
  /\ (isString type "bearer" = true -> coercible (getProp auth "token") = true ->
      truthy (getProp auth "token") = true ->
      header sent "Authorization"
      = JStr ("Bearer " ++ String_ (getProp auth "token"))%string)
  /\ (isString type "basic" = true ->
      coercible (getProp auth "username") = true ->
      coercible (getProp auth "password") = true ->
      sent = if truthy (getProp auth "username") && truthy (getProp auth "password")
             then Map_set plain "Authorization"
                          (JStr ("Basic "
                                 ++ base64 (String_ (getProp auth "username") ++ ":"
                                            ++ String_ (getProp auth "password")))%string)
             else plain)
  /\ (isString type "basic" = true ->
      coercible (getProp auth "username") = true ->
      coercible (getProp auth "password") = true ->
      truthy (getProp auth "username") = true ->
      truthy (getProp auth "password") = true ->
      header sent "Authorization"
      = JStr ("Basic " ++ base64 (String_ (getProp auth "username") ++ ":"
                                  ++ String_ (getProp auth "password")))%string)
  /\ (isString type "api-key" = true -> coercible (getProp auth "key") = true ->
      sent = if truthy (getProp auth "key") && truthy (getProp auth "value")
                && isString (getProp auth "in") "header"
             then Object_set plain (String_ (getProp auth "key")) (getProp auth "value")
             else plain)
  /\ (isString type "api-key" = true -> coercible (getProp auth "key") = true ->
      truthy (getProp auth "key") = true -> truthy (getProp auth "value") = true ->
      isString (getProp auth "in") "header" = true ->
      String_ (getProp auth "key") <> "__proto__" ->
      Map_get sent (String_ (getProp auth "key")) = Some (getProp auth "value"))
  /\ (isString type "api-key" = true ->
      isString (getProp auth "in") "header" = false -> sent = plain)
  /\ (isString type "bearer" = false -> isString type "basic" = false ->
      isString type "api-key" = false -> sent = plain).
Proof.
  intros auth type sent plain.
  assert (forall t, isString type t = true -> truthy auth = true) as Hobj.
  { intros t Ht. unfold type in Ht. destruct auth; try discriminate Ht. reflexivity. }
  assert (forall t t', t <> t' -> isString type t = true -> isString type t' = false)
    as Hone.
  { intros t t' Hne Ht. destruct type as [| | | | x | |]; try discriminate Ht.
    cbn [isString] in *. apply String.eqb_eq in Ht. subst x.
    now apply String.eqb_neq. }
  assert (isString type "basic" = true ->
          applyAuth base64 plain auth
          = if truthy (getProp auth "username") && truthy (getProp auth "password")
            then Map_set plain "Authorization"
                         (JStr ("Basic "
                                ++ base64 (String_ (getProp auth "username") ++ ":"
                                           ++ String_ (getProp auth "password")))%string)
            else plain) as Hbasic.
  { intros Ht. unfold applyAuth. fold type.
    now rewrite (Hone "basic" "bearer" ltac:(discriminate) Ht), Ht. }
  assert (isString type "api-key" = true ->
          applyAuth base64 plain auth
          = if truthy (getProp auth "key") && truthy (getProp auth "value")
               && isString (getProp auth "in") "header"
            then Object_set plain (String_ (getProp auth "key")) (getProp auth "value")
            else plain) as Hkey.
  { intros Ht. unfold applyAuth. fold type.
    now rewrite (Hone "api-key" "bearer" ltac:(discriminate) Ht),
                (Hone "api-key" "basic" ltac:(discriminate) Ht), Ht. }
  unfold sent, buildHeaders. fold auth. fold plain.
  split; [| split; [| split; [| split; [| split; [| split; [| split]]]]]].
  - intros Ht _. rewrite (Hobj _ Ht). unfold applyAuth. fold type. now rewrite Ht.
  - intros Ht _ Htoken. rewrite (Hobj _ Ht). unfold applyAuth, header. fold type.
    rewrite Ht, Htoken. now rewrite MapFacts.Map_get_set_same.
  - intros Ht _ _. rewrite (Hobj _ Ht). now apply Hbasic.
  - intros Ht _ _ Hu Hp. rewrite (Hobj _ Ht), (Hbasic Ht), Hu, Hp. cbn [andb].
    unfold header. now rewrite MapFacts.Map_get_set_same.
  - intros Ht _. rewrite (Hobj _ Ht). now apply Hkey.
  - intros Ht _ Hk Hv Hin Hname. rewrite (Hobj _ Ht), (Hkey Ht), Hk, Hv, Hin. cbn [andb].
    unfold Object_set.
    destruct (String.eqb_spec (String_ (getProp auth "key")) "__proto__") as [E | _];
      [now elim Hname |].
    cbn [andb]. apply MapFacts.Map_get_set_same.
  - intros Ht Hin. rewrite (Hobj _ Ht), (Hkey Ht), Hin. now rewrite Bool.andb_false_r.
  - intros Hb Hc Hk. destruct (truthy auth); [| reflexivity].
    unfold applyAuth. fold type. now rewrite Hb, Hc, Hk.
Qed.

(** An API key for the query leaves the headers as they are, and the URL
    is the one of the request. *)
Example query_key_is_not_sent :
  buildHeaders stringify0 String_ base64' keyed = [("Accept", JStr "*/*")].
Proof. reflexivity. Qed.

Lemma X18_witness :
  header (buildHeaders stringify0 String_ base64' posting) "Authorization"
  = JStr "Bearer t-1"
  /\ buildHeaders stringify0 String_ base64' keyed
     = withContentType stringify0 String_ keyed
  /\ buildHeaders stringify0 String_ base64' halfBasic
     = withContentType stringify0 String_ halfBasic.
Proof.
  destruct (X18_authorization_header stringify0 String_ base64' posting)
    as (_ & Hbearer & _).
  destruct (X18_authorization_header stringify0 String_ base64' keyed)
    as (_ & _ & _ & _ & _ & _ & Hkey & _).
  destruct (X18_authorization_header stringify0 String_ base64' halfBasic)
    as (_ & _ & Hbasic & _).
  split; [exact (Hbearer eq_refl eq_refl eq_refl) |].
  split; [exact (Hkey eq_refl eq_refl) | exact (Hbasic eq_refl eq_refl eq_refl)].
Defined.

End HeaderLaws.

(* ================================================================== *)
(** * The variables of the dotenv files *)
(* ================================================================== *)

Module DotEnvLaws.

Import JsValue DotEnv DotEnvSamples.

(** X19.  With [.env] and [.env.local] both there, [get] answers with the
    value of [.env.local] for a key that it has and with the value of
    [.env] otherwise; the files are read once: later calls answer from the
    cache whatever the files hold by then, until [reload], which reads the
    files as a new source does. *)
Theorem X19_local_file_overrides_and_is_cached
        (files files' : Files) (options : DotEnvSourceOptions)
        (base local : list (string * string)) (key key' : string) :
  let fresh := constructor options in
  let answer k :=
    match Map_get local k with Some v => Some v | None => Map_get base k end in
  loadLocal options <> Some false ->
  files (envPath fresh) = Parsed base ->
  files (envPath fresh ++ ".local")%string = Parsed local ->
  NoDup (map fst base) -> NoDup (map fst local) ->
  exists source,
    get files key fresh = (Ok (answer key), source)
    /\ get files' key' source = (Ok (answer key'), source)
    /\ reload files' source = ensureLoaded files' fresh.
Proof.
  intros fresh answer Hlocal Hbase Hloc Hnb Hnl.
  assert (loadLocal_ fresh = true) as Hl.
  { unfold fresh, constructor. cbn [loadLocal_].
    destruct (loadLocal options) as [[|]|]; congruence. }
  assert (forall k, Map_get (Map_setAll (Map_setAll [] base) local) k = answer k) as Hget.
  { intros k. unfold answer.
    rewrite !SessionOpsFacts.Map_get_setAll_last.
    rewrite (RequestFacts.Map_get_rev local k Hnl), (RequestFacts.Map_get_rev base k Hnb).
    now destruct (Map_get local k), (Map_get base k). }
  exists {| source_priority := source_priority fresh; envPath := envPath fresh;
            loadLocal_ := true;
            cache := Some (Map_setAll (Map_setAll [] base) local); loaded := true |}.
  split; [| split].
  - unfold get, ensureLoaded, bind, loadFile, setCache, setLoaded.
    change (loaded fresh) with false.
    cbn [loaded cache envPath loadLocal_ source_priority]. rewrite Hbase. cbn [loaded cache envPath loadLocal_ source_priority].
    rewrite Hl, Hloc. cbn [loaded cache envPath loadLocal_ source_priority].
    now rewrite Hget.
  - unfold get, ensureLoaded, bind. cbn [loaded cache]. now rewrite Hget.
  - unfold reload, bind, setLoaded, setCache.
    cbn [loaded cache envPath loadLocal_ source_priority].
    rewrite <- Hl. reflexivity.
Qed.

Lemma X19_witness :
  exists source,
    get files0 "TOKEN" source0 = (Ok (Some "local"), source)
    /\ get files1 "API_URL" source = (Ok (Some "https://api.example.com"), source)
    /\ get files1 "TOKEN" source = (Ok (Some "local"), source)
    /\ fst (bind (reload files1) (fun _ => get files1 "TOKEN") source)
       = Ok (Some "changed").
Proof.
  assert (NoDup (map fst [("API_URL", "https://api.example.com"); ("TOKEN", "base")]))
    as Hb.
  { repeat constructor; cbn; intuition discriminate. }
  assert (NoDup (map fst [("TOKEN", "local")])) as Hl.
  { repeat constructor; cbn; intuition. }
  assert (loadLocal {| path := None; loadLocal := None; priority := None |}
          <> Some false) as Hn by discriminate.
  destruct (X19_local_file_overrides_and_is_cached files0 files1
              {| path := None; loadLocal := None; priority := None |}
              [("API_URL", "https://api.example.com"); ("TOKEN", "base")]
              [("TOKEN", "local")] "TOKEN" "API_URL" Hn eq_refl eq_refl Hb Hl)
    as (source & H1 & H2 & H3).
  destruct (X19_local_file_overrides_and_is_cached files0 files1
              {| path := None; loadLocal := None; priority := None |}
              [("API_URL", "https://api.example.com"); ("TOKEN", "base")]
              [("TOKEN", "local")] "TOKEN" "TOKEN" Hn eq_refl eq_refl Hb Hl)
    as (source' & H1' & H2' & _).
  assert (source' = source) as E.
  { change (constructor {| path := None; loadLocal := None; priority := None |})
      with source0 in H1, H1'. rewrite H1 in H1'. now injection H1' as <-. }
  rewrite E in H2'.
  exists source. split; [exact H1 | split; [exact H2 | split; [exact H2' |]]].
  unfold bind at 1. rewrite H3. reflexivity.
Defined.

(** X20.  Files that are not there are no failure: [get] answers
    [undefined] and the source counts as loaded, so a file made later is
    not read before [reload].  A file that cannot be read for another
    reason makes [get] throw the failure; the source is then not loaded,
    and the next call reads the files again as a new source does. *)
Theorem X20_missing_and_unreadable_files
        (files : Files) (options : DotEnvSourceOptions) (key : string) :
  let fresh := constructor options in
  (files (envPath fresh) = NoSuchFile ->
   files (envPath fresh ++ ".local")%string = NoSuchFile ->
   exists source,
     get files key fresh = (Ok None, source)
     /\ forall files' key', get files' key' source = (Ok None, source))
  /\ (forall message,
         files (envPath fresh) = Failed message ->
         exists source,
           get files key fresh = (Throw message, source)
           /\ loaded source = false
           /\ forall files' key', get files' key' source = get files' key' fresh)
  /\ (forall base message,
         loadLocal options <> Some false ->
         files (envPath fresh) = Parsed base ->
         files (envPath fresh ++ ".local")%string = Failed message ->
         exists source,
           get files key fresh = (Throw message, source)
           /\ loaded source = false
           /\ forall files' key', get files' key' source = get files' key' fresh).
Proof.
  intros fresh. split; [| split].
  - intros Hbase Hloc.
    exists {| source_priority := source_priority fresh; envPath := envPath fresh;
              loadLocal_ := loadLocal_ fresh; cache := Some []; loaded := true |}.
    split.
    + unfold get, ensureLoaded, bind, loadFile, setCache, setLoaded.
      change (loaded fresh) with false.
      cbn [loaded cache envPath loadLocal_ source_priority]. rewrite Hbase.
      destruct (loadLocal_ fresh) eqn:E;
        cbn [loaded cache envPath loadLocal_ source_priority ret];
        [rewrite Hloc |]; reflexivity.
    + intros files' key'. reflexivity.
  - intros message Hbase.
    exists {| source_priority := source_priority fresh; envPath := envPath fresh;
              loadLocal_ := loadLocal_ fresh; cache := Some []; loaded := false |}.
    split; [| split; [reflexivity |]].
    + unfold get, ensureLoaded, bind, loadFile, setCache, setLoaded.
      change (loaded fresh) with false.
      cbn [loaded cache envPath loadLocal_ source_priority]. now rewrite Hbase.
    + intros files' key'. reflexivity.
  - intros base message Hlocal Hbase Hloc.
    assert (loadLocal_ fresh = true) as Hl.
    { unfold fresh, constructor. cbn [loadLocal_].
      destruct (loadLocal options) as [[|]|]; congruence. }
    exists {| source_priority := source_priority fresh; envPath := envPath fresh;
              loadLocal_ := loadLocal_ fresh;
              cache := Some (Map_setAll [] base); loaded := false |}.
    split; [| split; [reflexivity |]].
    + unfold get, ensureLoaded, bind, loadFile, setCache, setLoaded.
      change (loaded fresh) with false.
      cbn [loaded cache envPath loadLocal_ source_priority]. rewrite Hbase.
      cbn [loaded cache envPath loadLocal_ source_priority].
      rewrite Hl, Hloc. reflexivity.
    + intros files' key'. reflexivity.
Qed.

Example unreadable_local_file :
  fst (get files2 "API_URL" source0) = Throw "EACCES: permission denied"
  /\ fst (bind (get files2 "API_URL") (fun _ => get files0 "TOKEN") source0)
     = Throw "EACCES: permission denied"
  /\ fst (get files0 "TOKEN" (snd (get files2 "API_URL" source0)))
     = Ok (Some "local").
Proof. repeat split. Qed.

Lemma X20_witness :
  exists source,
    get files2 "API_URL" source0 = (Throw "EACCES: permission denied", source)
    /\ loaded source = false
    /\ get files0 "TOKEN" source = get files0 "TOKEN" source0.
Proof.
  destruct (X20_missing_and_unreadable_files files2
              {| path := None; loadLocal := None; priority := None |} "API_URL")
    as (_ & _ & H).
  assert (loadLocal {| path := None; loadLocal := None; priority := None |}
          <> Some false) as Hn by discriminate.
  destruct (H [("API_URL", "https://api.example.com"); ("TOKEN", "base")]
              "EACCES: permission denied" Hn eq_refl eq_refl)
    as (source & H1 & H2 & H3).
  exists source. split; [exact H1 | split; [exact H2 | apply H3]].
Defined.

End DotEnvLaws.

(* ================================================================== *)
(** * The view of the response *)
(* ================================================================== *)

Module ResponseLaws.

Import JsString JsValue Types JsonNotions.

(** X21.  [response.json()] answers with the parsed body of the response
    when the client parsed it, at every call.  When it did not ([json] is
    [null]), the first call parses the body itself and returns the value,
    or throws when the body is no JSON; every later call throws
    [Response body is not valid JSON], also after a first call that
    returned a value. *)
Theorem X21_json_parses_once
        (g : Sandbox.Given) (response : RadiusResponse) (n : nat) :
  let view := Sandbox.newResponseContext response in
  (json response <> JNull ->
   jsonCalls g n view = repeat (inl (json response)) n)
  /\ (json response = JNull ->
      jsonCalls g (S n) view
      = match Sandbox.JSON_parse g (body response) with
        | Some v => inl v
        | None => inr Sandbox.notJsonMessage
        end :: repeat (inr Sandbox.notJsonMessage) n).
Proof.
  intros view. split.
  - intros Hj. unfold view, Sandbox.newResponseContext.
    generalize false as parsed.
    induction n as [|n IH]; intros parsed; [reflexivity |].
    cbn [jsonCalls repeat]. unfold Sandbox.json. cbn [Sandbox.ctx_json].
    destruct (json response) eqn:E; try congruence;
      (rewrite <- E; f_equal; rewrite <- E in IH; apply IH).
  - intros Hj. cbn [jsonCalls]. unfold view, Sandbox.newResponseContext, Sandbox.json.
    cbn [Sandbox.ctx_json Sandbox.ctx_jsonParsed Sandbox.ctx_view Sandbox.view_body].
    rewrite Hj.
    assert (forall r, Sandbox.ctx_json r = JNull -> Sandbox.ctx_jsonParsed r = true ->
                      jsonCalls g n r = repeat (inr Sandbox.notJsonMessage) n) as Hlater.
    { induction n as [|n IH]; intros r H1 H2; [reflexivity |].
      cbn [jsonCalls repeat]. unfold Sandbox.json. rewrite H1, H2.
      f_equal. now apply IH. }
    destruct (Sandbox.JSON_parse g (body response)); f_equal; now apply Hlater.
Qed.

Lemma X21_witness :
  jsonCalls given3 3 (Sandbox.newResponseContext unparsed)
  = [ inl (JArr [JNum 1]); inr "Response body is not valid JSON";
      inr "Response body is not valid JSON" ].
Proof.
  destruct (X21_json_parses_once given3 unparsed 2) as [_ H].
  exact (H eq_refl).
Defined.

End ResponseLaws.

(* ================================================================== *)
(** * How a request can fail *)
(* ================================================================== *)

Module FailureFacts.

Import JsString JsValue Resolver Notions ObjectFacts.

Section Resolution.

Variable iso : Z -> string.
Variable r : VariableResolver.




End Resolution.

End FailureFacts.

Module FailureLaws.

Import JsString JsValue Types Runner PipelineNotions Samples FailureNotions.
Import RunnerFacts RequestFacts FailureFacts.



End FailureLaws.
